(** * url2md: the web page to Markdown converter of [Scripts/url2md.py]

    A shallow embedding of the class [WebpageToMarkdown] and of [main]:
    Python strings are lists of Unicode code points, the regular
    expressions of the script are run by a small greedy backtracking
    matcher, the parsed page is a tree, and the file system and the
    network are an explicit world threaded through a state-and-exception
    monad.  Functions of external libraries (urllib, hashlib, bs4's
    parser, html2text) are fields of the class [Lib].

    The platform is POSIX: paths are those of [posixpath] and of
    [PurePosixPath], file names are encoded as UTF-8 with
    [surrogateescape], a name is at most 255 bytes long and a path at
    most 4095, and standard output is a UTF-8 stream.  The file system
    has no symbolic links, and the process may read and write whatever
    is there. *)

From Stdlib Require Import String Ascii DecimalString.
From Stdlib Require Import List NArith ZArith Bool Arith Lia.
Import ListNotations.

Set Implicit Arguments.

(* ================================================================== *)
(** * Python strings *)

(** A [str] is a sequence of code points; [bytes] a sequence of octets. *)
Definition char := N.
Definition str := list char.
Definition bytes := list N.

Definition lit (s : string) : str :=
  map N_of_ascii (list_ascii_of_string s).

Definition NL : char := 10%N.

Definition char_eqb (a b : char) : bool := N.eqb a b.

Fixpoint str_eqb (a b : str) : bool :=
  match a, b with
  | [], [] => true
  | x :: a', y :: b' => char_eqb x y && str_eqb a' b'
  | _, _ => false
  end.

(** [c in chars] for a one-character [c]. *)
Definition char_in (chars : str) (c : char) : bool :=
  existsb (char_eqb c) chars.

(** [str.isspace] on one code point (CPython's [Py_UNICODE_ISSPACE]); the
    class [\s] of [re] on a [str] pattern and the characters removed by
    [str.strip()] are both this set. *)
Definition isspace (c : char) : bool :=
  ((9 <=? c) && (c <=? 13) || (28 <=? c) && (c <=? 32)
   || (c =? 133) || (c =? 160) || (c =? 5760)
   || (8192 <=? c) && (c <=? 8202)
   || (c =? 8232) || (c =? 8233) || (c =? 8239) || (c =? 8287)
   || (c =? 12288))%N.

Fixpoint lstrip (s : str) : str :=
  match s with
  | c :: s' => if isspace c then lstrip s' else s
  | [] => []
  end.

Definition rstrip (s : str) : str := rev (lstrip (rev s)).

(** [s.strip()] *)
Definition strip (s : str) : str := rstrip (lstrip s).

(** [s.startswith(prefix)] *)
Fixpoint startswith (s prefix : str) : bool :=
  match prefix, s with
  | [], _ => true
  | p :: prefix', c :: s' => char_eqb p c && startswith s' prefix'
  | _ :: _, [] => false
  end.

(** [sub in s] *)
Fixpoint contains (s sub : str) : bool :=
  startswith s sub ||
  match s with
  | [] => false
  | _ :: s' => contains s' sub
  end.

(** [s.rfind(c)] as the text after the last [c], when there is one. *)
Fixpoint after_last (c : char) (s : str) : option str :=
  match s with
  | [] => None
  | x :: s' =>
      match after_last c s' with
      | Some t => Some t
      | None => if char_eqb x c then Some s' else None
      end
  end.

(** [s.split(c)] *)
Fixpoint split_on (c : char) (s : str) : list str :=
  match s with
  | [] => [[]]
  | x :: s' =>
      if char_eqb x c then [] :: split_on c s'
      else match split_on c s' with
           | w :: ws => (x :: w) :: ws
           | [] => [[x]]
           end
  end.

(** [s.split()]: the maximal runs of non-whitespace characters. *)
Fixpoint split_ws_from (cur : str) (s : str) : list str :=
  match s with
  | [] => match cur with [] => [] | _ => [rev cur] end
  | x :: s' =>
      if isspace x
      then match cur with
           | [] => split_ws_from [] s'
           | _ => rev cur :: split_ws_from [] s'
           end
      else split_ws_from (x :: cur) s'
  end.

Definition split_ws (s : str) : list str := split_ws_from [] s.

(** A surrogate code point: UTF-8 has no encoding for it. *)
Definition surrogate (c : char) : bool := ((55296 <=? c) && (c <=? 57343))%N.

(** [s.encode('utf-8')] goes through: the text a file opened with
    [encoding='utf-8'] takes. *)
Definition encodable (s : str) : bool := forallb (fun c => negb (surrogate c)) s.

(** [os.fsencode(s)] goes through: UTF-8 with the error handler
    [surrogateescape], which also takes the surrogates U+DC80 to U+DCFF,
    as one byte each. *)
Definition escaped (c : char) : bool := ((56448 <=? c) && (c <=? 56575))%N.

Definition fsencodable (s : str) : bool :=
  forallb (fun c => negb (surrogate c) || escaped c) s.

(** [len(os.fsencode(s))] *)
Definition fs_len (s : str) : nat :=
  fold_right
    (fun c n =>
       (if (c <? 128)%N then 1 else if (c <? 2048)%N then 2
        else if surrogate c then 1 else if (c <? 65536)%N then 3 else 4) + n)
    0 s.

(** The error handler of [sys.stdout]: [strict] under a UTF-8 locale,
    [surrogateescape] under the C locale. *)
Inductive errors := Strict | SurrogateEscape.

(** [print(s)] goes through on a standard output with that handler. *)
Definition printable (h : errors) (s : str) : bool :=
  match h with
  | Strict => encodable s
  | SurrogateEscape => fsencodable s
  end.

(** [sep.join(l)] *)
Fixpoint join (sep : str) (l : list str) : str :=
  match l with
  | [] => []
  | [x] => x
  | x :: l' => x ++ sep ++ join sep l'
  end.

(** [str(n)] for an integer. *)
Definition str_of_Z (n : Z) : str :=
  lit (NilZero.string_of_int (Z.to_int n)).

(* ================================================================== *)
(** * Regular expressions

    Every pattern of the script is a sequence of character classes, each
    under a greedy quantifier [{lo,hi}] (a literal is a class of one
    character under [{1,1}]; [(\n)?] is [\n{0,1}]).  [match_here] is the
    backtracking matcher of [re] on such a sequence: every quantifier
    first takes as many characters as it can and gives them back one by
    one while the rest of the pattern fails. *)
Module Re.

Record atom := Atom { cls : char -> bool; lo : nat; hi : option nat }.

Definition one (c : char) : atom := Atom (char_eqb c) 1 (Some 1).

(** Length of the longest prefix of [s] inside the class, at most [cap]. *)
Fixpoint run (p : char -> bool) (cap : option nat) (s : str) : nat :=
  match s with
  | [] => 0
  | c :: s' =>
      if p c then
        match cap with
        | Some 0 => 0
        | Some (S k) => S (run p (Some k) s')
        | None => S (run p None s')
        end
      else 0
  end.

(** The backtracking of one quantifier: try the count [k], then every
    smaller count down to 0, and keep the first one that is at least
    [least] and after which the rest of the pattern, [rest], matches. *)
Section Back.

Variable rest : nat -> option (list nat).
Variable least : nat.

Fixpoint back (k : nat) : option (list nat) :=
  match (if least <=? k then rest k else None) with
  | Some ls => Some (k :: ls)
  | None => match k with
            | 0 => None
            | S k' => back k'
            end
  end.

End Back.

(** The lengths matched by the atoms, for the first match the
    backtracking search finds at the start of [s]. *)
Fixpoint match_here (pat : list atom) (s : str) : option (list nat) :=
  match pat with
  | [] => Some []
  | a :: pat' =>
      back (fun k => match_here pat' (skipn k s)) (lo a) (run (cls a) (hi a) s)
  end.

(** A pattern with its capture groups: group [i] (from 1) covers the atoms
    [fst, snd) of its entry in [groups]. *)
Record regex := Regex { atoms : list atom; groups : list (nat * nat) }.

(** A replacement template: literal text and group references [\i] or
    [\g<i>]; group 0, which only the second form can name, is the whole
    match. *)
Inductive piece := Chars (s : str) | Group (i : nat).

Definition total (ls : list nat) : nat := fold_right Nat.add 0 ls.

Definition group_text (r : regex) (ls : list nat) (s : str) (i : nat) : str :=
  match i with
  | 0 => firstn (total ls) s
  | S j =>
      match nth_error (groups r) j with
      | Some (a, b) =>
          firstn (total (firstn (b - a) (skipn a ls))) (skipn (total (firstn a ls)) s)
      | None => []
      end
  end.

Fixpoint expand (r : regex) (t : list piece) (ls : list nat) (s : str) : str :=
  match t with
  | [] => []
  | Chars c :: t' => c ++ expand r t' ls s
  | Group i :: t' => group_text r ls s i ++ expand r t' ls s
  end.

(** [re.sub]: leftmost non-overlapping matches, scanning left to right.
    [skip] counts the characters of [s] still inside the previous match.
    After an empty match the scan copies one character and goes on (all
    quantifiers being greedy, a position whose first match is empty has
    no other match); an empty match is also tried at the end of the
    string.  None of the patterns of the script matches the empty
    string. *)
Fixpoint sub_from (r : regex) (t : list piece) (skip : nat) (s : str) : str :=
  match s with
  | [] =>
      match skip with
      | 0 => match match_here (atoms r) [] with
             | Some ls => expand r t ls []
             | None => []
             end
      | S _ => []
      end
  | c :: s' =>
      match skip with
      | S k => sub_from r t k s'
      | 0 =>
          match match_here (atoms r) s with
          | Some ls =>
              expand r t ls s ++
              match total ls with
              | 0 => c :: sub_from r t 0 s'
              | S k => sub_from r t k s'
              end
          | None => c :: sub_from r t 0 s'
          end
      end
  end.

Definition sub (r : regex) (t : list piece) (s : str) : str := sub_from r t 0 s.

(** The number of matches [re.subn] replaces: the same scan. *)
Fixpoint count_from (r : regex) (skip : nat) (s : str) : nat :=
  match s with
  | [] =>
      match skip with
      | 0 => match match_here (atoms r) [] with
             | Some _ => 1
             | None => 0
             end
      | S _ => 0
      end
  | c :: s' =>
      match skip with
      | S k => count_from r k s'
      | 0 =>
          match match_here (atoms r) s with
          | Some ls =>
              S (match total ls with
                 | 0 => count_from r 0 s'
                 | S k => count_from r k s'
                 end)
          | None => count_from r 0 s'
          end
      end
  end.

Definition count (r : regex) (s : str) : nat := count_from r 0 s.

End Re.

(* ================================================================== *)
(** * post_process_markdown *)

Definition is_nl (c : char) : bool := char_eqb c NL.
Definition not_nl (c : char) : bool := negb (char_eqb c NL).
Definition is_hash (c : char) : bool := char_eqb c 35%N.

(** Three or more newlines: [\n{3,}]. *)
Definition re_blank_lines : Re.regex :=
  Re.Regex [Re.Atom is_nl 3 None] [].

(** The image pattern: [!], [\[], group 1 = any run of characters other
    than the closing bracket, the closing bracket, an opening parenthesis,
    group 2 = one or more characters other than the closing parenthesis,
    the closing parenthesis. *)
Definition re_image : Re.regex :=
  Re.Regex
    [Re.one 33%N; Re.one 91%N;
     Re.Atom (fun c => negb (char_eqb c 93%N)) 0 None;
     Re.one 93%N; Re.one 40%N;
     Re.Atom (fun c => negb (char_eqb c 41%N)) 1 None;
     Re.one 41%N]
    [(2, 3); (5, 6)].

(** The heading pattern: group 1 = an optional newline, group 2 = one to
    six [#], then one or more [\s], then one or more characters other than
    a newline; group 3 = an optional newline.  It is not anchored at the
    start of a line. *)
Definition re_heading : Re.regex :=
  Re.Regex
    [Re.Atom is_nl 0 (Some 1);
     Re.Atom is_hash 1 (Some 6); Re.Atom isspace 1 None; Re.Atom not_nl 1 None;
     Re.Atom is_nl 0 (Some 1)]
    [(0, 1); (1, 4); (4, 5)].

Definition post_process_markdown (content : str) : str :=
  (* collapse runs of blank lines *)
  let content := Re.sub re_blank_lines [Re.Chars [NL; NL]] content in
  (* image link format *)
  let content :=
    Re.sub re_image
      [Re.Chars (lit "!["); Re.Group 1; Re.Chars (lit "]("); Re.Group 2;
       Re.Chars (lit ")")] content in
  (* blank lines around headings *)
  let content :=
    Re.sub re_heading [Re.Chars [NL; NL]; Re.Group 2; Re.Chars [NL; NL]] content in
  strip content.

(* ================================================================== *)
(** * The parsed page *)

(** The classes of bs4's string nodes: ordinary text, comments, CDATA
    sections, and the others (doctype, declarations, ...). *)
Inductive strkind := NavigableString | Comment | CData | OtherString.

(** A node of the tree: a tag with its attributes and children, or a
    string node holding its text (for a comment: the text between the
    comment delimiters, without them). *)
#[warnings="-register-all"]
Inductive node :=
| Tag (name : str) (attrs : list (str * str)) (children : list node)
| Str (kind : strkind) (text : str).

(** [tag.get(key)] *)
Fixpoint get (attrs : list (str * str)) (key : str) : option str :=
  match attrs with
  | [] => None
  | (k, v) :: attrs' => if str_eqb k key then Some v else get attrs' key
  end.

(** [tag[key] = value]: a present key keeps its place, a new one is
    appended. *)
Fixpoint set (attrs : list (str * str)) (key value : str) : list (str * str) :=
  match attrs with
  | [] => [(key, value)]
  | (k, v) :: attrs' =>
      if str_eqb k key then (k, value) :: attrs'
      else (k, v) :: set attrs' key value
  end.

(** Python truth of an optional string: [None] and the empty string are
    false. *)
Definition truthy (o : option str) : bool :=
  match o with
  | Some (_ :: _) => true
  | _ => false
  end.

(** The descendants of a node, in document order. *)
Fixpoint descendants (n : node) : list node :=
  match n with
  | Tag _ _ kids => flat_map (fun k => k :: descendants k) kids
  | Str _ _ => []
  end.

Definition has_name (names : list str) (n : node) : bool :=
  match n with
  | Tag name _ _ => existsb (str_eqb name) names
  | Str _ _ => false
  end.

(** [soup.find_all(names)] *)
Definition find_all (names : list str) (soup : node) : list node :=
  filter (has_name names) (descendants soup).

(** [soup.find(name)] *)
Definition find (name : str) (soup : node) : option node :=
  hd_error (find_all [name] soup).

(** [tag.text]: the text of the string nodes below the tag; comments and
    the other special strings are left out. *)
Fixpoint get_text (n : node) : str :=
  match n with
  | Tag _ _ kids => flat_map get_text kids
  | Str NavigableString t | Str CData t => t
  | Str _ _ => []
  end.

(** The selectors handed to [select_one]. *)
Inductive selector :=
| SelTag (name : str)
| SelAttr (key value : str)
| SelClass (c : str)
| SelId (i : str).

Definition selects (sel : selector) (n : node) : bool :=
  match n with
  | Str _ _ => false
  | Tag name attrs _ =>
      match sel with
      | SelTag t => str_eqb name t
      | SelAttr k v =>
          match get attrs k with Some x => str_eqb x v | None => false end
      | SelClass c =>
          match get attrs (lit "class") with
          | Some x => existsb (str_eqb c) (split_ws x)
          | None => false
          end
      | SelId i =>
          match get attrs (lit "id") with Some x => str_eqb x i | None => false end
      end
  end.

(** [soup.select_one(selector)] *)
Definition select_one (sel : selector) (soup : node) : option node :=
  hd_error (filter (selects sel) (descendants soup)).

(** The tags [clean_html] decomposes. *)
Definition noise_tags : list str :=
  [lit "script"; lit "style"; lit "meta"; lit "link"].

(** [for tag in soup(names): tag.decompose()]: every tag with one of the
    names leaves the tree, with all it contains. *)
Fixpoint decompose_all (names : list str) (n : node) : node :=
  match n with
  | Tag name attrs kids =>
      Tag name attrs
        ((fix go (ks : list node) : list node :=
            match ks with
            | [] => []
            | k :: ks' =>
                if has_name names k then go ks'
                else decompose_all names k :: go ks'
            end) kids)
  | Str _ _ => n
  end.

(** The filter of the second loop of [clean_html]: a string node (of any
    class: [isinstance(text, str)] holds for each) whose text contains the
    four characters that open a comment. *)
Definition comment_filter (n : node) : bool :=
  match n with
  | Str _ t => contains t (lit "<!--")
  | Tag _ _ _ => false
  end.

(** [for s in soup.find_all(text=f): s.extract()] *)
Fixpoint extract_all (f : node -> bool) (n : node) : node :=
  match n with
  | Tag name attrs kids =>
      Tag name attrs
        ((fix go (ks : list node) : list node :=
            match ks with
            | [] => []
            | k :: ks' =>
                if f k then go ks' else extract_all f k :: go ks'
            end) kids)
  | Str _ _ => n
  end.

Definition clean_html (soup : node) : node :=
  (* script and style tags *)
  let soup := decompose_all noise_tags soup in
  (* comments *)
  extract_all comment_filter soup.

(** The ordered selectors of the main content region. *)
Definition content_selectors : list selector :=
  [SelTag (lit "main"); SelTag (lit "article"); SelAttr (lit "role") (lit "main");
   SelClass (lit "content"); SelId (lit "content"); SelClass (lit "post");
   SelClass (lit "entry-content")].

(** The loop over the selectors: the first selector with a match wins. *)
Fixpoint first_selected (sels : list selector) (soup : node) : option node :=
  match sels with
  | [] => None
  | sel :: sels' =>
      match select_one sel soup with
      | Some n => Some n
      | None => first_selected sels' soup
      end
  end.

Definition main_content (soup : node) : node :=
  match first_selected content_selectors soup with
  | Some n => n
  | None =>
      match find (lit "body") soup with
      | Some b => b
      | None => soup
      end
  end.

(* ================================================================== *)
(** * Paths and the file system *)

(** A path is the list of its parts, as [pathlib] keeps them on POSIX: an
    absolute path starts with the part [/].  (A path that starts with
    exactly two slashes, which POSIX sets apart, is read as starting with
    one.) *)
Definition Path := list str.

Definition path_parts (s : str) : list str :=
  filter (fun p => negb (str_eqb p [] || str_eqb p (lit "."))) (split_on 47%N s).

(** [Path(s)] *)
Definition Path_of (s : str) : Path :=
  (if startswith s (lit "/") then [lit "/"] else []) ++ path_parts s.

(** [p / s] *)
Definition pjoin (p : Path) (s : str) : Path :=
  if startswith s (lit "/") then Path_of s else p ++ path_parts s.

(** [pathlib] keeps no empty part. *)
Definition proper (p : Path) : Prop := forall c, In c p -> c <> [].

(** [p.parent] *)
Definition parent (p : Path) : Path :=
  match p with
  | [x] => if str_eqb x (lit "/") then p else []
  | _ => removelast p
  end.

Fixpoint path_eqb (a b : Path) : bool :=
  match a, b with
  | [], [] => true
  | x :: a', y :: b' => str_eqb x y && path_eqb a' b'
  | _, _ => false
  end.

(** [str(p)] *)
Definition path_str (p : Path) : str :=
  match p with
  | [] => lit "."
  | x :: p' =>
      if str_eqb x (lit "/") then x ++ join (lit "/") p' else join (lit "/") p
  end.

(** What a file holds: the bytes written in mode [wb], or the text
    written in mode [w] with [encoding='utf-8']. *)
Inductive payload := Binary (b : bytes) | Utf8Text (s : str).

(** The world: the directories and the files (the latest write of a file
    first), each under the path the system resolves its name to, and the
    URLs requested so far, oldest first.  The working directory, the
    directories above it and the root are there without being listed. *)
Record World := mkWorld {
  dirs : list Path;
  files : list (Path * payload);
  requests : list str
}.

(** An HTTP response. *)
Record Response := mkResponse { status_code : Z; content : bytes }.

(** The exceptions the scripts can meet; [OSError] is the one of a name
    that is too long, which has no class of its own. *)
Inductive exn :=
| HTTPError (status : Z)
| RequestException
| FileNotFoundError
| FileExistsError
| IsADirectoryError
| NotADirectoryError
| OSError
| ValueError
| UnicodeEncodeError
| UnicodeDecodeError
| ReError.

(** What lies outside the program: the answer of the network to a GET of
    a URL ([None]: the request itself fails or times out), the clock,
    already formatted by [strftime], and the error handler of standard
    output.  The session sends the same User-Agent header with every
    request, so the answer is a function of the URL. *)
Record Env := mkEnv {
  net : str -> option Response;
  now : str;
  stdout_errors : errors
}.

(** ** How the system resolves a path

    A resolved path is relative to the working directory, with the
    parts [..] that lead above it in front, or starts with the root
    [/]; it has no other part [..] and no part [.]. *)

(** The directory above a resolved one. *)
Definition up (q : Path) : Path :=
  match rev q with
  | [] => [lit ".."]
  | x :: r =>
      if str_eqb x (lit "..") then q ++ [lit ".."]
      else if str_eqb x (lit "/") then q
      else rev r
  end.

(** One part further from the resolved directory [q]. *)
Definition step (q : Path) (c : str) : Path :=
  if str_eqb c (lit ".") then q
  else if str_eqb c (lit "..") then up q
  else q ++ [c].

(** Where a path leads, if every directory on the way is there. *)
Definition canon (p : Path) : Path := fold_left step p [].

(** The working directory, the directories above it, the root. *)
Definition anchor (q : Path) : bool :=
  forallb (str_eqb (lit "..")) q || path_eqb q [lit "/"].

Definition dir_in (ds : list Path) (p : Path) : bool := existsb (path_eqb p) ds.

(** A directory is at the resolved path [q]. *)
Definition exists_dir (ds : list Path) (q : Path) : bool := anchor q || dir_in ds q.

Fixpoint lookup_file (fs : list (Path * payload)) (p : Path) : option payload :=
  match fs with
  | [] => None
  | (q, d) :: fs' => if path_eqb q p then Some d else lookup_file fs' p
  end.

(** The walk along the parts of a path: it ends at the place the last
    part names, there or not, or at a part that is too long, or at a
    place on the way where no directory is. *)
Inductive walked := Target (q : Path) | TooLong | Missing (q : Path).

Fixpoint walk (ds : list Path) (q : Path) (parts : list str) : walked :=
  match parts with
  | [] => Target q
  | c :: rest =>
      if 255 <? fs_len c then TooLong
      else
        let q' := step q c in
        match rest with
        | [] => Target q'
        | _ :: _ => if exists_dir ds q' then walk ds q' rest else Missing q'
        end
  end.

(** What is wrong with a path name before any walk: it cannot be
    encoded, holds a NUL, is empty or is too long. *)
Definition name_error (s : str) : option exn :=
  if negb (fsencodable s) then Some UnicodeEncodeError
  else if char_in s 0%N then Some ValueError
  else
    match s with
    | [] => Some FileNotFoundError
    | _ :: _ => if 4095 <? fs_len s then Some OSError else None
    end.

(** The place the name [s], of parts [parts], resolves to. *)
Definition resolve_raw (ds : list Path) (s : str) (parts : list str) : option Path :=
  match name_error s with
  | Some _ => None
  | None =>
      match walk ds [] parts with
      | Target q => Some q
      | _ => None
      end
  end.

(** The exception of a call whose path does not resolve. *)
Definition resolve_error (w : World) (s : str) (parts : list str) : exn :=
  match name_error s with
  | Some e => e
  | None =>
      match walk (dirs w) [] parts with
      | Missing q =>
          match lookup_file (files w) q with
          | Some _ => NotADirectoryError
          | None => FileNotFoundError
          end
      | _ => OSError
      end
  end.

(** The same for a [Path], which the system gets as [str(p)]. *)
Definition resolve (ds : list Path) (p : Path) : option Path :=
  resolve_raw ds (path_str p) p.

(** [p.is_dir()] *)
Definition is_dir (w : World) (p : Path) : bool :=
  match resolve (dirs w) p with
  | Some q => exists_dir (dirs w) q
  | None => false
  end.

Definition read_file (w : World) (p : Path) : option payload :=
  match resolve (dirs w) p with
  | Some q => lookup_file (files w) q
  | None => None
  end.

Definition is_file (w : World) (p : Path) : bool :=
  match read_file w p with Some _ => true | None => false end.

(* ================================================================== *)
(** * The library functions the script calls *)

(** The options of [html2text.HTML2Text] the script sets. *)
Record HTML2Text := mkHTML2Text {
  ignore_links : bool;
  ignore_images : bool;
  ignore_emphasis : bool;
  body_width : Z;
  protect_links : bool;
  unicode_snob : bool
}.

Class Lib := {
  (** [urllib.parse.urljoin(base, url)]; [None] when it raises. *)
  urljoin : str -> str -> option str;
  (** [urllib.parse.urlparse(url).path] *)
  urlparse_path : str -> str;
  (** [hashlib.md5(s.encode()).hexdigest()]: 32 hexadecimal digits. *)
  md5_hexdigest : str -> str;
  md5_hexdigest_length : forall s, length (md5_hexdigest s) = 32;
  (** The built-in [hash] on a string. *)
  hash : str -> Z;
  (** [response.text] under the encoding [utf-8]. *)
  decode_utf8 : bytes -> str;
  (** [BeautifulSoup(text, 'html.parser')]: the root of the parsed page. *)
  BeautifulSoup : str -> node;
  (** [str(tag)] *)
  node_str : node -> str;
  (** [h.handle(html)] *)
  handle : HTML2Text -> str -> str;
  (** [str(e)]: the text of an exception.  It holds no surrogate: [repr]
      escapes those of the paths it quotes, and the URL of a request
      comes in it only where the script prints that URL as well. *)
  exn_str : exn -> str;
  exn_str_encodable : forall e, encodable (exn_str e) = true
}.

(** [os.path.basename] (POSIX): the text after the last slash. *)
Definition basename (p : str) : str :=
  match after_last 47%N p with
  | Some t => t
  | None => p
  end.

(** [os.path.splitext(p)[1]] (POSIX): the text from the last dot of the
    last component on, unless only dots come before it there. *)
Definition splitext_ext (p : str) : str :=
  let name := basename p in
  match after_last 46%N name with
  | Some e =>
      let stem := firstn (length name - S (length e)) name in
      if forallb (char_eqb 46%N) stem then [] else 46%N :: e
  | None => []
  end.

(* ================================================================== *)
(** * State and exceptions *)

(** A computation runs in a world and ends with a value or an exception,
    in the world it has reached by then. *)
Definition M (A : Type) : Type := World -> (exn + A) * World.

Definition ret {A} (x : A) : M A := fun w => (inr x, w).

Definition bind {A B} (m : M A) (k : A -> M B) : M B :=
  fun w =>
    match m w with
    | (inr x, w') => k x w'
    | (inl e, w') => (inl e, w')
    end.

Definition raise {A} (e : exn) : M A := fun w => (inl e, w).

(** A step that leaves the world alone. *)
Definition lift {A} (r : exn + A) : M A := fun w => (r, w).

(** [try: body except Exception as e: handler(e)] *)
Definition try_except {A} (body : M A) (handler : exn -> M A) : M A :=
  fun w =>
    match body w with
    | (inr x, w') => (inr x, w')
    | (inl e, w') => handler e w'
    end.

Declare Scope py_scope.
Delimit Scope py_scope with py.
Notation "x <- m ;; k" := (bind m (fun x => k))
  (at level 100, m at next level, right associativity) : py_scope.
Notation "m ;; k" := (bind m (fun _ => k))
  (at level 100, right associativity) : py_scope.
Open Scope py_scope.

(** A loop that rebuilds a list, element after element. *)
Section MapM.

Context {A B : Type}.
Variable f : A -> M B.

Fixpoint mapM (l : list A) : M (list B) :=
  match l with
  | [] => ret []
  | x :: l' =>
      y <- f x ;;
      l'' <- mapM l' ;;
      ret (y :: l'')
  end.

End MapM.

(** [p.mkdir(exist_ok=True)]: [os.mkdir], and when that finds something
    at the path, the check that it is a directory. *)
Definition mkdir_exist_ok (p : Path) : M unit :=
  fun w =>
    match resolve (dirs w) p with
    | None => (inl (resolve_error w (path_str p) p), w)
    | Some q =>
        if exists_dir (dirs w) q then (inr tt, w)
        else
          match lookup_file (files w) q with
          | Some _ => (inl FileExistsError, w)
          | None => (inr tt, mkWorld (q :: dirs w) (files w) (requests w))
          end
    end.

(** [with open(s, mode) as f: f.write(data)] for the modes [w] (with
    [encoding='utf-8']) and [wb], on the name [s] of parts [parts];
    [must_dir]: the name ends as the name of a directory does.  The file
    is opened, which creates or empties it, before the text is encoded. *)
Definition write_at (s : str) (parts : list str) (must_dir : bool) (data : payload)
    : M unit :=
  fun w =>
    match resolve_raw (dirs w) s parts with
    | None => (inl (resolve_error w s parts), w)
    | Some q =>
        if exists_dir (dirs w) q || must_dir then (inl IsADirectoryError, w)
        else
          match data with
          | Binary _ =>
              (inr tt, mkWorld (dirs w) ((q, data) :: files w) (requests w))
          | Utf8Text text =>
              if encodable text
              then (inr tt, mkWorld (dirs w) ((q, data) :: files w) (requests w))
              else (inl UnicodeEncodeError,
                    mkWorld (dirs w) ((q, Utf8Text []) :: files w) (requests w))
          end
    end.

(** The same on a [Path]. *)
Definition write_file (p : Path) (data : payload) : M unit :=
  write_at (path_str p) p false data.

(** [print(s)]: the text goes to standard output, which the world does
    not keep, unless it cannot be encoded. *)
Definition print (h : errors) (s : str) : M unit :=
  if printable h s then ret tt else raise UnicodeEncodeError.

(** [session.get(url, timeout=...)] *)
Definition session_get (env : Env) (u : str) : M Response :=
  fun w =>
    let w' := mkWorld (dirs w) (files w) (requests w ++ [u]) in
    match net env u with
    | Some r => (inr r, w')
    | None => (inl RequestException, w')
    end.

(** [response.raise_for_status()] *)
Definition raise_for_status (r : Response) : M unit :=
  if ((400 <=? status_code r) && (status_code r <? 600))%Z
  then raise (HTTPError (status_code r))
  else ret tt.

(* ================================================================== *)
(** * class WebpageToMarkdown *)

Record WebpageToMarkdown := mkConverter {
  url : str;
  output_dir : Path;
  images_dir : Path;
  filename : option str;
  h : HTML2Text
}.

(** The characters a title may not keep in a file name. *)
Definition unsafe_chars : str :=
  [60; 62; 58; 34; 47; 92; 124; 63; 42]%N.

Definition re_unsafe : Re.regex :=
  Re.Regex [Re.Atom (char_in unsafe_chars) 1 (Some 1)] [].

(** The messages of the script, without what is put into them. *)
Module Msg.

(** "download of the image failed ", before the URL *)
Definition image_failed : str := [19979; 36733; 22270; 29255; 22833; 36133; 32]%N.
(** "fetching the page: " *)
Definition fetching : str := [27491; 22312; 33719; 21462; 32593; 39029; 58; 32]%N.
(** "downloading the images..." *)
Definition downloading : str := [27491; 22312; 19979; 36733; 22270; 29255; 46; 46; 46]%N.
(** "converting to Markdown..." *)
Definition converting : str :=
  [27491; 22312; 36716; 25442; 20026]%N ++ lit "Markdown...".
(** "conversion done! the file is saved at: " *)
Definition saved : str :=
  [36716; 25442; 23436; 25104; 65281; 25991; 20214; 20445; 23384; 22312; 58; 32]%N.
(** "the images are saved at: " *)
Definition images_at : str := [22270; 29255; 20445; 23384; 22312; 58; 32]%N.
(** "conversion failed: " *)
Definition failed : str := [36716; 25442; 22833; 36133; 58; 32]%N.
(** "error: " *)
Definition error : str := [38169; 35823; 58; 32]%N.

End Msg.

(** The command line of [main], once [parse_args] has accepted it. *)
Record Args := mkArgs {
  arg_url : str;
  arg_output : str;
  arg_filename : option str;
  arg_no_images : bool
}.

Section Converter.

Context {L : Lib}.
Variable env : Env.

(** [__init__] *)
Definition init (u : str) (out : str) (fname : option str) : M WebpageToMarkdown :=
  let output_dir := Path_of out in
  let images_dir := pjoin output_dir (lit "images") in
  (* create the output directories *)
  mkdir_exist_ok output_dir ;;
  mkdir_exist_ok images_dir ;;
  (* configure html2text *)
  ret (mkConverter u output_dir images_dir fname
         (mkHTML2Text false false false 0 true true)).

(** The file name [download_image] makes up from the URL it fetched,
    once [img_url.encode()] has gone through. *)
Definition generated_name (img_url : str) : str :=
  let url_hash := firstn 8 (md5_hexdigest img_url) in
  let ext := match splitext_ext (urlparse_path img_url) with
             | [] => lit ".jpg"
             | e => e
             end in
  lit "img_" ++ url_hash ++ ext.

Definition download_image (self : WebpageToMarkdown) (img_url : str)
    (img_name : option str) : M str :=
  match urljoin (url self) img_url with
  | None =>
      (* urljoin raised: [img_url] is still the argument *)
      print (stdout_errors env)
        (Msg.image_failed ++ img_url ++ lit ": " ++ exn_str ValueError) ;;
      ret img_url
  | Some img_url =>
      try_except
        ((* fetch the image *)
         response <- session_get env img_url ;;
         raise_for_status response ;;
         (* make up a file name *)
         img_name <-
           match img_name with
           | Some (c :: n) => ret (c :: n)
           | _ =>
               (* [img_url.encode()] is strict *)
               if encodable img_url then ret (generated_name img_url)
               else raise UnicodeEncodeError
           end ;;
         (* save the image *)
         let img_path := pjoin (images_dir self) img_name in
         write_file img_path (Binary (content response)) ;;
         (* the relative path *)
         ret (lit "images/" ++ img_name))
        (fun e =>
           print (stdout_errors env)
             (Msg.image_failed ++ img_url ++ lit ": " ++ exn_str e) ;;
           ret img_url)
  end.

(** The body of the loop of [process_images], on the attributes of one
    [img] tag. *)
Definition process_image (self : WebpageToMarkdown) (attrs : list (str * str))
    : M (list (str * str)) :=
  match get attrs (lit "src") with
  | Some (c :: s) =>
      let src := c :: s in
      (* download the image *)
      local_path <- download_image self src None ;;
      (* update the path *)
      let attrs := set attrs (lit "src") local_path in
      (* keep an alt text when there is one *)
      let attrs :=
        if truthy (get attrs (lit "alt")) then attrs
        else set attrs (lit "alt") (basename local_path) in
      ret attrs
  | _ => ret attrs
  end.

(** One node under the loop of [process_images]: the loop visits the
    [img] tags in document order and only changes their attributes. *)
Fixpoint process_node (self : WebpageToMarkdown) (n : node) : M node :=
  match n with
  | Tag name attrs kids =>
      attrs <- (if str_eqb name (lit "img") then process_image self attrs
                else ret attrs) ;;
      kids <- mapM (process_node self) kids ;;
      ret (Tag name attrs kids)
  | Str _ _ => ret n
  end.

(** [process_images]: [soup.find_all('img')] ranges over the descendants
    of [soup]. *)
Definition process_images (self : WebpageToMarkdown) (soup : node) : M node :=
  match soup with
  | Tag name attrs kids =>
      kids <- mapM (process_node self) kids ;;
      ret (Tag name attrs kids)
  | Str _ _ => ret soup
  end.

(** The title of the page, read before the page is cleaned. *)
Definition title_text (soup : node) : str :=
  match find (lit "title") soup with
  | Some title => strip (get_text title)
  | None => lit "webpage"
  end.

(** The front matter. *)
Definition metadata (self : WebpageToMarkdown) (title : str) : str :=
  lit "---" ++ [NL] ++
  lit "title: " ++ title ++ [NL] ++
  lit "source: " ++ url self ++ [NL] ++
  lit "date: " ++ now env ++ [NL] ++
  lit "---" ++ [NL] ++ [NL].

(** The base name of the output file. *)
Definition safe_title (self : WebpageToMarkdown) (title : str) : str :=
  match filename self with
  | Some (c :: n) => c :: n
  | _ =>
      let safe := firstn 50 (Re.sub re_unsafe [Re.Chars (lit "_")] title) in
      match strip safe with
      | [] => lit "webpage_" ++ str_of_Z (hash (url self) mod 10000)
      | _ => safe
      end
  end.

Definition output_file (self : WebpageToMarkdown) (title : str) : Path :=
  pjoin (output_dir self) (safe_title self title ++ lit ".md").

Definition convert_to_markdown (self : WebpageToMarkdown) : M Path :=
  print (stdout_errors env) (Msg.fetching ++ url self) ;;
  try_except
    ((* fetch the page *)
     response <- session_get env (url self) ;;
     raise_for_status response ;;
     (* force the encoding utf-8, parse *)
     let soup := BeautifulSoup (decode_utf8 (content response)) in
     let title := title_text soup in
     let soup := clean_html soup in
     (* the images *)
     print (stdout_errors env) Msg.downloading ;;
     soup <- process_images self soup ;;
     (* the main content, as Markdown *)
     print (stdout_errors env) Msg.converting ;;
     let markdown_content := handle (h self) (node_str (main_content soup)) in
     let markdown_content := post_process_markdown markdown_content in
     let final_content := metadata self title ++ markdown_content in
     let output_file := output_file self title in
     write_file output_file (Utf8Text final_content) ;;
     print (stdout_errors env) (Msg.saved ++ path_str output_file) ;;
     print (stdout_errors env) (Msg.images_at ++ path_str (images_dir self)) ;;
     ret output_file)
    (fun e =>
       print (stdout_errors env) (Msg.failed ++ exn_str e) ;;
       raise e).

Definition set_ignore_images (self : WebpageToMarkdown) (b : bool) : WebpageToMarkdown :=
  mkConverter (url self) (output_dir self) (images_dir self) (filename self)
    (mkHTML2Text (ignore_links (h self)) b (ignore_emphasis (h self))
       (body_width (h self)) (protect_links (h self)) (unicode_snob (h self))).

(** [main], from the parsed command line on: the exit status of the
    process, 1 after [sys.exit(1)] and after an exception nothing
    catches.  ([parse_args] itself ends the process, with status 2, on a
    command line it does not accept, and with status 0 after [--help].) *)
Definition main (args : Args) : World -> Z * World :=
  fun w =>
    let u := if startswith (arg_url args) (lit "http://")
                || startswith (arg_url args) (lit "https://")
             then arg_url args
             else lit "https://" ++ arg_url args in
    match try_except
            (converter <- init u (arg_output args) (arg_filename args) ;;
             let converter :=
               if arg_no_images args then set_ignore_images converter true
               else converter in
             convert_to_markdown converter)
            (fun e =>
               print (stdout_errors env) (Msg.error ++ exn_str e) ;;
               raise e) w with
    | (inr _, w') => (0%Z, w')
    | (inl _, w') => (1%Z, w')
    end.

End Converter.

(* ================================================================== *)
(** * An example page

    The page [https://example.com/page], with an article holding a
    heading and three images (one served, one answered with 404, one
    without a source), a comment, a script and an image in the footer. *)
Module Example.

Definition page_url : str := lit "https://example.com/page".

Definition html : str :=
  lit "<html><head><title>Hi</title><script>x</script></head><body><!-- note --><article><h1>Hello</h1><img src=/a.png><img src=/b.png><img alt=x></article><footer><img src=/c.png></footer></body></html>".

(** The tree [html.parser] builds for [html]. *)
Definition doc : node :=
  Tag (lit "[document]") []
    [Tag (lit "html") []
       [Tag (lit "head") []
          [Tag (lit "title") [] [Str NavigableString (lit "Hi")];
           Tag (lit "script") [] [Str OtherString (lit "x")]];
        Tag (lit "body") []
          [Str Comment (lit " note ");
           Tag (lit "article") []
             [Tag (lit "h1") [] [Str NavigableString (lit "Hello")];
              Tag (lit "img") [(lit "src", lit "/a.png")] [];
              Tag (lit "img") [(lit "src", lit "/b.png")] [];
              Tag (lit "img") [(lit "alt", lit "x")] []];
           Tag (lit "footer") []
             [Tag (lit "img") [(lit "src", lit "/c.png")] []]]]].

Definition png : bytes := [137; 80; 78; 71]%N.

(** The server: the page and two of its images are served, [/b.png] is
    answered with 404, nothing else is reachable. *)
Definition env : Env :=
  mkEnv
    (fun u =>
       if str_eqb u page_url then Some (mkResponse 200 html)
       else if str_eqb u (lit "https://example.com/a.png") then Some (mkResponse 200 png)
       else if str_eqb u (lit "https://example.com/b.png") then Some (mkResponse 404 [])
       else if str_eqb u (lit "https://example.com/c.png") then Some (mkResponse 200 png)
       else None)
    (lit "2024-01-01 00:00:00") Strict.

(** The same server with the page itself gone. *)
Definition env404 : Env :=
  mkEnv (fun _ => Some (mkResponse 404 [])) (lit "2024-01-01 00:00:00") Strict.

(** MD5 of the three image URLs; elsewhere a placeholder digest. *)
Definition md5 (s : str) : str :=
  if str_eqb s (lit "https://example.com/a.png") then lit "8c11d92f07c76baf29e49afd2301deb2"
  else if str_eqb s (lit "https://example.com/b.png") then lit "85efc80e9f4d19b93a614ce5927f9e7a"
  else if str_eqb s (lit "https://example.com/c.png") then lit "ca9f6b8afcf605cbe5165e8acf8c9c8c"
  else lit "00000000000000000000000000000000".

Lemma md5_length : forall s, List.length (md5 s) = 32.
Proof.
  intro s. unfold md5.
  repeat (destruct (str_eqb s _); [reflexivity|]).
  reflexivity.
Qed.

(** A serializer for [str(tag)]. *)
Fixpoint serialize (n : node) : str :=
  match n with
  | Str Comment t => lit "<!--" ++ t ++ lit "-->"
  | Str _ t => t
  | Tag name attrs kids =>
      lit "<" ++ name ++
      flat_map (fun kv => lit " " ++ fst kv ++ lit "='" ++ snd kv ++ lit "'") attrs ++
      match kids with
      | [] => if str_eqb name (lit "img") then lit "/>" else lit "></" ++ name ++ lit ">"
      | _ => lit ">" ++ flat_map serialize kids ++ lit "</" ++ name ++ lit ">"
      end
  end.

(** The library on the example: [urljoin] and [urlparse] on the URLs of
    the page (all on the host [example.com]; an empty reference is the
    base itself), the digests above, ASCII
    text, the parse of [html]; the renderer is a stand-in that keeps the
    markup as it is, and every exception reads [error]. *)
Definition lib : Lib := {|
  urljoin := fun base u =>
    match u with
    | [] => Some base
    | _ => if startswith u (lit "/") then Some (lit "https://example.com" ++ u)
           else Some u
    end;
  urlparse_path := fun u =>
    if startswith u (lit "https://example.com") then skipn 19 u else u;
  md5_hexdigest := md5;
  md5_hexdigest_length := md5_length;
  hash := fun _ => 1234567%Z;
  decode_utf8 := fun b => b;
  BeautifulSoup := fun text =>
    if str_eqb text html then doc
    else Tag (lit "[document]") [] [Str NavigableString text];
  node_str := serialize;
  handle := fun _ markup => markup;
  exn_str := fun _ => lit "error";
  exn_str_encodable := fun _ => eq_refl
|}.

(** The working directory, empty. *)
Definition world : World := mkWorld [[]] [] [].

Definition args (no_images : bool) : Args :=
  mkArgs (lit "example.com/page") (lit "out") None no_images.

(** The converter [WebpageToMarkdown(page_url, 'out')] and the world its
    construction leaves. *)
Definition converter : WebpageToMarkdown :=
  mkConverter page_url [lit "out"] [lit "out"; lit "images"] None
    (mkHTML2Text false false false 0 true true).

Definition world_ready : World :=
  mkWorld [[lit "out"; lit "images"]; [lit "out"]; []] [] [].

(** The same converter with the explicit file name [notes]. *)
Definition converter_named : WebpageToMarkdown :=
  mkConverter page_url [lit "out"] [lit "out"; lit "images"] (Some (lit "notes"))
    (mkHTML2Text false false false 0 true true).

(** A page whose only text spells the opening of a comment, as
    [BeautifulSoup] parses [<p>a &lt;!-- b</p>]. *)
Definition doc_text : node :=
  Tag (lit "[document]") []
    [Tag (lit "p") [] [Str NavigableString (lit "a <!-- b")]].

End Example.

(* ================================================================== *)
(** * Outcomes, stated without the monad *)

(** A status [raise_for_status] raises on. *)
Definition error_status (r : Response) : bool :=
  ((400 <=? status_code r) && (status_code r <? 600))%Z.

(** The exception a GET of [u] followed by [raise_for_status] ends with,
    if any. *)
Definition fetch_failure (env : Env) (u : str) : option exn :=
  match net env u with
  | None => Some RequestException
  | Some r => if error_status r then Some (HTTPError (status_code r)) else None
  end.

(** [open(p, 'w')] goes through among the directories [ds]: the name
    is one the system takes, every directory on the way is there, and
    no directory is at the place itself. *)
Definition can_write (ds : list Path) (p : Path) : bool :=
  match resolve ds p with
  | Some q => negb (exists_dir ds q)
  | None => false
  end.

(** Nothing is at the place the path [p] leads to. *)
Definition vacant (w : World) (p : Path) : bool :=
  negb (exists_dir (dirs w) (canon p)) &&
  match lookup_file (files w) (canon p) with Some _ => false | None => true end.

(** [os.mkdir(p)] goes through: the name is one the system takes, every
    directory on the way is there, and nothing is at the place. *)
Definition can_create (w : World) (p : Path) : bool :=
  match resolve (dirs w) p with
  | Some _ => vacant w p
  | None => false
  end.

(** What [write] takes: any bytes, and a text that UTF-8 encodes. *)
Definition payload_ok (d : payload) : bool :=
  match d with
  | Binary _ => true
  | Utf8Text s => encodable s
  end.

(** The world after a request. *)
Definition requested (w : World) (u : str) : World :=
  mkWorld (dirs w) (files w) (requests w ++ [u]).

(** The world after a write. *)
Definition written (w : World) (p : Path) (d : payload) : World :=
  mkWorld (dirs w) ((canon p, d) :: files w) (requests w).

(** A later world of the same run: the same directories, more requests,
    more writes. *)
Definition extends (w w' : World) : Prop :=
  dirs w' = dirs w /\
  (exists l, requests w' = requests w ++ l) /\
  (exists l, files w' = l ++ files w).

Section Outcomes.

Context {L : Lib}.
Variable env : Env.
Variable self : WebpageToMarkdown.

(** The image at the absolute URL [u] is fetched and saved: it is
    served, the URL can be encoded for its digest, and the file can be
    opened. *)
Definition downloaded (ds : list Path) (u : str) : bool :=
  match fetch_failure env u with
  | Some _ => false
  | None => encodable u && can_write ds (pjoin (images_dir self) (generated_name u))
  end.

(** [download_image] on [src] does not fail, or it can print that it
    did. *)
Definition image_reported (ds : list Path) (src : str) : bool :=
  match urljoin (url self) src with
  | None => printable (stdout_errors env) src
  | Some u => downloaded ds u || printable (stdout_errors env) u
  end.

(** What [download_image] returns for the source [src], when it
    returns. *)
Definition local_path (ds : list Path) (src : str) : str :=
  match urljoin (url self) src with
  | None => src
  | Some u => if downloaded ds u then lit "images/" ++ generated_name u else u
  end.

(** What the loop of [process_images] leaves of the attributes of one
    [img] tag. *)
Definition rewrite_img (ds : list Path) (attrs : list (str * str)) : list (str * str) :=
  match get attrs (lit "src") with
  | Some (c :: s) =>
      let attrs' := set attrs (lit "src") (local_path ds (c :: s)) in
      if truthy (get attrs' (lit "alt")) then attrs'
      else set attrs' (lit "alt") (basename (local_path ds (c :: s)))
  | _ => attrs
  end.

(** What one call of [download_image] on [src], started among the
    directories [ds], has done once the world is [w']: the request is
    made, and if the download went through the file is there and the
    bytes of the response were written to it. *)
Definition image_done (ds : list Path) (w' : World) (src : str) : Prop :=
  forall u, urljoin (url self) src = Some u ->
    In u (requests w') /\
    (downloaded ds u = true ->
     is_file w' (pjoin (images_dir self) (generated_name u)) = true /\
     exists r, net env u = Some r /\
       In (canon (pjoin (images_dir self) (generated_name u)), Binary (content r))
          (files w')).

(** The same for an [img] tag with the attributes [attrs]. *)
Definition img_done (ds : list Path) (w' : World) (attrs : list (str * str)) : Prop :=
  forall c s, get attrs (lit "src") = Some (c :: s) -> image_done ds w' (c :: s).

(** The loop of [process_images] gets past the tag with the attributes
    [attrs]. *)
Definition img_reported (ds : list Path) (attrs : list (str * str)) : bool :=
  match get attrs (lit "src") with
  | Some (c :: s) => image_reported ds (c :: s)
  | _ => true
  end.

(** The same for every [img] tag of a list of nodes. *)
Definition nodes_reported (ds : list Path) (l : list node) : bool :=
  forallb
    (fun n =>
       match n with
       | Tag name attrs _ =>
           if str_eqb name (lit "img") then img_reported ds attrs else true
       | Str _ _ => true
       end) l.

(** The loop of [process_images] gets to its end on [soup]. *)
Definition images_reported (ds : list Path) (soup : node) : bool :=
  nodes_reported ds (descendants soup).

End Outcomes.

(** A change of the attributes of every [img] tag at or below a node. *)
Fixpoint map_img (f : list (str * str) -> list (str * str)) (n : node) : node :=
  match n with
  | Tag name attrs kids =>
      Tag name (if str_eqb name (lit "img") then f attrs else attrs)
        (map (map_img f) kids)
  | Str _ _ => n
  end.

(** The same below the root only, as [find_all] sees the tree. *)
Definition map_img_below (f : list (str * str) -> list (str * str)) (soup : node) : node :=
  match soup with
  | Tag name attrs kids => Tag name attrs (map (map_img f) kids)
  | Str _ _ => soup
  end.

(** The attributes of the [img] tags of [soup.find_all('img')]. *)
Definition img_attrs (soup : node) : list (list (str * str)) :=
  flat_map (fun n => match n with Tag _ attrs _ => [attrs] | Str _ _ => [] end)
    (find_all [lit "img"] soup).

(** The title replacement in the words of the specification: each of the
    nine characters becomes an underscore. *)
Definition replace_unsafe_spec (title : str) : str :=
  map (fun c => if char_in unsafe_chars c then 95%N else c) title.

(** The first step of [post_process_markdown]. *)
Definition collapse (s : str) : str := Re.sub re_blank_lines [Re.Chars [NL; NL]] s.

(** The number of newlines a string starts with. *)
Definition nlrun (s : str) : nat := Re.run is_nl None s.

(** No three newlines in a row anywhere in the string. *)
Definition no3 (s : str) : Prop := forall n, nlrun (skipn n s) <= 2.

(** Strings without the character [#]. *)
Definition hash_free (s : str) : Prop := forall x, In x s -> is_hash x = false.

(** A blank string: nothing is left of it once stripped. *)
Definition blank (s : str) : bool :=
  match strip s with
  | [] => true
  | _ :: _ => false
  end.

Section Page.

Context {L : Lib}.
Variable env : Env.
Variable self : WebpageToMarkdown.

(** The tree parsed from a response. *)
Definition page_of (r : Response) : node :=
  BeautifulSoup (decode_utf8 (content r)).

(** The tree once cleaned and once its images are processed among the
    directories [ds]. *)
Definition processed (ds : list Path) (r : Response) : node :=
  map_img_below (rewrite_img env self ds) (clean_html (page_of r)).

(** The text of the Markdown file: the front matter, then the main
    content of the processed tree, rendered and post-processed. *)
Definition markdown_text (ds : list Path) (r : Response) : str :=
  metadata env self (title_text (page_of r)) ++
  post_process_markdown (handle (h self) (node_str (main_content (processed ds r)))).

(** The world of a conversion of the page [r], started in [w], once the
    loop over the images has ended. *)
Definition after_images (w : World) (r : Response) : World :=
  snd (process_images env self (clean_html (page_of r)) (requested w (url self))).

(** The two messages that end a conversion can be printed. *)
Definition saved_reported (r : Response) : bool :=
  printable (stdout_errors env) (path_str (output_file self (title_text (page_of r))))
  && printable (stdout_errors env) (path_str (images_dir self)).

(** What a loop over the nodes [l] gives from the world [w]: the value
    [v] when every failure on the way can be printed. *)
Definition loop_result {A : Type} (w : World) (l : list node) (v : A) : exn + A :=
  if nodes_reported env self (dirs w) l then inr v else inl UnicodeEncodeError.

(** What [process_node] does on [n] from the world [w]. *)
Definition node_processed (n : node) : Prop :=
  forall w, exists w',
    process_node env self n w
    = (loop_result w (n :: descendants n) (map_img (rewrite_img env self (dirs w)) n),
       w') /\
    extends w w' /\
    (nodes_reported env self (dirs w) (n :: descendants n) = true ->
     forall name attrs kids,
       In (Tag name attrs kids) (n :: descendants n) ->
       str_eqb name (lit "img") = true -> img_done env self (dirs w) w' attrs).

End Page.

Unset Implicit Arguments.

(* ================================================================== *)
(** * The batch loop of [Scripts/url2md.py] *)

Section Batch.

Context {L : Lib}.
Variable env : Env.

(** The body of the loop under [if __name__ == "__main__"]: a converter
    is built and dropped, a second one is built with the output name as
    its file name, and the page is converted. *)
Definition convert_pair (item : str * str) : M Path :=
  let (u, output) := item in
  init u output None ;;
  converter <- init u output (Some output) ;;
  convert_to_markdown env converter.

(** The loop: nothing catches an exception. *)
Fixpoint batch (pairs : list (str * str)) : M unit :=
  match pairs with
  | [] => ret tt
  | item :: pairs' =>
      convert_pair item ;;
      batch pairs'
  end.

(** [for url, output in zip(url_list, output_lst)] *)
Definition run_batch (url_list output_lst : list str) : M unit :=
  batch (combine url_list output_lst).

(** The absolute URLs [process_images] asks for, in the order of
    [soup.find_all('img')]: one for each [img] tag whose source is not
    empty and can be joined to the page URL. *)
Definition image_urls (self : WebpageToMarkdown) (soup : node) : list str :=
  flat_map
    (fun n =>
       match n with
       | Tag name attrs _ =>
           if str_eqb name (lit "img") then
             match get attrs (lit "src") with
             | Some (c :: s) =>
                 match urljoin (url self) (c :: s) with
                 | Some u => [u]
                 | None => []
                 end
             | _ => []
             end
           else []
       | Str _ _ => []
       end)
    (descendants soup).

End Batch.

(* ================================================================== *)
(** * [url2md_test.py]

    The same class, but for the loop of [process_images], which also
    looks at the attributes of lazily loaded images. *)
Module Url2mdTest.

Section Converter.

Context {L : Lib}.
Variable env : Env.

(** [img.get('src') or img.get('data-src') or img.get('data-actualsrc')] *)
Definition candidate_src (attrs : list (str * str)) : option str :=
  match get attrs (lit "src") with
  | Some (c :: s) => Some (c :: s)
  | _ =>
      match get attrs (lit "data-src") with
      | Some (c :: s) => Some (c :: s)
      | _ => get attrs (lit "data-actualsrc")
      end
  end.

(** The body of the loop of [process_images]. *)
Definition process_image (self : WebpageToMarkdown) (attrs : list (str * str))
    : M (list (str * str)) :=
  (* several attributes may hold the image *)
  match candidate_src attrs with
  | Some (c :: s) =>
      let src := c :: s in
      local_path <- download_image env self src None ;;
      let attrs := set attrs (lit "src") local_path in
      let attrs :=
        if truthy (get attrs (lit "alt")) then attrs
        else set attrs (lit "alt") (basename local_path) in
      ret attrs
  | _ => ret attrs
  end.

Fixpoint process_node (self : WebpageToMarkdown) (n : node) : M node :=
  match n with
  | Tag name attrs kids =>
      attrs <- (if str_eqb name (lit "img") then process_image self attrs
                else ret attrs) ;;
      kids <- mapM (process_node self) kids ;;
      ret (Tag name attrs kids)
  | Str _ _ => ret n
  end.

Definition process_images (self : WebpageToMarkdown) (soup : node) : M node :=
  match soup with
  | Tag name attrs kids =>
      kids <- mapM (process_node self) kids ;;
      ret (Tag name attrs kids)
  | Str _ _ => ret soup
  end.

Definition convert_to_markdown (self : WebpageToMarkdown) : M Path :=
  print (stdout_errors env) (Msg.fetching ++ url self) ;;
  try_except
    (response <- session_get env (url self) ;;
     raise_for_status response ;;
     let soup := BeautifulSoup (decode_utf8 (content response)) in
     let title := title_text soup in
     let soup := clean_html soup in
     print (stdout_errors env) Msg.downloading ;;
     soup <- process_images self soup ;;
     print (stdout_errors env) Msg.converting ;;
     let markdown_content := handle (h self) (node_str (main_content soup)) in
     let markdown_content := post_process_markdown markdown_content in
     let final_content := metadata env self title ++ markdown_content in
     let output_file := output_file self title in
     write_file output_file (Utf8Text final_content) ;;
     print (stdout_errors env) (Msg.saved ++ path_str output_file) ;;
     print (stdout_errors env) (Msg.images_at ++ path_str (images_dir self)) ;;
     ret output_file)
    (fun e =>
       print (stdout_errors env) (Msg.failed ++ exn_str e) ;;
       raise e).

End Converter.

End Url2mdTest.

(* ================================================================== *)
(** * [Scripts/mdEdit.py] *)
Module MdEdit.

(** A rule: the two strings of the tuple, pattern and replacement, and
    what [re] makes of them, a pattern of the engine above and a
    template (the engine has no parser: a rule comes with both).  The
    flags [MULTILINE] and [DOTALL] bear on the anchors and on the dot,
    which the patterns of the engine do not have. *)
Record rule := mkRule {
  pattern : str;
  replacement : str;
  compiled : Re.regex;
  template : list Re.piece
}.

(** The messages of the script, without what is put into them. *)
Module Msg.

(** "error: the input file '" and "' does not exist." *)
Definition missing_1 : str :=
  [38169; 35823; 65306; 36755; 20837; 25991; 20214; 32; 39]%N.
Definition missing_2 : str := [39; 32; 19981; 23384; 22312; 12290]%N.
(** "the file was read: " *)
Definition read : str := [25104; 21151; 35835; 21462; 25991; 20214; 65306]%N.
(** "replaced '", "' -> '", "', ", " times." *)
Definition replaced_1 : str := [24050; 26367; 25442; 32; 39]%N.
Definition replaced_2 : str := [39; 32; 45; 62; 32; 39]%N.
Definition replaced_3 : str := [39; 65292; 20849; 32]%N.
Definition replaced_4 : str := [32; 22788; 12290]%N.
(** "the changed text was saved to: " *)
Definition written : str :=
  [20462; 25913; 21518; 30340; 20869; 23481; 24050; 20445; 23384; 21040; 65306]%N.
(** "an error came up with the file: " *)
Definition failed : str :=
  [22788; 29702; 25991; 20214; 26102; 21457; 29983; 38169; 35823; 65306]%N.

End Msg.

(** Text read in universal newlines mode: a carriage return, with the
    newline that follows it if there is one, becomes a newline. *)
Fixpoint universal_newlines (s : str) : str :=
  match s with
  | [] => []
  | 13%N :: s' =>
      NL :: match s' with
            | 10%N :: s'' => universal_newlines s''
            | _ => universal_newlines s'
            end
  | c :: s' => c :: universal_newlines s'
  end.

(** A group reference of a replacement must name a group of the
    pattern, or group 0. *)
Definition template_ok (r : Re.regex) (t : list Re.piece) : bool :=
  forallb
    (fun p =>
       match p with
       | Re.Chars _ => true
       | Re.Group i => i <=? List.length (Re.groups r)
       end) t.

(** [re.subn(pattern, replacement, content, flags)]: the template is
    checked before the search. *)
Definition subn (r : rule) (content : str) : exn + (str * nat) :=
  if template_ok (compiled r) (template r)
  then inr (Re.sub (compiled r) (template r) content, Re.count (compiled r) content)
  else inl ReError.

(** The message after a rule that applied. *)
Definition replaced (r : rule) (count : nat) : str :=
  Msg.replaced_1 ++ pattern r ++ Msg.replaced_2 ++ replacement r ++ Msg.replaced_3
  ++ str_of_Z (Z.of_nat count) ++ Msg.replaced_4.

(** The parts of a file name as the system reads it: empty parts go, a
    part [.] stays. *)
Definition raw_parts (s : str) : list str :=
  (if startswith s (lit "/") then [lit "/"] else []) ++
  filter (fun p => negb (str_eqb p [])) (split_on 47%N s).

(** The name ends with a slash, as only the name of a directory can. *)
Definition wants_dir (s : str) : bool :=
  match rev s with
  | c :: _ => char_eqb c 47%N
  | [] => false
  end.

(** The place the name [s] leads to. *)
Definition place (s : str) : Path := canon (raw_parts s).

(** [open(s, 'w')] goes through: the name resolves, to a place where no
    directory is, and does not end as the name of a directory does. *)
Definition can_open (w : World) (s : str) : bool :=
  match resolve_raw (dirs w) s (raw_parts s) with
  | Some q => negb (exists_dir (dirs w) q || wants_dir s)
  | None => false
  end.

(** The world after a write to the name [s]. *)
Definition saved (w : World) (s : str) (d : payload) : World :=
  mkWorld (dirs w) ((place s, d) :: files w) (requests w).

Section Files.

Context {L : Lib}.

(** Strict UTF-8 decoding ([None]: the bytes are not UTF-8),
    [os.linesep], and the error handler of standard output. *)
Variable decode_strict : bytes -> option str.
Variable linesep : str.
Variable stdout : errors.

(** The loop over the rules. *)
Fixpoint apply_rules (replacements : list rule) (content : str) : exn + str :=
  match replacements with
  | [] => inr content
  | r :: rest =>
      match subn r content with
      | inl e => inl e
      | inr (modified_content, count) =>
          if (0 <? count) && negb (printable stdout (replaced r count))
          then inl UnicodeEncodeError
          else apply_rules rest modified_content
      end
  end.

(** What text mode puts on disk for a text: each newline as [linesep]. *)
Definition to_disk (s : str) : str :=
  flat_map (fun c => if char_eqb c NL then linesep else [c]) s.

(** [os.path.exists] *)
Definition exists_ (w : World) (s : str) : bool :=
  match resolve_raw (dirs w) s (raw_parts s) with
  | Some q =>
      exists_dir (dirs w) q ||
      negb (wants_dir s) &&
      match lookup_file (files w) q with Some _ => true | None => false end
  | None => false
  end.

(** [with open(s, 'r', encoding='utf-8') as f: f.read()] *)
Definition read_text (w : World) (s : str) : exn + str :=
  match resolve_raw (dirs w) s (raw_parts s) with
  | None => inl (resolve_error w s (raw_parts s))
  | Some q =>
      if exists_dir (dirs w) q then inl IsADirectoryError
      else
        match lookup_file (files w) q with
        | None => inl FileNotFoundError
        | Some d =>
            if wants_dir s then inl NotADirectoryError
            else
              match d with
              | Binary b =>
                  match decode_strict b with
                  | Some t => inr (universal_newlines t)
                  | None => inl UnicodeDecodeError
                  end
              | Utf8Text t => inr (universal_newlines (to_disk t))
              end
        end
  end.

Definition replace_in_md (input_file output_file : str) (replacements : list rule)
    : M unit :=
  fun w =>
    (* the input file must exist *)
    if negb (exists_ w input_file)
    then print stdout (Msg.missing_1 ++ input_file ++ Msg.missing_2) w
    else
      try_except
        ((* read the input file *)
         content <- (fun w => (read_text w input_file, w)) ;;
         print stdout (Msg.read ++ input_file) ;;
         (* apply every rule *)
         modified_content <- lift (apply_rules replacements content) ;;
         (* write the output file *)
         write_at output_file (raw_parts output_file) (wants_dir output_file)
           (Utf8Text modified_content) ;;
         print stdout (Msg.written ++ output_file))
        (fun e => print stdout (Msg.failed ++ exn_str e)) w.

(** The rule of [main]: a carriage return, a newline and [#]; the
    replacement keeps the backslashes before each [#], which [re] does
    not take for escapes. *)
Definition replacements : list rule :=
  [mkRule (lit "\r\n\#") (lit "\r\n\#\#\#")
     (Re.Regex [Re.one 13%N; Re.one 10%N; Re.one 35%N] [])
     [Re.Chars [13; 10; 92; 35; 92; 35; 92; 35]%N]].

Definition episode : str :=
  [23567; 31859; 27773; 36710; 31572; 32593; 21451; 38382]%N ++ lit "("
  ++ [31532]%N ++ lit "001" ++ [38598]%N ++ lit ")".

Definition input_md_file : str :=
  lit "D:\Source\Repos\XiaomiQA\QA\" ++ episode ++ lit "\" ++ episode ++ lit ".md".

Definition output_md_file : str :=
  lit "D:\Source\Repos\XiaomiQA\QA\" ++ episode ++ lit "\" ++ episode
  ++ lit "_edit.md".

Definition main : M unit :=
  replace_in_md input_md_file output_md_file replacements.

End Files.

End MdEdit.

(* ================================================================== *)
(** * More cases of the example *)
Module Cases.

(** A converter whose file name names a directory that does not exist. *)
Definition converter_nested : WebpageToMarkdown :=
  mkConverter Example.page_url [lit "out"] [lit "out"; lit "images"]
    (Some (lit "sub/notes")) (mkHTML2Text false false false 0 true true).

(** A converter that was given the empty string for a file name. *)
Definition converter_empty_name : WebpageToMarkdown :=
  mkConverter Example.page_url [lit "out"] [lit "out"; lit "images"]
    (Some []) (mkHTML2Text false false false 0 true true).

(** A server whose page is plain text: [BeautifulSoup] makes one string
    node of it, and no title. *)
Definition env_untitled : Env :=
  mkEnv
    (fun u =>
       if str_eqb u Example.page_url then Some (mkResponse 200 (lit "plain text"))
       else None)
    (lit "2024-01-01 00:00:00") Strict.

(** A world with the file [a.md], whose lines end with a carriage
    return and a newline, and the decoding of ASCII bytes. *)
Definition world_md : World :=
  mkWorld [] [([lit "a.md"], Binary (lit "x" ++ [13; 10]%N ++ lit "# y" ++ [13; 10]%N))] [].

Definition decode_ascii (b : bytes) : option str :=
  if forallb (fun c => N.ltb c 128) b then Some b else None.

(** A rule whose replacement names a group the pattern does not have. *)
Definition rule_bad_group : MdEdit.rule :=
  MdEdit.mkRule (lit "x") (lit "\1") (Re.Regex [Re.one 120%N] []) [Re.Group 1].

(** A rule whose replacement is a surrogate code point. *)
Definition rule_surrogate : MdEdit.rule :=
  MdEdit.mkRule (lit "x") [55296%N] (Re.Regex [Re.one 120%N] []) [Re.Chars [55296%N]].

(** A rule whose replacement is a code point that the handler
    [surrogateescape] prints, and UTF-8 does not encode. *)
Definition rule_escaped : MdEdit.rule :=
  MdEdit.mkRule (lit "x") [56448%N] (Re.Regex [Re.one 120%N] []) [Re.Chars [56448%N]].

(** A rule whose replacement puts the whole match, group 0, in
    brackets. *)
Definition rule_whole : MdEdit.rule :=
  MdEdit.mkRule (lit "x") (lit "[\g<0>]") (Re.Regex [Re.one 120%N] [])
    [Re.Chars (lit "["); Re.Group 0; Re.Chars (lit "]")].

(** The rule that writes [z] for every [x]. *)
Definition rule_x_z : MdEdit.rule :=
  MdEdit.mkRule (lit "x") (lit "z") (Re.Regex [Re.one 120%N] []) [Re.Chars (lit "z")].

(** A world with the directory [a]. *)
Definition world_a : World := mkWorld [[lit "a"]] [] [].

(** The rule that writes [xx] for every [z]. *)
Definition rule_z_xx : MdEdit.rule :=
  MdEdit.mkRule (lit "z") (lit "xx") (Re.Regex [Re.one 122%N] []) [Re.Chars (lit "xx")].

End Cases.

(* ================================================================== *)
(** * What the loops ask for and write *)

Section Effects.

Context {L : Lib}.
Variable env : Env.
Variable self : WebpageToMarkdown.

(** The URL one call of [download_image] asks for. *)
Definition asked (src : str) : list str :=
  match urljoin (url self) src with
  | Some u => [u]
  | None => []
  end.

(** The URL [download_image] names when it says that it failed. *)
Definition reported (src : str) : str :=
  match urljoin (url self) src with
  | Some u => u
  | None => src
  end.

(** The request an [img] tag costs. *)
Definition img_request (n : node) : list str :=
  match n with
  | Tag name attrs _ =>
      if str_eqb name (lit "img") then
        match get attrs (lit "src") with
        | Some (c :: s) => asked (c :: s)
        | _ => []
        end
      else []
  | Str _ _ => []
  end.

(** Files written by the image loop: binary, each at the place of the
    images directory joined with a name. *)
Definition image_files (l : list (Path * payload)) : Prop :=
  Forall (fun pf => exists n b, pf = (canon (pjoin (images_dir self) n), Binary b)) l.

(** The trace of a loop over nodes that ends with [res] in the world
    [w'], started in [w]: requests and image files, and every request of
    the nodes [l] if the loop got to its end. *)
Definition traced {A : Type} (w : World) (l : list node) (res : exn + A) (w' : World)
    : Prop :=
  exists added reqs,
    dirs w' = dirs w /\
    requests w' = requests w ++ reqs /\
    files w' = added ++ files w /\ image_files added /\
    (forall v, res = inr v -> reqs = flat_map img_request l).

(** The trace of [process_node] on a node. *)
Definition node_traced (n : node) : Prop :=
  forall w, exists res w',
    process_node env self n w = (res, w') /\ traced w (n :: descendants n) res w'.

End Effects.

(** A name that [pjoin] takes for one component. *)
Definition no_slash (s : str) : Prop := forall c, In c s -> char_eqb c 47%N = false.

(** The URL [main] hands to the converter. *)
Definition normalize_url (u : str) : str :=
  if startswith u (lit "http://") || startswith u (lit "https://") then u
  else lit "https://" ++ u.

(** The converter [main] runs, when its construction goes through. *)
Definition main_converter (args : Args) : WebpageToMarkdown :=
  mkConverter (normalize_url (arg_url args)) (Path_of (arg_output args))
    (pjoin (Path_of (arg_output args)) (lit "images")) (arg_filename args)
    (mkHTML2Text false (arg_no_images args) false 0 true true).

(** The converter the batch loop runs for a pair. *)
Definition pair_converter (u output : str) : WebpageToMarkdown :=
  mkConverter u (Path_of output) (pjoin (Path_of output) (lit "images")) (Some output)
    (mkHTML2Text false false false 0 true true).

(** An [img] tag on which the two versions of the loop do the same: its
    source is not empty, or none of the three attributes holds
    anything. *)
Definition plain_img (attrs : list (str * str)) : bool :=
  truthy (get attrs (lit "src")) || negb (truthy (Url2mdTest.candidate_src attrs)).

(** Every [img] tag of a list of nodes is of that kind. *)
Definition all_plain (nodes : list node) : Prop :=
  forall name attrs kids,
    In (Tag name attrs kids) nodes -> str_eqb name (lit "img") = true ->
    plain_img attrs = true.

(* ================================================================== *)
(** * Strings, paths and attributes *)

Lemma str_eqb_refl (a : str) : str_eqb a a = true.
Proof.
  induction a as [|x a IH]; simpl; [reflexivity|].
  unfold char_eqb. now rewrite N.eqb_refl.
Qed.

Lemma str_eqb_eq (a b : str) : str_eqb a b = true <-> a = b.
Proof.
  split; [|intros ->; apply str_eqb_refl].
  revert b; induction a as [|x a IH]; intros [|y b]; simpl; try easy.
  intros H. apply andb_true_iff in H as [Hx Hab].
  apply N.eqb_eq in Hx. f_equal; auto.
Qed.

Lemma path_eqb_refl (p : Path) : path_eqb p p = true.
Proof.
  induction p as [|x p IH]; simpl; [reflexivity|].
  now rewrite str_eqb_refl.
Qed.

Lemma get_set_same attrs k v : get (set attrs k v) k = Some v.
Proof.
  induction attrs as [|[k' v'] attrs IH]; simpl.
  - now rewrite str_eqb_refl.
  - destruct (str_eqb k' k) eqn:E; simpl; rewrite E; auto.
Qed.

Lemma get_set_other attrs k v k' :
  str_eqb k k' = false -> get (set attrs k v) k' = get attrs k'.
Proof.
  intros Hk. induction attrs as [|[k0 v0] attrs IH]; simpl.
  - now rewrite Hk.
  - destruct (str_eqb k0 k) eqn:E; simpl.
    + apply str_eqb_eq in E. subst k0. now rewrite Hk.
    + now rewrite IH.
Qed.

Lemma lookup_file_app l fs p d :
  lookup_file fs p = Some d -> exists d', lookup_file (l ++ fs) p = Some d'.
Proof.
  intros H. induction l as [|[q e] l IH]; simpl; [eauto|].
  destruct (path_eqb q p); eauto.
Qed.

Lemma extends_refl w : extends w w.
Proof.
  repeat split; [exists []; now rewrite app_nil_r | now exists []].
Qed.

Lemma extends_trans w1 w2 w3 : extends w1 w2 -> extends w2 w3 -> extends w1 w3.
Proof.
  intros (D1 & [l1 R1] & [f1 F1]) (D2 & [l2 R2] & [f2 F2]).
  repeat split.
  - congruence.
  - exists (l1 ++ l2). now rewrite R2, R1, app_assoc.
  - exists (f2 ++ f1). now rewrite F2, F1, app_assoc.
Qed.

Lemma extends_is_file w w' p : extends w w' -> is_file w p = true -> is_file w' p = true.
Proof.
  intros (D & _ & [l F]). unfold is_file, read_file. rewrite F, D.
  destruct (resolve (dirs w) p) as [q|]; [|discriminate].
  destruct (lookup_file (files w) q) eqn:E; [|discriminate].
  intros _. destruct (lookup_file_app l _ _ _ E) as [d' ->]. reflexivity.
Qed.

Lemma extends_files w w' x : extends w w' -> In x (files w) -> In x (files w').
Proof.
  intros (_ & _ & [l F]) H. rewrite F. apply in_or_app. now right.
Qed.

Lemma extends_requests w w' u : extends w w' -> In u (requests w) -> In u (requests w').
Proof.
  intros (_ & [l R] & _) H. rewrite R. apply in_or_app. now left.
Qed.

Lemma extends_requested w u : extends w (requested w u).
Proof.
  repeat split; [now exists [u] | now exists []].
Qed.

Lemma extends_written w p d : extends w (written w p d).
Proof.
  repeat split; [exists []; simpl; now rewrite app_nil_r | now exists [(canon p, d)]].
Qed.

(** ** Resolution *)

Lemma walk_target ds q parts q' :
  walk ds q parts = Target q' -> q' = fold_left step parts q.
Proof.
  revert q. induction parts as [|c rest IH]; intros q; simpl.
  - now intros [= <-].
  - destruct (255 <? fs_len c); [discriminate|].
    destruct rest as [|c' rest]; [now intros [= <-]|].
    destruct (exists_dir ds (step q c)); [|discriminate].
    intros H. exact (IH _ H).
Qed.

Lemma resolve_canon ds p q : resolve ds p = Some q -> q = canon p.
Proof.
  unfold resolve, resolve_raw. destruct (name_error _); [discriminate|].
  destruct (walk ds [] p) as [q'| |q'] eqn:W; try discriminate.
  intros [= <-]. exact (walk_target _ _ _ _ W).
Qed.

(** More directories: what resolved still resolves, to the same place. *)
Lemma walk_mono ds ds' q parts q' :
  (forall d, exists_dir ds d = true -> exists_dir ds' d = true) ->
  walk ds q parts = Target q' -> walk ds' q parts = Target q'.
Proof.
  intros Hm. revert q. induction parts as [|c rest IH]; intros q; simpl; [auto|].
  destruct (255 <? fs_len c); [discriminate|].
  destruct rest as [|c' rest]; [auto|].
  destruct (exists_dir ds (step q c)) eqn:E; [|discriminate].
  rewrite (Hm _ E). apply IH.
Qed.

Lemma resolve_mono ds ds' p q :
  (forall d, exists_dir ds d = true -> exists_dir ds' d = true) ->
  resolve ds p = Some q -> resolve ds' p = Some q.
Proof.
  intros Hm. unfold resolve, resolve_raw. destruct (name_error _); [discriminate|].
  destruct (walk ds [] p) as [q'| |q'] eqn:W; try discriminate.
  intros [= <-]. now rewrite (walk_mono _ _ _ _ _ Hm W).
Qed.

Lemma exists_dir_cons ds q d :
  exists_dir ds d = true -> exists_dir (q :: ds) d = true.
Proof.
  unfold exists_dir, dir_in. simpl. intros H.
  apply orb_true_iff in H as [-> | ->]; [reflexivity|].
  now rewrite !orb_true_r.
Qed.

Lemma exists_dir_here ds q : exists_dir (q :: ds) q = true.
Proof.
  unfold exists_dir, dir_in. simpl. rewrite path_eqb_refl. apply orb_true_r.
Qed.

Lemma can_write_resolve ds p :
  can_write ds p = true ->
  resolve ds p = Some (canon p) /\ exists_dir ds (canon p) = false.
Proof.
  unfold can_write. destruct (resolve ds p) as [q|] eqn:R; [|discriminate].
  rewrite <- (resolve_canon _ _ _ R). intros H. apply negb_true_iff in H. auto.
Qed.

Lemma read_file_written w p d :
  can_write (dirs w) p = true -> read_file (written w p d) p = Some d.
Proof.
  intros C. destruct (can_write_resolve _ _ C) as [R _].
  unfold read_file. simpl. rewrite R. simpl. now rewrite path_eqb_refl.
Qed.

Lemma is_file_written w p d :
  can_write (dirs w) p = true -> is_file (written w p d) p = true.
Proof.
  intros C. unfold is_file. now rewrite read_file_written.
Qed.

(** What was written somewhere [open] takes is a file. *)
Lemma is_file_In w ds p d :
  can_write ds p = true -> dirs w = ds -> In (canon p, d) (files w) ->
  is_file w p = true.
Proof.
  intros C <- H. destruct (can_write_resolve _ _ C) as [R _].
  unfold is_file, read_file. rewrite R.
  induction (files w) as [|[q e] fs IH]; [destruct H|].
  simpl. destruct (path_eqb q (canon p)) eqn:E; [reflexivity|].
  destruct H as [H|H]; [|exact (IH H)].
  injection H as -> _. now rewrite path_eqb_refl in E.
Qed.

(** ** Texts a standard output takes *)

Lemma encodable_app a b : encodable (a ++ b) = encodable a && encodable b.
Proof. apply forallb_app. Qed.

Lemma printable_app h a b : printable h (a ++ b) = printable h a && printable h b.
Proof. destruct h; apply forallb_app. Qed.

Lemma encodable_printable h s : encodable s = true -> printable h s = true.
Proof.
  destruct h; [auto|]. unfold printable, encodable, fsencodable. intros H.
  apply forallb_forall. intros c Hc. rewrite forallb_forall in H.
  now rewrite (H c Hc).
Qed.

Lemma printable_exn_str `{L : Lib} h e : printable h (exn_str e) = true.
Proof. apply encodable_printable, exn_str_encodable. Qed.

(* ================================================================== *)
(** * The matcher *)

(** [matched pat ls s]: the counts [ls] split a prefix of [s] among the
    atoms of [pat], each count within the bounds of its quantifier and
    each piece inside its class. *)
Inductive matched : list Re.atom -> list nat -> str -> Prop :=
| matched_nil s : matched [] [] s
| matched_cons a pat k ls s :
    Re.lo a <= k -> k <= Re.run (Re.cls a) (Re.hi a) s ->
    matched pat ls (skipn k s) ->
    matched (a :: pat) (k :: ls) s.

Lemma run_cap0 p s : Re.run p (Some 0) s = 0.
Proof.
  destruct s as [|c s]; simpl; [reflexivity|]. now destruct (p c).
Qed.

Lemma back_some rest least k0 ls :
  Re.back rest least k0 = Some ls ->
  exists k ls', ls = k :: ls' /\ least <= k <= k0 /\ rest k = Some ls'.
Proof.
  induction k0 as [|k0 IH]; simpl.
  - destruct (least <=? 0) eqn:E.
    + destruct (rest 0) as [l|] eqn:R; [|discriminate].
      intros [= <-]. apply Nat.leb_le in E. exists 0, l. repeat split; auto.
    + discriminate.
  - destruct (least <=? S k0) eqn:E.
    + destruct (rest (S k0)) as [l|] eqn:R.
      * intros [= <-]. apply Nat.leb_le in E. exists (S k0), l. repeat split; auto.
      * intros H. destruct (IH H) as (k & l & -> & [H1 H2] & H3).
        exists k, l. repeat split; auto.
    + intros H. destruct (IH H) as (k & l & -> & [H1 H2] & H3).
      exists k, l. repeat split; auto.
Qed.

Lemma back_none rest least k0 :
  Re.back rest least k0 = None ->
  forall k, least <= k <= k0 -> rest k = None.
Proof.
  induction k0 as [|k0 IH]; simpl.
  - destruct (least <=? 0) eqn:E.
    + destruct (rest 0) eqn:R; [discriminate|].
      intros _ k [H1 H2]. now replace k with 0 by lia.
    + apply Nat.leb_gt in E. intros _ k Hk. lia.
  - destruct (least <=? S k0) eqn:E.
    + destruct (rest (S k0)) eqn:R; [discriminate|].
      intros H k [H1 H2]. destruct (Nat.eq_dec k (S k0)) as [->|Hne]; [exact R|].
      apply (IH H). lia.
    + apply Nat.leb_gt in E. intros H k [H1 H2]. apply (IH H). lia.
Qed.

(** What the matcher returns is a match. *)
Lemma match_here_sound pat s ls :
  Re.match_here pat s = Some ls -> matched pat ls s.
Proof.
  revert s ls. induction pat as [|a pat IH]; intros s ls; simpl.
  - intros [= <-]. constructor.
  - intros H. apply back_some in H as (k & ls' & -> & [H1 H2] & H3).
    constructor; auto.
Qed.

(** Where there is a match, the matcher returns one. *)
Lemma match_here_complete pat s ls :
  matched pat ls s -> Re.match_here pat s <> None.
Proof.
  induction 1 as [s|a pat k ls s H1 H2 _ IH]; simpl; [discriminate|].
  intros H. apply IH. exact (back_none _ _ _ H k (conj H1 H2)).
Qed.

Lemma run_prefix p cap s k :
  k <= Re.run p cap s -> Forall (fun c => p c = true) (firstn k s) /\ k <= List.length s.
Proof.
  revert cap k. induction s as [|c s IH]; intros cap k; simpl.
  - intros H. replace k with 0 by lia. split; [constructor|lia].
  - destruct (p c) eqn:C; [|intros H; replace k with 0 by lia; split; [constructor|lia]].
    destruct k as [|k]; [split; [constructor|lia]|].
    destruct cap as [[|n]|]; intros H; try lia; simpl;
      (destruct (IH _ k ltac:(apply le_S_n; exact H)) as [F Len];
       split; [constructor; auto|lia]).
Qed.

Lemma matched_total pat ls s :
  matched pat ls s -> Re.total ls <= List.length s.
Proof.
  induction 1 as [s|a pat k ls s H1 H2 _ IH]; simpl; [lia|].
  destruct (run_prefix _ _ _ _ H2) as [_ Len].
  rewrite length_skipn in IH. lia.
Qed.

(** A substitution that puts every match back as it was changes
    nothing. *)
Lemma sub_from_identity r t :
  (forall s ls, Re.match_here (Re.atoms r) s = Some ls ->
                Re.expand r t ls s = firstn (Re.total ls) s) ->
  forall s k, Re.sub_from r t k s = skipn k s.
Proof.
  intros Hid. induction s as [|c s IH]; intros [|k]; simpl; auto.
  - destruct (Re.match_here (Re.atoms r) []) as [ls|] eqn:E; [|reflexivity].
    rewrite (Hid _ _ E). now rewrite firstn_nil.
  - destruct (Re.match_here (Re.atoms r) (c :: s)) as [ls|] eqn:E.
    + rewrite (Hid _ _ E). destruct (Re.total ls) as [|n].
      * simpl. now rewrite IH.
      * rewrite IH. simpl. now rewrite firstn_skipn.
    + now rewrite IH.
Qed.

(** A pattern that matches at no position of [s] leaves [s] as it is. *)
Lemma sub_no_match r t s :
  (forall n, Re.match_here (Re.atoms r) (skipn n s) = None) ->
  Re.sub r t s = s.
Proof.
  unfold Re.sub. induction s as [|c s IH]; intros H;
    pose proof (H 0) as H0; simpl in H0; simpl; rewrite H0; [reflexivity|].
  f_equal. apply IH. intros n. exact (H (S n)).
Qed.

(* ================================================================== *)
(** * The patterns of post_process_markdown *)

Lemma firstn_plus {A} (g rest : list A) n :
  firstn (List.length g + n) (g ++ rest) = g ++ firstn n rest.
Proof. induction g; simpl; congruence. Qed.

Lemma skipn_plus {A} (g rest : list A) n :
  skipn (List.length g + n) (g ++ rest) = skipn n rest.
Proof. induction g; simpl; congruence. Qed.

Lemma matched_one c pat ls s :
  matched (Re.one c :: pat) ls s ->
  exists ls' s', ls = 1 :: ls' /\ s = c :: s' /\ matched pat ls' s'.
Proof.
  intros H. inversion H as [|a p k l s0 H1 H2 H3]; subst. simpl in H1, H2.
  destruct s as [|x s]; simpl in H2; [lia|].
  destruct (char_eqb c x) eqn:E; [|lia].
  rewrite run_cap0 in H2. assert (k = 1) by lia. subst k.
  exists l, s. apply N.eqb_eq in E. subst x. auto.
Qed.

Lemma matched_class a pat ls s :
  matched (a :: pat) ls s ->
  exists g rest ls',
    ls = List.length g :: ls' /\ s = g ++ rest /\ Re.lo a <= List.length g /\
    Forall (fun c => Re.cls a c = true) g /\ matched pat ls' rest.
Proof.
  intros H. inversion H as [|a' p k l s0 H1 H2 H3]; subst.
  destruct (run_prefix _ _ _ _ H2) as [F Len].
  exists (firstn k s), (skipn k s), l. rewrite firstn_skipn, length_firstn.
  replace (Nat.min k (List.length s)) with k by lia. auto.
Qed.

Lemma matched_end ls s : matched [] ls s -> ls = [].
Proof. now inversion 1. Qed.

Lemma image_match_put_back s ls :
  Re.match_here (Re.atoms re_image) s = Some ls ->
  Re.expand re_image
    [Re.Chars (lit "!["); Re.Group 1; Re.Chars (lit "]("); Re.Group 2;
     Re.Chars (lit ")")] ls s
  = firstn (Re.total ls) s.
Proof.
  intros H. apply match_here_sound in H. unfold re_image in H. simpl in H.
  apply matched_one in H as (? & ? & -> & -> & H).
  apply matched_one in H as (? & ? & -> & -> & H).
  apply matched_class in H as (g1 & ? & ? & -> & -> & _ & _ & H).
  apply matched_one in H as (? & ? & -> & -> & H).
  apply matched_one in H as (? & ? & -> & -> & H).
  apply matched_class in H as (g2 & ? & ? & -> & -> & _ & _ & H).
  apply matched_one in H as (? & s' & -> & -> & H).
  apply matched_end in H as ->.
  unfold Re.expand, Re.group_text. simpl.
  repeat (rewrite ?firstn_plus, ?skipn_plus, ?app_nil_r; simpl).
  reflexivity.
Qed.

Lemma image_sub_identity s :
  Re.sub re_image
    [Re.Chars (lit "!["); Re.Group 1; Re.Chars (lit "]("); Re.Group 2;
     Re.Chars (lit ")")] s = s.
Proof.
  unfold Re.sub. rewrite sub_from_identity; [reflexivity|].
  apply image_match_put_back.
Qed.

Lemma back_const least k0 :
  Re.back (fun _ => Some []) least k0 = if least <=? k0 then Some [k0] else None.
Proof.
  induction k0 as [|k0 IH]; simpl.
  - now destruct (least <=? 0).
  - destruct (least <=? S k0) eqn:E; [reflexivity|].
    rewrite IH. apply Nat.leb_gt in E.
    destruct (least <=? k0) eqn:E'; [|reflexivity]. apply Nat.leb_le in E'. lia.
Qed.

Lemma match_blank s :
  Re.match_here (Re.atoms re_blank_lines) s
  = if 3 <=? nlrun s then Some [nlrun s] else None.
Proof. simpl. apply back_const. Qed.

Lemma sub_from_skip r t s k :
  k <= List.length s -> Re.sub_from r t k s = Re.sub_from r t 0 (skipn k s).
Proof.
  revert k. induction s as [|c s IH]; intros [|k] H; try reflexivity.
  - simpl in H. lia.
  - simpl in H. simpl. apply IH. lia.
Qed.

Lemma run_le_length p s : Re.run p None s <= List.length s.
Proof. induction s as [|c s IH]; simpl; [lia|]. destruct (p c); lia. Qed.

Lemma run_skipn_run p s : Re.run p None (skipn (Re.run p None s) s) = 0.
Proof.
  induction s as [|c s IH]; simpl; [reflexivity|].
  destruct (p c) eqn:E; simpl; [exact IH|now rewrite E].
Qed.

Lemma collapse_cons c s :
  collapse (c :: s)
  = if 3 <=? nlrun (c :: s) then NL :: NL :: collapse (skipn (nlrun (c :: s)) (c :: s))
    else c :: collapse s.
Proof.
  unfold collapse, Re.sub. cbn [Re.sub_from]. rewrite match_blank.
  destruct (3 <=? nlrun (c :: s)) eqn:E; [|reflexivity].
  apply Nat.leb_le in E.
  destruct (nlrun (c :: s)) as [|k] eqn:K; [lia|].
  cbn [Re.expand Re.total fold_right app]. rewrite Nat.add_0_r.
  rewrite sub_from_skip; [reflexivity|].
  pose proof (run_le_length is_nl (c :: s)) as L. unfold nlrun in K. rewrite K in L.
  simpl in L. lia.
Qed.

Lemma nlrun_cons c s : nlrun (c :: s) = if is_nl c then S (nlrun s) else 0.
Proof. reflexivity. Qed.

Lemma no3_cons c s : nlrun (c :: s) <= 2 -> no3 s -> no3 (c :: s).
Proof. intros H N [|m]; [exact H|apply N]. Qed.

Lemma collapse_inv n : forall s, List.length s <= n ->
  no3 (collapse s) /\ nlrun (collapse s) = Nat.min (nlrun s) 2 /\
  forall x, In x (collapse s) -> In x s \/ x = NL.
Proof.
  assert (Hnil : no3 (collapse []) /\ nlrun (collapse []) = Nat.min (nlrun []) 2 /\
                 forall x, In x (collapse []) -> In x [] \/ x = NL).
  { change (collapse []) with (@nil char).
    split; [intros [|m]; unfold nlrun; simpl; lia|split; [reflexivity|intros x []]]. }
  induction n as [|n IH]; intros [|c s] Hlen; simpl in Hlen; try lia; try exact Hnil.
  rewrite collapse_cons.
  destruct (3 <=? nlrun (c :: s)) eqn:E.
  - apply Nat.leb_le in E.
    set (rest := skipn (nlrun (c :: s)) (c :: s)).
    assert (Hr : nlrun rest = 0) by apply run_skipn_run.
    destruct (IH rest) as (N3 & R & I).
    { unfold rest. rewrite length_skipn. cbn [List.length]. lia. }
    rewrite Hr in R. simpl in R.
    assert (R1 : nlrun (NL :: collapse rest) = 1) by (rewrite nlrun_cons, R; reflexivity).
    assert (R2 : nlrun (NL :: NL :: collapse rest) = 2) by (rewrite nlrun_cons, R1; reflexivity).
    split; [|split].
    + apply no3_cons; [lia|]. apply no3_cons; [lia|exact N3].
    + lia.
    + intros x [<-|[<-|Hx]]; auto.
      destruct (I x Hx) as [Hi|Hi]; auto.
      left. unfold rest in Hi.
      rewrite <- (firstn_skipn (nlrun (c :: s)) (c :: s)). apply in_or_app. now right.
  - apply Nat.leb_gt in E.
    destruct (IH s ltac:(lia)) as (N3 & R & I).
    assert (Rc : nlrun (c :: collapse s) = nlrun (c :: s)).
    { rewrite !nlrun_cons in *. destruct (is_nl c); [|reflexivity]. rewrite R. lia. }
    split; [|split].
    + apply no3_cons; [lia|exact N3].
    + lia.
    + intros x [<-|Hx]; [left; now left|].
      destruct (I x Hx); auto. left. now right.
Qed.

Lemma collapse_no3 s : no3 (collapse s).
Proof. exact (proj1 (collapse_inv (List.length s) s (le_n _))). Qed.

Lemma collapse_In s x : In x (collapse s) -> In x s \/ x = NL.
Proof. exact (proj2 (proj2 (collapse_inv (List.length s) s (le_n _))) x). Qed.

Lemma collapse_id s : no3 s -> collapse s = s.
Proof.
  intros H. apply sub_no_match. intros n. rewrite match_blank.
  specialize (H n). destruct (3 <=? nlrun (skipn n s)) eqn:E; [|reflexivity].
  apply Nat.leb_le in E. lia.
Qed.

Lemma In_firstn {A} n (l : list A) x : In x (firstn n l) -> In x l.
Proof.
  intros H. rewrite <- (firstn_skipn n l). apply in_or_app. now left.
Qed.

Lemma In_skipn {A} n (l : list A) x : In x (skipn n l) -> In x l.
Proof.
  intros H. rewrite <- (firstn_skipn n l). apply in_or_app. now right.
Qed.

Lemma heading_no_match s :
  hash_free s -> forall n, Re.match_here (Re.atoms re_heading) (skipn n s) = None.
Proof.
  intros Hf n. destruct (Re.match_here _ _) as [ls|] eqn:E; [|reflexivity].
  exfalso. apply match_here_sound in E. unfold re_heading in E. simpl in E.
  apply matched_class in E as (g0 & r0 & ? & -> & E0 & _ & _ & E).
  apply matched_class in E as (g1 & r1 & ? & -> & -> & L1 & F1 & _).
  simpl in L1, F1. destruct g1 as [|x g1]; [simpl in L1; lia|].
  inversion F1 as [|? ? Hx _]; subst.
  assert (Hin : In x s).
  { apply In_skipn with (n := n). rewrite E0.
    apply in_or_app. right. now left. }
  rewrite (Hf x Hin) in Hx. discriminate.
Qed.

Lemma heading_sub_hash_free t s :
  hash_free s -> Re.sub re_heading t s = s.
Proof. intros H. apply sub_no_match, heading_no_match, H. Qed.

(** Post-processing a text without [#]: the blank lines are collapsed
    and the text is stripped. *)
Lemma post_process_hash_free s :
  hash_free s -> post_process_markdown s = strip (collapse s).
Proof.
  intros H. unfold post_process_markdown. fold (collapse s).
  rewrite image_sub_identity, heading_sub_hash_free; [reflexivity|].
  intros x Hx. destruct (collapse_In _ _ Hx) as [Hi| ->]; [auto|reflexivity].
Qed.

Lemma lstrip_skipn s : exists m, lstrip s = skipn m s.
Proof.
  induction s as [|c s [m IH]]; [now exists 0|].
  simpl. destruct (isspace c); [exists (S m); exact IH|now exists 0].
Qed.

Lemma rstrip_firstn s : exists m, rstrip s = firstn m s.
Proof.
  unfold rstrip. destruct (lstrip_skipn (rev s)) as [m ->].
  exists (List.length s - m). now rewrite skipn_rev, rev_involutive.
Qed.

Lemma lstrip_fixed s :
  match s with c :: _ => isspace c = false | [] => True end -> lstrip s = s.
Proof. destruct s as [|c s]; [reflexivity|]. simpl. now intros ->. Qed.

Lemma lstrip_head s :
  match lstrip s with c :: _ => isspace c = false | [] => True end.
Proof.
  induction s as [|c s IH]; simpl; [exact I|].
  destruct (isspace c) eqn:E; [exact IH|exact E].
Qed.

Lemma lstrip_idem s : lstrip (lstrip s) = lstrip s.
Proof. apply lstrip_fixed, lstrip_head. Qed.

Lemma rstrip_idem s : rstrip (rstrip s) = rstrip s.
Proof. unfold rstrip. now rewrite rev_involutive, lstrip_idem. Qed.

Lemma strip_idem s : strip (strip s) = strip s.
Proof.
  unfold strip.
  assert (H : lstrip (rstrip (lstrip s)) = rstrip (lstrip s)).
  { apply lstrip_fixed. pose proof (lstrip_head s) as Hh.
    destruct (rstrip_firstn (lstrip s)) as [m ->].
    destruct (lstrip s) as [|c t]; [now rewrite firstn_nil|].
    destruct m; [exact I|exact Hh]. }
  rewrite H. apply rstrip_idem.
Qed.

Lemma strip_window s : exists a b, strip s = firstn a (skipn b s).
Proof.
  unfold strip. destruct (lstrip_skipn s) as [b ->].
  destruct (rstrip_firstn (skipn b s)) as [a ->]. eauto.
Qed.

Lemma run_firstn_le p a s : Re.run p None (firstn a s) <= Re.run p None s.
Proof.
  revert a. induction s as [|c s IH]; intros [|a]; simpl; try lia.
  destruct (p c); [|lia]. specialize (IH a). lia.
Qed.

Lemma no3_strip s : no3 s -> no3 (strip s).
Proof.
  intros H n. destruct (strip_window s) as (a & b & ->).
  rewrite skipn_firstn_comm, skipn_skipn.
  eapply Nat.le_trans; [apply run_firstn_le|apply H].
Qed.

Lemma hash_free_strip s : hash_free s -> hash_free (strip s).
Proof.
  intros H x Hx. destruct (strip_window s) as (a & b & E). rewrite E in Hx.
  apply H. eapply In_skipn, In_firstn, Hx.
Qed.

(** Post-processing a text without [#] twice is post-processing it once. *)
Lemma post_process_idempotent_hash_free s :
  hash_free s ->
  post_process_markdown (post_process_markdown s) = post_process_markdown s.
Proof.
  intros H. rewrite (post_process_hash_free s H).
  assert (Hc : hash_free (collapse s)).
  { intros x Hx. destruct (collapse_In _ _ Hx) as [Hi| ->]; [auto|reflexivity]. }
  rewrite post_process_hash_free by (apply hash_free_strip, Hc).
  rewrite collapse_id by (apply no3_strip, collapse_no3).
  apply strip_idem.
Qed.

(* ================================================================== *)
(** * Trees *)

(** Induction on a tree, with the property of the children at hand. *)
Lemma node_ind' (P : node -> Prop) :
  (forall name attrs kids, Forall P kids -> P (Tag name attrs kids)) ->
  (forall k t, P (Str k t)) ->
  forall n, P n.
Proof.
  intros HT HS. fix IH 1. intros [name attrs kids|k t]; [|apply HS].
  apply HT. induction kids as [|k kids IHk]; constructor; [apply IH|exact IHk].
Qed.

(** Membership in the list of descendants, decided by search. *)
Ltac find_node := vm_compute; repeat (first [left; reflexivity | right]).

Lemma decompose_all_eq names name attrs kids :
  decompose_all names (Tag name attrs kids)
  = Tag name attrs
      (map (decompose_all names) (filter (fun k => negb (has_name names k)) kids)).
Proof.
  simpl. f_equal. induction kids as [|k kids IH]; [reflexivity|].
  simpl. destruct (has_name names k); simpl; now rewrite IH.
Qed.

Lemma extract_all_eq f name attrs kids :
  extract_all f (Tag name attrs kids)
  = Tag name attrs (map (extract_all f) (filter (fun k => negb (f k)) kids)).
Proof.
  simpl. f_equal. induction kids as [|k kids IH]; [reflexivity|].
  simpl. destruct (f k); simpl; now rewrite IH.
Qed.

Lemma has_name_decompose_all names n :
  has_name names (decompose_all names n) = has_name names n.
Proof. destruct n; reflexivity. Qed.

Lemma has_name_extract_all names f n :
  has_name names (extract_all f n) = has_name names n.
Proof. destruct n; reflexivity. Qed.

Lemma in_descendants_Tag n name attrs kids :
  In n (descendants (Tag name attrs kids)) <->
  exists k, In k kids /\ (n = k \/ In n (descendants k)).
Proof.
  simpl. rewrite in_flat_map. split; intros (k & Hk & H); exists k; split; auto.
  - destruct H; auto.
  - destruct H; [left|right]; auto.
Qed.

(** No tag with one of the names is left below a decomposed tree. *)
Lemma decompose_all_free names n x :
  In x (descendants (decompose_all names n)) -> has_name names x = false.
Proof.
  revert x. induction n as [name attrs kids IH|k t] using node_ind'; intros x.
  - rewrite decompose_all_eq, in_descendants_Tag. intros (k & Hk & H).
    apply in_map_iff in Hk as (k0 & <- & Hk0).
    apply filter_In in Hk0 as [Hin Hn]. apply negb_true_iff in Hn.
    rewrite Forall_forall in IH. destruct H as [->|H].
    + now rewrite has_name_decompose_all.
    + eapply IH; eauto.
  - intros [].
Qed.

(** Extracting string nodes brings no tag name in. *)
Lemma extract_all_free names f n :
  (forall x, In x (descendants n) -> has_name names x = false) ->
  forall x, In x (descendants (extract_all f n)) -> has_name names x = false.
Proof.
  induction n as [name attrs kids IH|k t] using node_ind'; intros Hn x.
  - rewrite extract_all_eq, in_descendants_Tag. intros (k & Hk & H).
    apply in_map_iff in Hk as (k0 & <- & Hk0).
    apply filter_In in Hk0 as [Hin _].
    rewrite Forall_forall in IH. destruct H as [->|H].
    + rewrite has_name_extract_all. apply Hn, in_descendants_Tag. eauto.
    + eapply (IH k0 Hin); [|exact H].
      intros y Hy. apply Hn, in_descendants_Tag. eauto.
  - intros [].
Qed.

(** The part of the cleaning that works: no script, style, meta or link
    tag is left. *)
Lemma clean_html_no_noise soup : find_all noise_tags (clean_html soup) = [].
Proof.
  unfold find_all, clean_html.
  destruct (filter _ _) as [|x l] eqn:E; [reflexivity|].
  assert (Hx : In x (x :: l)) by now left.
  rewrite <- E in Hx. apply filter_In in Hx as [Hin Hn].
  apply extract_all_free with (names := noise_tags) in Hin; [congruence|].
  apply decompose_all_free.
Qed.

(** A string node that the filter does not select stays where it is. *)
Lemma extract_all_keeps n kind t :
  comment_filter (Str kind t) = false ->
  In (Str kind t) (descendants n) ->
  In (Str kind t) (descendants (extract_all comment_filter n)).
Proof.
  intros Hf. induction n as [name attrs kids IH|k t'] using node_ind'; [|intros []].
  rewrite extract_all_eq, !in_descendants_Tag. intros (k & Hk & H).
  rewrite Forall_forall in IH.
  assert (Hkeep : comment_filter k = false).
  { destruct H as [<-|H]; [exact Hf|]. destruct k; [reflexivity|destruct H]. }
  exists (extract_all comment_filter k). split.
  - apply in_map, filter_In. split; [exact Hk|]. now rewrite Hkeep.
  - destruct H as [<-|H]; [now left|right; auto].
Qed.

Lemma decompose_all_id names n :
  (forall x, In x (descendants n) -> has_name names x = false) ->
  decompose_all names n = n.
Proof.
  induction n as [name attrs kids IH|k t] using node_ind'; [|reflexivity].
  intros Hn. rewrite decompose_all_eq. f_equal.
  rewrite Forall_forall in IH.
  assert (Hk : forall k, In k kids -> has_name names k = false).
  { intros k Hk. apply Hn, in_descendants_Tag. eauto. }
  assert (Hd : forall k, In k kids -> decompose_all names k = k).
  { intros k Hin. apply IH; [exact Hin|].
    intros y Hy. apply Hn, in_descendants_Tag. eauto. }
  clear IH Hn. induction kids as [|k kids IHk]; [reflexivity|].
  simpl. rewrite (Hk k) by now left. simpl.
  rewrite (Hd k) by now left. f_equal.
  apply IHk; intros; [apply Hk|apply Hd]; now right.
Qed.

(** The part that does not: on a page without script, style, meta or link
    tags, every comment whose text does not itself hold the characters
    that open a comment is still there after [clean_html]. *)
Lemma clean_html_keeps_comments soup t :
  find_all noise_tags soup = [] ->
  contains t (lit "<!--") = false ->
  In (Str Comment t) (descendants soup) ->
  In (Str Comment t) (descendants (clean_html soup)).
Proof.
  intros Hn Ht Hin. unfold clean_html. rewrite decompose_all_id.
  - now apply extract_all_keeps.
  - intros x Hx. destruct (has_name noise_tags x) eqn:E; [|reflexivity].
    assert (Hf : In x (find_all noise_tags soup)) by (apply filter_In; auto).
    rewrite Hn in Hf. destruct Hf.
Qed.

(* ================================================================== *)
(** * The steps of the monad *)

Lemma write_file_ok p d w :
  can_write (dirs w) p = true -> payload_ok d = true ->
  write_file p d w = (inr tt, written w p d).
Proof.
  intros C P. destruct (can_write_resolve _ _ C) as [R E]. unfold resolve in R.
  unfold write_file, write_at. rewrite R, E. simpl.
  destruct d as [b|s]; [reflexivity|]. simpl in P. now rewrite P.
Qed.

Lemma write_file_fails p d w :
  can_write (dirs w) p = false -> exists e, write_file p d w = (inl e, w).
Proof.
  unfold can_write, write_file, write_at, resolve.
  destruct (resolve_raw (dirs w) (path_str p) p) as [q|]; [|eauto].
  intros H. apply negb_false_iff in H. rewrite H. simpl. eauto.
Qed.

(** A text that cannot be encoded: the file is left empty. *)
Lemma write_file_unencodable p s w :
  can_write (dirs w) p = true -> encodable s = false ->
  write_file p (Utf8Text s) w = (inl UnicodeEncodeError, written w p (Utf8Text [])).
Proof.
  intros C P. destruct (can_write_resolve _ _ C) as [R E]. unfold resolve in R.
  unfold write_file, write_at. now rewrite R, E, P.
Qed.

Lemma print_ok h s w : printable h s = true -> print h s w = (inr tt, w).
Proof. unfold print. now intros ->. Qed.

Lemma print_fails h s w :
  printable h s = false -> print h s w = (inl UnicodeEncodeError, w).
Proof. unfold print. now intros ->. Qed.

(** A message with one text put into it, and the text of an exception
    after it, prints when the text does. *)
Lemma printable_message `{L : Lib} h a x b e :
  encodable a = true -> encodable b = true ->
  printable h (a ++ x ++ b ++ exn_str e) = printable h x.
Proof.
  intros Ha Hb. rewrite !printable_app, printable_exn_str.
  rewrite (encodable_printable h a Ha), (encodable_printable h b Hb).
  simpl. now rewrite !andb_true_r.
Qed.

Lemma printable_after h a x :
  encodable a = true -> printable h (a ++ x) = printable h x.
Proof.
  intros Ha. now rewrite printable_app, (encodable_printable h a Ha).
Qed.

(** The message of an exception always prints. *)
Lemma print_exn `{L : Lib} h a e w :
  encodable a = true -> print h (a ++ exn_str e) w = (inr tt, w).
Proof.
  intros Ha. apply print_ok. rewrite (printable_after h a _ Ha).
  apply printable_exn_str.
Qed.

Lemma fetch_succeeds env u w :
  fetch_failure env u = None ->
  exists r, net env u = Some r /\ error_status r = false /\
    forall A (k : Response -> M A),
      (response <- session_get env u ;; raise_for_status response ;; k response) w
      = k r (requested w u).
Proof.
  unfold fetch_failure. destruct (net env u) as [r|] eqn:E; [|discriminate].
  destruct (error_status r) eqn:S; [discriminate|]. intros _.
  exists r. repeat split; auto. intros A k.
  unfold bind, session_get, raise_for_status. rewrite E.
  fold (error_status r). now rewrite S.
Qed.

Lemma fetch_fails env u w e :
  fetch_failure env u = Some e ->
  forall A (k : Response -> M A),
    (response <- session_get env u ;; raise_for_status response ;; k response) w
    = (inl e, requested w u).
Proof.
  unfold fetch_failure. intros H A k.
  unfold bind, session_get, raise_for_status.
  destruct (net env u) as [r|] eqn:E.
  - fold (error_status r). destruct (error_status r); [|discriminate].
    injection H as <-. reflexivity.
  - injection H as <-. reflexivity.
Qed.

(* ================================================================== *)
(** * download_image and process_images *)

Section Images.

Context {L : Lib}.
Variable env : Env.
Variable self : WebpageToMarkdown.

Lemma img_done_extends ds w1 w2 attrs :
  extends w1 w2 -> img_done env self ds w1 attrs -> img_done env self ds w2 attrs.
Proof.
  intros E H c s Hsrc u Hu. destruct (H c s Hsrc u Hu) as [R F].
  split; [eapply extends_requests; eauto|].
  intros D. destruct (F D) as (I & r & N & W).
  split; [eapply extends_is_file; eauto|].
  exists r. split; [exact N|]. eapply extends_files; eauto.
Qed.

(** The handler of [download_image]: the message, then the URL. *)
Lemma download_image_handler u e w :
  (print (stdout_errors env) (Msg.image_failed ++ u ++ lit ": " ++ exn_str e) ;;
   ret u) w
  = (if printable (stdout_errors env) u then inr u else inl UnicodeEncodeError, w).
Proof.
  unfold bind.
  destruct (printable (stdout_errors env) u) eqn:P.
  - rewrite print_ok; [reflexivity|].
    rewrite printable_message; [exact P|reflexivity|reflexivity].
  - rewrite print_fails; [reflexivity|].
    rewrite printable_message; [exact P|reflexivity|reflexivity].
Qed.

Lemma download_image_spec src w :
  exists w',
    download_image env self src None w
    = (if image_reported env self (dirs w) src
       then inr (local_path env self (dirs w) src)
       else inl UnicodeEncodeError, w') /\
    extends w w' /\ image_done env self (dirs w) w' src.
Proof.
  unfold download_image, local_path, image_done, image_reported.
  destruct (urljoin (url self) src) as [u|] eqn:J.
  - unfold downloaded, try_except.
    assert (Hreq : In u (requests (requested w u))).
    { simpl. apply in_or_app. right. now left. }
    destruct (fetch_failure env u) as [e|] eqn:F.
    + rewrite (fetch_fails _ _ w _ F). cbv beta iota.
      rewrite download_image_handler.
      exists (requested w u). simpl.
      split; [reflexivity|]. split; [apply extends_requested|].
      intros v [= <-]. rewrite F. split; [exact Hreq|discriminate].
    + destruct (fetch_succeeds _ _ w F) as (r & N & _ & ->).
      destruct (encodable u) eqn:X; cbn [andb].
      2:{ unfold bind at 1. unfold raise. cbv beta iota.
          rewrite download_image_handler.
          exists (requested w u). simpl.
          split; [reflexivity|]. split; [apply extends_requested|].
          intros v [= <-]. rewrite F, X. split; [exact Hreq|discriminate]. }
      unfold bind at 1. unfold ret at 1. cbv beta iota.
      destruct (can_write (dirs w) (pjoin (images_dir self) (generated_name u))) eqn:C.
      * unfold bind at 1. rewrite write_file_ok by (auto; reflexivity).
        eexists. split; [reflexivity|]. split.
        -- eapply extends_trans; [apply extends_requested|apply extends_written].
        -- intros v [= <-]. split; [exact Hreq|].
           intros _. split; [now apply is_file_written|].
           exists r. split; [exact N|]. now left.
      * unfold bind at 1.
        destruct (write_file_fails (pjoin (images_dir self) (generated_name u))
                    (Binary (content r)) (requested w u) C) as [e ->].
        cbv beta iota. rewrite download_image_handler.
        exists (requested w u). simpl.
        split; [reflexivity|]. split; [apply extends_requested|].
        intros v [= <-]. rewrite F, X, C. split; [exact Hreq|discriminate].
  - rewrite download_image_handler.
    exists w. split; [reflexivity|]. split; [apply extends_refl|]. discriminate.
Qed.

Lemma process_image_spec attrs w :
  exists w',
    process_image env self attrs w
    = (if img_reported env self (dirs w) attrs
       then inr (rewrite_img env self (dirs w) attrs)
       else inl UnicodeEncodeError, w') /\
    extends w w' /\ img_done env self (dirs w) w' attrs.
Proof.
  unfold process_image, rewrite_img, img_done, img_reported.
  destruct (get attrs (lit "src")) as [[|c s]|] eqn:G;
    try (exists w; split; [reflexivity|]; split; [apply extends_refl|discriminate]).
  destruct (download_image_spec (c :: s) w) as (w' & D & E & I).
  exists w'. unfold bind. rewrite D. unfold ret.
  split; [|split; [exact E|]].
  - destruct (image_reported env self (dirs w) (c :: s)); [|reflexivity].
    destruct (truthy _); reflexivity.
  - intros c' s' [= <- <-]. exact I.
Qed.

Lemma nodes_reported_app ds a b :
  nodes_reported env self ds (a ++ b)
  = nodes_reported env self ds a && nodes_reported env self ds b.
Proof. apply forallb_app. Qed.

Lemma mapM_process_node kids :
  Forall (node_processed env self) kids ->
  forall w, exists w',
    mapM (process_node env self) kids w
    = (loop_result env self w (flat_map (fun k => k :: descendants k) kids)
         (map (map_img (rewrite_img env self (dirs w))) kids), w') /\
    extends w w' /\
    (nodes_reported env self (dirs w) (flat_map (fun k => k :: descendants k) kids)
     = true ->
     forall name attrs ks,
       In (Tag name attrs ks) (flat_map (fun k => k :: descendants k) kids) ->
       str_eqb name (lit "img") = true -> img_done env self (dirs w) w' attrs).
Proof.
  induction 1 as [|k kids Hk _ IH]; intros w.
  - exists w. split; [reflexivity|]. split; [apply extends_refl|]. intros _ ? ? ? [].
  - destruct (Hk w) as (w1 & R1 & E1 & D1).
    change (flat_map (fun k0 => k0 :: descendants k0) (k :: kids))
      with ((k :: descendants k) ++ flat_map (fun k0 => k0 :: descendants k0) kids).
    unfold loop_result in *. rewrite nodes_reported_app.
    simpl mapM. unfold bind at 1. rewrite R1.
    destruct (nodes_reported env self (dirs w) (k :: descendants k)) eqn:P1.
    + destruct (IH w1) as (w2 & R2 & E2 & D2).
      assert (Hd : dirs w1 = dirs w) by apply E1.
      rewrite Hd in R2, D2.
      exists w2. unfold bind at 1. rewrite R2. rewrite andb_true_l.
      split; [|split; [eapply extends_trans; eauto|]].
      * destruct (nodes_reported env self (dirs w)
                    (flat_map (fun k0 => k0 :: descendants k0) kids)); reflexivity.
      * intros P2 name attrs ks Hin Himg.
        apply in_app_or in Hin as [Hin|Hin].
        -- eapply img_done_extends; [exact E2|]. eapply (D1 eq_refl); eauto.
        -- eapply (D2 P2); eauto.
    + exists w1. split; [reflexivity|]. split; [exact E1|]. discriminate.
Qed.

Lemma process_node_spec n : node_processed env self n.
Proof.
  induction n as [name attrs kids IH|k t] using node_ind'; intros w.
  - simpl process_node.
    set (here := if str_eqb name (lit "img") then img_reported env self (dirs w) attrs
                 else true).
    assert (Hattrs : exists w1,
      (if str_eqb name (lit "img") then process_image env self attrs else ret attrs) w
      = (if here
         then inr (if str_eqb name (lit "img") then rewrite_img env self (dirs w) attrs
                   else attrs)
         else inl UnicodeEncodeError, w1) /\
      extends w w1 /\
      (str_eqb name (lit "img") = true -> img_done env self (dirs w) w1 attrs)).
    { subst here. destruct (str_eqb name (lit "img")).
      - destruct (process_image_spec attrs w) as (w1 & R & E & D). eauto.
      - exists w. split; [reflexivity|]. split; [apply extends_refl|discriminate]. }
    destruct Hattrs as (w1 & R1 & E1 & D1).
    unfold loop_result.
    change (nodes_reported env self (dirs w)
              (Tag name attrs kids :: descendants (Tag name attrs kids)))
      with (here && nodes_reported env self (dirs w)
                      (flat_map (fun k => k :: descendants k) kids)).
    unfold bind at 1. rewrite R1.
    destruct here eqn:Hh.
    + destruct (mapM_process_node kids IH w1) as (w2 & R2 & E2 & D2).
      assert (Hd : dirs w1 = dirs w) by apply E1.
      unfold loop_result in R2. rewrite Hd in R2, D2.
      exists w2. unfold bind at 1. rewrite R2. rewrite andb_true_l.
      split; [|split; [eapply extends_trans; eauto|]].
      * destruct (nodes_reported env self (dirs w)
                    (flat_map (fun k0 => k0 :: descendants k0) kids)); reflexivity.
      * intros P2 name' attrs' ks [Heq|Hin] Himg.
        -- injection Heq as <- <- <-. eapply img_done_extends; eauto.
        -- simpl in Hin. eapply (D2 P2); eauto.
    + exists w1. split; [reflexivity|]. split; [exact E1|]. discriminate.
  - exists w. split; [reflexivity|]. split; [apply extends_refl|].
    intros _ name attrs kids [Heq|[]]. discriminate.
Qed.

Lemma process_images_spec soup w :
  exists w',
    process_images env self soup w
    = (if images_reported env self (dirs w) soup
       then inr (map_img_below (rewrite_img env self (dirs w)) soup)
       else inl UnicodeEncodeError, w') /\
    extends w w' /\
    (images_reported env self (dirs w) soup = true ->
     forall name attrs kids,
       In (Tag name attrs kids) (descendants soup) ->
       str_eqb name (lit "img") = true -> img_done env self (dirs w) w' attrs).
Proof.
  destruct soup as [name attrs kids|k t].
  - assert (IH : Forall (node_processed env self) kids).
    { apply Forall_forall. intros k _. apply process_node_spec. }
    destruct (mapM_process_node kids IH w) as (w' & R & E & D).
    exists w'. unfold process_images, bind. rewrite R.
    unfold loop_result, images_reported. simpl descendants.
    split; [|split; [exact E|exact D]].
    destruct (nodes_reported env self (dirs w) _); reflexivity.
  - exists w. split; [reflexivity|]. split; [apply extends_refl|]. intros _ ? ? ? [].
Qed.

End Images.

(* ================================================================== *)
(** * convert_to_markdown *)

Lemma bind_inr {A B} (m : M A) (k : A -> M B) w x w' :
  m w = (inr x, w') -> bind m k w = k x w'.
Proof. unfold bind. now intros ->. Qed.

Lemma bind_inl {A B} (m : M A) (k : A -> M B) w e w' :
  m w = (inl e, w') -> bind m k w = (inl e, w').
Proof. unfold bind. now intros ->. Qed.

Lemma try_inr {A} (m : M A) (hd : exn -> M A) w x w' :
  m w = (inr x, w') -> try_except m hd w = (inr x, w').
Proof. unfold try_except. now intros ->. Qed.

Lemma try_inl {A} (m : M A) (hd : exn -> M A) w e w' :
  m w = (inl e, w') -> try_except m hd w = hd e w'.
Proof. unfold try_except. now intros ->. Qed.

Section Convert.

Context {L : Lib}.
Variable env : Env.
Variable self : WebpageToMarkdown.

(** The handler of [convert_to_markdown]: the message, then the
    exception again. *)
Lemma convert_handler (A : Type) e w :
  (print (stdout_errors env) (Msg.failed ++ exn_str e) ;; @raise A e) w = (inl e, w).
Proof.
  erewrite bind_inr by (apply print_exn; reflexivity). reflexivity.
Qed.

(** A URL that cannot be printed: nothing is done. *)
Lemma convert_unprintable w :
  printable (stdout_errors env) (url self) = false ->
  convert_to_markdown env self w = (inl UnicodeEncodeError, w).
Proof.
  intros P. unfold convert_to_markdown.
  apply bind_inl. apply print_fails. now rewrite printable_after.
Qed.

Lemma convert_fetch_failure w e :
  printable (stdout_errors env) (url self) = true ->
  fetch_failure env (url self) = Some e ->
  convert_to_markdown env self w = (inl e, requested w (url self)).
Proof.
  intros P F. unfold convert_to_markdown.
  erewrite bind_inr by (apply print_ok; now rewrite printable_after).
  erewrite try_inl by (apply (fetch_fails _ _ w _ F)).
  apply convert_handler.
Qed.

(** A conversion whose page is served: the images are processed over the
    whole cleaned tree, then the file is written if it can be, and the
    two last messages are printed. *)
Lemma convert_page_served w r :
  printable (stdout_errors env) (url self) = true ->
  net env (url self) = Some r -> error_status r = false ->
  let out := output_file self (title_text (page_of r)) in
  let text := markdown_text env self (dirs w) r in
  let w1 := after_images env self w r in
    extends w w1 /\
    In (url self) (requests w1) /\
    (images_reported env self (dirs w) (clean_html (page_of r)) = false ->
     convert_to_markdown env self w = (inl UnicodeEncodeError, w1)) /\
    (images_reported env self (dirs w) (clean_html (page_of r)) = true ->
     (forall name attrs kids,
         In (Tag name attrs kids) (descendants (clean_html (page_of r))) ->
         str_eqb name (lit "img") = true -> img_done env self (dirs w) w1 attrs) /\
     (can_write (dirs w) out = false ->
      exists e, convert_to_markdown env self w = (inl e, w1)) /\
     (can_write (dirs w) out = true -> encodable text = false ->
      convert_to_markdown env self w
      = (inl UnicodeEncodeError, written w1 out (Utf8Text []))) /\
     (can_write (dirs w) out = true -> encodable text = true ->
      convert_to_markdown env self w
      = (if saved_reported env self r then inr out else inl UnicodeEncodeError,
         written w1 out (Utf8Text text)))).
Proof.
  intros P N S out text w1.
  assert (F : fetch_failure env (url self) = None).
  { unfold fetch_failure. now rewrite N, S. }
  destruct (fetch_succeeds _ _ w F) as (r' & N' & _ & Hk).
  assert (r' = r) by congruence. subst r'.
  destruct (process_images_spec env self (clean_html (page_of r)) (requested w (url self)))
    as (w1' & R & E & D).
  assert (w1' = w1) by (subst w1; unfold after_images; now rewrite R). subst w1'.
  simpl dirs in R, D.
  split; [eapply extends_trans; [apply extends_requested|exact E]|].
  split.
  { eapply extends_requests; [exact E|]. simpl. apply in_or_app. right. now left. }
  assert (Hd : dirs w1 = dirs w) by (destruct E as [-> _]; reflexivity).
  unfold convert_to_markdown.
  erewrite bind_inr by (apply print_ok; now rewrite printable_after).
  unfold try_except. rewrite Hk.
  erewrite bind_inr by (apply print_ok; apply encodable_printable; reflexivity).
  fold (page_of r).
  split.
  - intros I. rewrite I in R.
    erewrite bind_inl by exact R. apply convert_handler.
  - intros I. rewrite I in R. split; [exact (D I)|].
    erewrite bind_inr by exact R.
    erewrite bind_inr by (apply print_ok; apply encodable_printable; reflexivity).
    fold (processed env self (dirs w) r). fold text. fold out.
    split; [|split].
    + intros C.
      destruct (write_file_fails out (Utf8Text text) w1) as [e He];
        [rewrite Hd; exact C|].
      exists e. erewrite bind_inl by exact He. apply convert_handler.
    + intros C X.
      erewrite bind_inl by (apply write_file_unencodable; [rewrite Hd; exact C|exact X]).
      apply convert_handler.
    + intros C X.
      erewrite bind_inr by (apply write_file_ok; [rewrite Hd; exact C|exact X]).
      unfold saved_reported. fold out.
      destruct (printable (stdout_errors env) (path_str out)) eqn:P1.
      * erewrite bind_inr by (apply print_ok; now rewrite printable_after).
        destruct (printable (stdout_errors env) (path_str (images_dir self))) eqn:P2.
        -- erewrite bind_inr by (apply print_ok; now rewrite printable_after).
           reflexivity.
        -- erewrite bind_inl by (apply print_fails; now rewrite printable_after).
           apply convert_handler.
      * erewrite bind_inl by (apply print_fails; now rewrite printable_after).
        apply convert_handler.
Qed.

End Convert.

(* ================================================================== *)
(** * The option that skips images *)

Lemma mapM_ext {A B} (f g : A -> M B) l :
  Forall (fun x => forall w, f x w = g x w) l ->
  forall w, mapM f l w = mapM g l w.
Proof.
  induction 1 as [|x l Hx _ IH]; intros w; [reflexivity|].
  simpl. unfold bind. rewrite Hx. destruct (g x w) as [[e|y] w1]; [reflexivity|].
  now rewrite IH.
Qed.

Section IgnoreImages.

Context {L : Lib}.
Variable env : Env.
Variable self : WebpageToMarkdown.
Variable b : bool.

Lemma process_node_ignore_images n w :
  process_node env (set_ignore_images self b) n w = process_node env self n w.
Proof.
  revert w. induction n as [name attrs kids IH|k t] using node_ind'; intros w;
    [|reflexivity].
  simpl. unfold bind.
  change (process_image env (set_ignore_images self b) attrs)
    with (process_image env self attrs).
  destruct ((if str_eqb name (lit "img") then process_image env self attrs
             else ret attrs) w) as [[e|attrs'] w1]; [reflexivity|].
  now rewrite (mapM_ext _ _ kids IH).
Qed.

Lemma process_images_ignore_images soup w :
  process_images env (set_ignore_images self b) soup w = process_images env self soup w.
Proof.
  destruct soup as [name attrs kids|k t]; [|reflexivity].
  unfold process_images, bind. rewrite (mapM_ext _ (process_node env self) kids).
  - reflexivity.
  - apply Forall_forall. intros n _. apply process_node_ignore_images.
Qed.

(** The option [ignore_images] changes the text of the Markdown file and
    nothing else: the same requests are made, the same directories exist
    and the same files are written, in the same order. *)
Lemma ignore_images_same_effects w :
  let w1 := snd (convert_to_markdown env self w) in
  let w2 := snd (convert_to_markdown env (set_ignore_images self b) w) in
  requests w2 = requests w1 /\ dirs w2 = dirs w1 /\
  map fst (files w2) = map fst (files w1).
Proof.
  set (self' := set_ignore_images self b).
  destruct (printable (stdout_errors env) (url self)) eqn:P.
  2:{ rewrite (convert_unprintable env self w P).
      rewrite (convert_unprintable env self' w P). auto. }
  destruct (fetch_failure env (url self)) as [e|] eqn:F.
  { rewrite (convert_fetch_failure env self w e P F).
    rewrite (convert_fetch_failure env self' w e P F). auto. }
  destruct (fetch_succeeds _ _ w F) as (r & N & S & _).
  destruct (convert_page_served env self w r P N S) as (_ & _ & A0 & A1).
  destruct (convert_page_served env self' w r P N S) as (_ & _ & B0 & B1).
  assert (Hw : after_images env self' w r = after_images env self w r).
  { unfold after_images. subst self'. now rewrite process_images_ignore_images. }
  rewrite Hw in B0, B1.
  change (images_reported env self' (dirs w) (clean_html (page_of r)))
    with (images_reported env self (dirs w) (clean_html (page_of r))) in B0, B1.
  change (output_file self' (title_text (page_of r)))
    with (output_file self (title_text (page_of r))) in B1.
  destruct (images_reported env self (dirs w) (clean_html (page_of r))).
  2:{ rewrite (A0 eq_refl), (B0 eq_refl). auto. }
  destruct (A1 eq_refl) as (_ & A2 & A3 & A4).
  destruct (B1 eq_refl) as (_ & B2 & B3 & B4).
  destruct (can_write (dirs w) (output_file self (title_text (page_of r)))).
  2:{ destruct (A2 eq_refl) as [e1 ->]. destruct (B2 eq_refl) as [e2 ->]. auto. }
  destruct (encodable (markdown_text env self (dirs w) r));
    [rewrite (A4 eq_refl eq_refl)|rewrite (A3 eq_refl eq_refl)];
    (destruct (encodable (markdown_text env self' (dirs w) r));
     [rewrite (B4 eq_refl eq_refl)|rewrite (B3 eq_refl eq_refl)]); simpl; auto.
Qed.

End IgnoreImages.

(* ================================================================== *)
(** * The file name *)

(** Substituting [rep] for every character of a class. *)
Lemma sub_one_class cls rep s :
  Re.sub (Re.Regex [Re.Atom cls 1 (Some 1)] []) [Re.Chars rep] s
  = flat_map (fun c => if cls c then rep else [c]) s.
Proof.
  unfold Re.sub. induction s as [|c s IH]; [reflexivity|].
  cbn [Re.sub_from Re.atoms Re.match_here Re.back Re.run Re.cls Re.hi Re.lo flat_map].
  destruct (cls c) eqn:C.
  - rewrite run_cap0. cbn. rewrite app_nil_r. f_equal. exact IH.
  - cbn. f_equal. exact IH.
Qed.

Lemma sub_unsafe title :
  Re.sub re_unsafe [Re.Chars (lit "_")] title = replace_unsafe_spec title.
Proof.
  unfold re_unsafe. rewrite sub_one_class. unfold replace_unsafe_spec.
  induction title as [|c t IH]; [reflexivity|].
  cbn [flat_map map]. rewrite IH. now destruct (char_in unsafe_chars c).
Qed.

Lemma replace_unsafe_spec_safe title c :
  In c (replace_unsafe_spec title) -> char_in unsafe_chars c = false.
Proof.
  unfold replace_unsafe_spec. intros H. apply in_map_iff in H as (x & <- & _).
  destruct (char_in unsafe_chars x) eqn:E; [reflexivity|exact E].
Qed.

(* ================================================================== *)
(** * The source of a processed image *)



(* ================================================================== *)
(** * The constructor *)

Lemma is_dir_more w w' p :
  (forall d, exists_dir (dirs w) d = true -> exists_dir (dirs w') d = true) ->
  is_dir w p = true -> is_dir w' p = true.
Proof.
  intros Hm. unfold is_dir.
  destruct (resolve (dirs w) p) as [q|] eqn:R; [|discriminate].
  rewrite (resolve_mono _ _ _ _ Hm R). apply Hm.
Qed.

Lemma mkdir_exist_ok_there p w :
  is_dir w p = true -> mkdir_exist_ok p w = (inr tt, w).
Proof.
  unfold is_dir, mkdir_exist_ok.
  destruct (resolve (dirs w) p) as [q|]; [|discriminate]. now intros ->.
Qed.

(** Every way [mkdir_exist_ok] can end. *)
Lemma mkdir_exist_ok_cases p w :
  (is_dir w p = true /\ mkdir_exist_ok p w = (inr tt, w)) \/
  (can_create w p = true /\
   mkdir_exist_ok p w = (inr tt, mkWorld (canon p :: dirs w) (files w) (requests w))) \/
  (is_dir w p = false /\ can_create w p = false /\
   exists e, mkdir_exist_ok p w = (inl e, w)).
Proof.
  unfold is_dir, can_create, vacant, mkdir_exist_ok.
  destruct (resolve (dirs w) p) as [q|] eqn:R; [|right; right; eauto].
  rewrite <- (resolve_canon _ _ _ R).
  destruct (exists_dir (dirs w) q); [now left|].
  destruct (lookup_file (files w) q); [right; right; eauto|right; left; auto].
Qed.

Lemma is_dir_created w p :
  can_create w p = true ->
  is_dir (mkWorld (canon p :: dirs w) (files w) (requests w)) p = true.
Proof.
  unfold can_create, is_dir. simpl.
  destruct (resolve (dirs w) p) as [q|] eqn:R; [|discriminate]. intros _.
  rewrite (resolve_mono _ (canon p :: dirs w) _ _ (exists_dir_cons _ _) R).
  rewrite (resolve_canon _ _ _ R). apply exists_dir_here.
Qed.

(** What a successful [mkdir_exist_ok] leaves. *)
Lemma mkdir_exist_ok_done p x y :
  mkdir_exist_ok p x = (inr tt, y) ->
  is_dir y p = true /\ requests y = requests x /\ files y = files x /\
  (dirs y = dirs x \/ dirs y = canon p :: dirs x) /\
  forall q, is_dir x q = true -> is_dir y q = true.
Proof.
  destruct (mkdir_exist_ok_cases p x) as [[D E]|[[C E]|(_ & _ & e & E)]];
    rewrite E; intros [= <-].
  - repeat split; auto.
  - split; [now apply is_dir_created|]. repeat split; auto.
    intros q. apply is_dir_more. simpl. apply exists_dir_cons.
Qed.

Lemma mkdir_exist_ok_frame p w :
  let w' := snd (mkdir_exist_ok p w) in
  files w' = files w /\ requests w' = requests w /\
  (dirs w' = dirs w \/ dirs w' = canon p :: dirs w) /\
  (forall q, is_dir w q = true -> is_dir w' q = true).
Proof.
  destruct (mkdir_exist_ok_cases p w) as [[D E]|[[C E]|(_ & _ & e & E)]];
    rewrite E; simpl; repeat split; auto.
  intros q. apply is_dir_more. simpl. apply exists_dir_cons.
Qed.

Lemma init_dirs (u out : str) (fname : option str) (w w1 : World)
    (self : WebpageToMarkdown) :
  init u out fname w = (inr self, w1) ->
  self = mkConverter u (Path_of out) (pjoin (Path_of out) (lit "images")) fname
           (mkHTML2Text false false false 0 true true) /\
  is_dir w1 (Path_of out) = true /\
  is_dir w1 (pjoin (Path_of out) (lit "images")) = true /\
  requests w1 = requests w /\ files w1 = files w.
Proof.
  unfold init, bind. intros H.
  destruct (mkdir_exist_ok (Path_of out) w) as [[e|[]] wa] eqn:M1; [discriminate|].
  destruct (mkdir_exist_ok (pjoin (Path_of out) (lit "images")) wa)
    as [[e|[]] wb] eqn:M2; [discriminate|].
  unfold ret in H. injection H as <- <-. split; [reflexivity|].
  destruct (mkdir_exist_ok_done _ _ _ M1) as (Da & Ra & Fa & _ & Ka).
  destruct (mkdir_exist_ok_done _ _ _ M2) as (Db & Rb & Fb & _ & Kb).
  repeat split; auto; congruence.
Qed.







(* ================================================================== *)
(** * The claims *)

(** C1 (the code departs from the claim). Post-processing is not
    idempotent: on a heading between two lines of text, one newline on
    each side, the first pass puts one blank line around the heading and
    the second pass puts two. *)
Theorem post_process_markdown_twice :
  let s := lit "a" ++ [NL] ++ lit "# h" ++ [NL] ++ lit "b" in
  post_process_markdown s
  = lit "a" ++ [NL; NL] ++ lit "# h" ++ [NL; NL] ++ lit "b" /\
  post_process_markdown (post_process_markdown s)
  = lit "a" ++ [NL; NL; NL] ++ lit "# h" ++ [NL; NL; NL] ++ lit "b" /\
  post_process_markdown (post_process_markdown s) <> post_process_markdown s.
Proof.
  vm_compute. repeat split; discriminate.
Qed.

(** C5 (the code departs from the claim). A heading that already has one
    blank line above and below comes out with two blank lines on each
    side; and a heading line right under a line holding a lone [#] keeps
    no blank line above it. *)
Theorem heading_blank_lines :
  post_process_markdown (lit "a" ++ [NL; NL] ++ lit "# h" ++ [NL; NL] ++ lit "b")
  = lit "a" ++ [NL; NL; NL] ++ lit "# h" ++ [NL; NL; NL] ++ lit "b" /\
  post_process_markdown (lit "#" ++ [NL] ++ lit "# b") = lit "#" ++ [NL] ++ lit "# b".
Proof.
  vm_compute. split; reflexivity.
Qed.

(** C6 (the code departs from the claim). [clean_html] drops the script
    of the example page but keeps its comment, whose text does not hold
    the characters that open a comment; and it drops an ordinary text
    that does hold them. *)
Theorem clean_html_comments :
  In (Str Comment (lit " note ")) (descendants (clean_html Example.doc)) /\
  find_all noise_tags (clean_html Example.doc) = [] /\
  clean_html Example.doc_text = Tag (lit "[document]") [] [Tag (lit "p") [] []].
Proof.
  split; [find_node|]. vm_compute. split; reflexivity.
Qed.

(** C4 (the code departs from the claim). Run with [--no-images], [main]
    still requests every image of the example page and saves the two
    that are served under the images directory. *)
Theorem no_images_still_downloads :
  let (status, w') :=
    main (L := Example.lib) Example.env (Example.args true) Example.world in
  status = 0%Z /\
  requests w'
  = [Example.page_url; lit "https://example.com/a.png";
     lit "https://example.com/b.png"; lit "https://example.com/c.png"] /\
  read_file w' [lit "out"; lit "images"; lit "img_8c11d92f.png"]
  = Some (Binary Example.png) /\
  read_file w' [lit "out"; lit "images"; lit "img_ca9f6b8a.png"]
  = Some (Binary Example.png).
Proof.
  vm_compute. repeat split.
Qed.

(** The text of the Markdown file holds the URL of the page: where the
    text can be encoded, the URL can be printed. *)
Lemma markdown_text_url `{L : Lib} env self ds r h :
  encodable (markdown_text env self ds r) = true -> printable h (url self) = true.
Proof.
  intros H. apply encodable_printable.
  unfold markdown_text, metadata in H. rewrite !encodable_app in H.
  repeat match goal with
         | X : _ && _ = true |- _ => apply andb_true_iff in X; destruct X
         end.
  assumption.
Qed.

(** C2. When the GET of the page is answered with an error status (404,
    or any status from 400 to 599), [convert_to_markdown] raises and the
    files and directories are as before: no Markdown file is created.
    The exception is the HTTP error; only a page URL that cannot be
    printed makes the conversion raise earlier, before any request. *)
Theorem convert_raises_on_error_status `{L : Lib} (env : Env)
    (self : WebpageToMarkdown) (w : World) (r : Response) :
  net env (url self) = Some r ->
  (400 <= status_code r < 600)%Z ->
  exists e w',
    convert_to_markdown env self w = (inl e, w') /\
    files w' = files w /\ dirs w' = dirs w /\
    (printable (stdout_errors env) (url self) = true ->
     e = HTTPError (status_code r) /\ w' = requested w (url self)).
Proof.
  intros N S.
  destruct (printable (stdout_errors env) (url self)) eqn:P.
  - exists (HTTPError (status_code r)), (requested w (url self)).
    split; [|repeat split; reflexivity].
    apply convert_fetch_failure; [exact P|].
    unfold fetch_failure, error_status. rewrite N.
    replace (400 <=? status_code r)%Z with true by (symmetry; apply Z.leb_le; lia).
    replace (status_code r <? 600)%Z with true by (symmetry; apply Z.ltb_lt; lia).
    reflexivity.
  - exists UnicodeEncodeError, w.
    split; [apply convert_unprintable; exact P|]. repeat split; discriminate.
Qed.

Lemma convert_raises_on_error_status_witness :
  exists w',
    convert_to_markdown (L := Example.lib) Example.env404 Example.converter
      Example.world_ready
    = (inl (HTTPError 404), w') /\
    files w' = files Example.world_ready /\ dirs w' = dirs Example.world_ready.
Proof.
  destruct (convert_raises_on_error_status (L := Example.lib) Example.env404
              Example.converter Example.world_ready (mkResponse 404 []))
    as (e & w' & R & F & D & K).
  - reflexivity.
  - simpl. lia.
  - exists w'. destruct (K eq_refl) as [He _]. rewrite He in R. auto.
Defined.



(** C7, as stated, fails: a file name that was supplied is not always
    the base name of the output file.  The empty string, as [-f ""]
    gives it, counts as no name, and the title is used. *)
Lemma empty_filename_not_used :
  ~ (forall (L : Lib) (self : WebpageToMarkdown) (title f : str),
       filename self = Some f -> safe_title self title = f).
Proof.
  intros H.
  specialize (H Example.lib Cases.converter_empty_name (lit "Hi") [] eq_refl).
  discriminate H.
Qed.

(** C7, amended. The base name of the output file is the explicit file
    name when one that is not empty is given; otherwise (no name, or the
    empty one) it is the title with each of the nine characters replaced
    by an underscore, cut to its first 50 characters, unless that is
    blank, and then it is [webpage_] followed by the hash of the URL
    modulo 10000.  A conversion whose page is served, that gets through
    its images, and whose output file can be opened and takes the text,
    writes the text, as UTF-8, to the output directory joined with that
    name and [.md]; it returns that path if it can print it. *)
Theorem output_file_name `{L : Lib} (env : Env) (self : WebpageToMarkdown)
    (title : str) :
  (forall c f, filename self = Some (c :: f) -> safe_title self title = c :: f) /\
  (truthy (filename self) = false ->
   let t := firstn 50 (replace_unsafe_spec title) in
   List.length t <= 50 /\
   (forall c, In c t -> char_in unsafe_chars c = false) /\
   (0 <= hash (url self) mod 10000 < 10000)%Z /\
   safe_title self title
   = if blank t then lit "webpage_" ++ str_of_Z (hash (url self) mod 10000)
     else t) /\
  (forall w r,
     net env (url self) = Some r -> error_status r = false ->
     title = title_text (page_of r) ->
     images_reported env self (dirs w) (clean_html (page_of r)) = true ->
     can_write (dirs w) (output_file self title) = true ->
     encodable (markdown_text env self (dirs w) r) = true ->
     exists res w',
       convert_to_markdown env self w = (res, w') /\
       read_file w' (pjoin (output_dir self) (safe_title self title ++ lit ".md"))
       = Some (Utf8Text (markdown_text env self (dirs w) r)) /\
       (saved_reported env self r = true ->
        res = inr (pjoin (output_dir self) (safe_title self title ++ lit ".md")))).
Proof.
  split; [|split].
  - intros c f Hf. unfold safe_title. now rewrite Hf.
  - intros Hn t. split; [|split; [|split]].
    + subst t. rewrite length_firstn. lia.
    + intros c Hc. eapply replace_unsafe_spec_safe, In_firstn, Hc.
    + apply Z.mod_pos_bound. lia.
    + unfold safe_title, blank.
      destruct (filename self) as [[|c f]|]; try discriminate;
        rewrite sub_unsafe; fold t; destruct (strip t); reflexivity.
  - intros w r N S -> I C X.
    pose proof (markdown_text_url env self (dirs w) r (stdout_errors env) X) as P.
    destruct (convert_page_served env self w r P N S) as (E & _ & _ & A).
    destruct (A I) as (_ & _ & _ & Hok).
    eexists. eexists. split; [exact (Hok C X)|].
    fold (output_file self (title_text (page_of r))). split.
    + apply read_file_written.
      replace (dirs (after_images env self w r)) with (dirs w)
        by (symmetry; apply E).
      exact C.
    + now intros ->.
Qed.

Lemma output_file_name_witness :
  safe_title (L := Example.lib) Example.converter_named (lit "Hi") = lit "notes" /\
  safe_title (L := Example.lib) Cases.converter_empty_name (lit "Hi") = lit "Hi" /\
  safe_title (L := Example.lib) Example.converter (lit "a/b: c?") = lit "a_b_ c_" /\
  exists w',
    convert_to_markdown (L := Example.lib) Example.env Example.converter
      Example.world_ready
    = (inr [lit "out"; lit "Hi.md"], w') /\
    read_file w' [lit "out"; lit "Hi.md"]
    = Some (Utf8Text (markdown_text (L := Example.lib) Example.env Example.converter
                        (dirs Example.world_ready) (mkResponse 200 Example.html))).
Proof.
  split; [|split; [|split]].
  - exact (proj1 (output_file_name (L := Example.lib) Example.env
                    Example.converter_named (lit "Hi")) 110%N (lit "otes") eq_refl).
  - exact (proj2 (proj2 (proj2
      (proj1 (proj2 (output_file_name (L := Example.lib) Example.env
                       Cases.converter_empty_name (lit "Hi"))) eq_refl)))).
  - exact (proj2 (proj2 (proj2
      (proj1 (proj2 (output_file_name (L := Example.lib) Example.env
                       Example.converter (lit "a/b: c?"))) eq_refl)))).
  - destruct (proj2 (proj2 (output_file_name (L := Example.lib) Example.env
                              Example.converter (lit "Hi")))
                Example.world_ready (mkResponse 200 Example.html)
                eq_refl eq_refl eq_refl eq_refl eq_refl eq_refl)
      as (res & w' & R & F & K).
    exists w'. rewrite (K eq_refl) in R. split; [exact R|exact F].
Defined.

(** C8. A download that goes through, with no name given, saves the image
    as [img_], the first 8 characters of the MD5 digest of the absolute
    URL, then the extension of the path of that URL, or [.jpg] when the
    path has none, and returns [images/] followed by that name.  The name
    depends on the absolute URL alone: any converter, source and world
    that reach the same absolute URL get the same name. *)
Theorem generated_image_name `{L : Lib} (env : Env) (self : WebpageToMarkdown)
    (src u : str) (w : World) :
  urljoin (url self) src = Some u ->
  downloaded env self (dirs w) u = true ->
  let ext := match splitext_ext (urlparse_path u) with
             | [] => lit ".jpg"
             | e => e
             end in
  let name := lit "img_" ++ firstn 8 (md5_hexdigest u) ++ ext in
  List.length (firstn 8 (md5_hexdigest u)) = 8 /\
  (exists w',
     download_image env self src None w = (inr (lit "images/" ++ name), w') /\
     is_file w' (pjoin (images_dir self) name) = true) /\
  (forall self2 src2 w2,
     urljoin (url self2) src2 = Some u ->
     downloaded env self2 (dirs w2) u = true ->
     exists w2',
       download_image env self2 src2 None w2 = (inr (lit "images/" ++ name), w2')).
Proof.
  intros J D ext name.
  assert (K : forall self' src' w0,
            urljoin (url self') src' = Some u ->
            downloaded env self' (dirs w0) u = true ->
            exists w',
              download_image env self' src' None w0 = (inr (lit "images/" ++ name), w') /\
              is_file w' (pjoin (images_dir self') name) = true).
  { intros self' src' w0 J' D'.
    destruct (download_image_spec env self' src' w0) as (w' & R & _ & I).
    exists w'. unfold local_path, image_reported in R. rewrite J', D' in R.
    split; [exact R|]. exact (proj1 (proj2 (I u J') D')). }
  split; [|split].
  - rewrite length_firstn, md5_hexdigest_length. reflexivity.
  - exact (K self src w J D).
  - intros self2 src2 w2 J2 D2.
    destruct (K self2 src2 w2 J2 D2) as (w2' & R & _). eauto.
Qed.

Lemma generated_image_name_witness :
  exists w',
    download_image (L := Example.lib) Example.env Example.converter (lit "/a.png")
      None Example.world_ready
    = (inr (lit "images/img_8c11d92f.png"), w') /\
    is_file w' [lit "out"; lit "images"; lit "img_8c11d92f.png"] = true.
Proof.
  exact (proj1 (proj2 (generated_image_name (L := Example.lib) Example.env
                         Example.converter (lit "/a.png")
                         (lit "https://example.com/a.png") Example.world_ready
                         eq_refl eq_refl))).
Defined.







(* ================================================================== *)
(** * Further properties *)

(* ================================================================== *)
(** * Further properties: cleaning *)

Lemma extract_all_id f n :
  (forall x, In x (descendants n) -> f x = false) -> extract_all f n = n.
Proof.
  induction n as [name attrs kids IH|k t] using node_ind'; [|reflexivity].
  intros Hn. rewrite extract_all_eq. f_equal.
  rewrite Forall_forall in IH.
  assert (Hk : forall k, In k kids -> f k = false).
  { intros k Hk. apply Hn, in_descendants_Tag. eauto. }
  assert (Hd : forall k, In k kids -> extract_all f k = k).
  { intros k Hin. apply IH; [exact Hin|].
    intros y Hy. apply Hn, in_descendants_Tag. eauto. }
  clear IH Hn. induction kids as [|k kids IHk]; [reflexivity|].
  simpl. rewrite (Hk k) by now left. simpl.
  rewrite (Hd k) by now left. f_equal.
  apply IHk; intros; [apply Hk|apply Hd]; now right.
Qed.

Lemma comment_filter_extract_all n :
  comment_filter n = false -> comment_filter (extract_all comment_filter n) = false.
Proof. destruct n; auto. Qed.

(** No string node that the filter selects is left after the second loop. *)
Lemma extract_all_done n x :
  In x (descendants (extract_all comment_filter n)) -> comment_filter x = false.
Proof.
  revert x. induction n as [name attrs kids IH|k t] using node_ind'; intros x.
  - rewrite extract_all_eq, in_descendants_Tag. intros (k & Hk & H).
    apply in_map_iff in Hk as (k0 & <- & Hk0).
    apply filter_In in Hk0 as [Hin Hn]. apply negb_true_iff in Hn.
    rewrite Forall_forall in IH. destruct H as [->|H].
    + now apply comment_filter_extract_all.
    + eapply IH; eauto.
  - intros [].
Qed.

(** X1. Whatever the page, no script, style, meta or link tag is left
    anywhere below the root after [clean_html]. *)
Theorem clean_html_leaves_no_noise_tag (soup : node) :
  Forall (fun x => has_name noise_tags x = false) (descendants (clean_html soup)).
Proof.
  apply Forall_forall. intros x Hx. unfold clean_html in Hx.
  eapply extract_all_free; [|exact Hx]. apply decompose_all_free.
Qed.

(** X2. Cleaning a cleaned page changes nothing. *)
Theorem clean_html_idempotent (soup : node) :
  clean_html (clean_html soup) = clean_html soup.
Proof.
  unfold clean_html at 1. rewrite decompose_all_id.
  - apply extract_all_id. unfold clean_html. apply extract_all_done.
  - intros x Hx. unfold clean_html in Hx.
    eapply extract_all_free; [|exact Hx]. apply decompose_all_free.
Qed.

(* ================================================================== *)
(** * Further properties: post-processing *)

Lemma lstrip_strip s : lstrip (strip s) = strip s.
Proof.
  unfold strip. apply lstrip_fixed. pose proof (lstrip_head s) as Hh.
  destruct (rstrip_firstn (lstrip s)) as [m ->].
  destruct (lstrip s) as [|c t]; [now rewrite firstn_nil|].
  destruct m; [exact I|exact Hh].
Qed.

(** X3. The image step of [post_process_markdown] puts every image link
    back as it found it: post-processing is the collapse of blank lines,
    the heading step and the final strip. *)
Theorem post_process_image_step_is_void (content : str) :
  Re.sub re_image
    [Re.Chars (lit "!["); Re.Group 1; Re.Chars (lit "]("); Re.Group 2;
     Re.Chars (lit ")")] content = content /\
  post_process_markdown content
  = strip (Re.sub re_heading [Re.Chars [NL; NL]; Re.Group 2; Re.Chars [NL; NL]]
             (Re.sub re_blank_lines [Re.Chars [NL; NL]] content)).
Proof.
  split; [apply image_sub_identity|].
  unfold post_process_markdown. now rewrite image_sub_identity.
Qed.

(** X4. On a text without the character [#], post-processing twice is
    post-processing once. *)
Theorem post_process_idempotent_without_hash (content : str) :
  (forall c, In c content -> c <> 35%N) ->
  post_process_markdown (post_process_markdown content)
  = post_process_markdown content.
Proof.
  intros H. apply post_process_idempotent_hash_free.
  intros x Hx. unfold is_hash, char_eqb.
  apply N.eqb_neq. intros E. apply (H x Hx). now symmetry.
Qed.

Lemma post_process_idempotent_without_hash_witness :
  post_process_markdown (post_process_markdown (lit " a" ++ [NL; NL; NL; NL] ++ lit "b "))
  = post_process_markdown (lit " a" ++ [NL; NL; NL; NL] ++ lit "b ").
Proof.
  apply post_process_idempotent_without_hash.
  intros c Hc E. subst c. vm_compute in Hc. intuition discriminate.
Defined.

(** X5. The post-processed text never starts or ends with a whitespace
    character. *)
Theorem post_process_stripped (content : str) :
  strip (post_process_markdown content) = post_process_markdown content /\
  match post_process_markdown content with
  | c :: _ => isspace c = false
  | [] => True
  end /\
  match rev (post_process_markdown content) with
  | c :: _ => isspace c = false
  | [] => True
  end.
Proof.
  unfold post_process_markdown.
  set (t := Re.sub re_heading _ _). split; [apply strip_idem|split].
  - rewrite <- lstrip_strip. apply lstrip_head.
  - unfold strip, rstrip. rewrite rev_involutive. apply lstrip_head.
Qed.

(** X6. On a text without the character [#], the post-processed text
    holds no three newlines in a row. *)
Theorem post_process_no_three_newlines (content : str) (pre post : str) :
  (forall c, In c content -> c <> 35%N) ->
  post_process_markdown content <> pre ++ [NL; NL; NL] ++ post.
Proof.
  intros H E.
  assert (Hf : hash_free content).
  { intros x Hx. apply N.eqb_neq. intros E'. apply (H x Hx). now symmetry. }
  rewrite (post_process_hash_free content Hf) in E.
  pose proof (no3_strip _ (collapse_no3 content) (List.length pre)) as N3.
  rewrite E in N3. rewrite skipn_app, Nat.sub_diag, skipn_all in N3.
  simpl in N3. unfold nlrun in N3. simpl in N3. lia.
Qed.

Lemma post_process_no_three_newlines_witness :
  post_process_markdown (lit "a" ++ [NL; NL; NL; NL] ++ lit "b")
  <> lit "a" ++ [NL; NL; NL] ++ lit "b".
Proof.
  apply (post_process_no_three_newlines _ (lit "a") (lit "b")).
  intros c Hc E. subst c. vm_compute in Hc. intuition discriminate.
Defined.

(* ================================================================== *)
(** * Further properties: images *)

Section MoreImages.

Context {L : Lib}.
Variable env : Env.
Variable self : WebpageToMarkdown.

(** Every way [download_image] can end. *)
Lemma download_image_cases src name w :
  exists res w',
    download_image env self src name w = (res, w') /\
    dirs w' = dirs w /\
    requests w' = requests w ++ asked self src /\
    (files w' = files w \/
     exists u n r,
       urljoin (url self) src = Some u /\ net env u = Some r /\
       res = inr (lit "images/" ++ n) /\
       files w' = (canon (pjoin (images_dir self) n), Binary (content r)) :: files w) /\
    (forall e, res = inl e ->
       e = UnicodeEncodeError /\ files w' = files w /\
       printable (stdout_errors env) (reported self src) = false) /\
    (printable (stdout_errors env) (reported self src) = true -> exists p, res = inr p).
Proof.
  unfold download_image, asked, reported.
  destruct (urljoin (url self) src) as [u|] eqn:J.
  - unfold try_except.
    destruct (fetch_failure env u) as [e|] eqn:F.
    + rewrite (fetch_fails _ _ w _ F). cbv beta iota.
      rewrite download_image_handler.
      eexists. exists (requested w u). split; [reflexivity|].
      destruct (printable (stdout_errors env) u);
        repeat split; auto; try discriminate; try congruence;
        eauto.
    + destruct (fetch_succeeds _ _ w F) as (r & N & _ & ->).
      assert (Hname :
        (exists n,
           match name with
           | Some (c :: n) => ret (c :: n)
           | _ => if encodable u then ret (generated_name u)
                  else raise UnicodeEncodeError
           end = ret n) \/
        match name with
        | Some (c :: n) => ret (c :: n)
        | _ => if encodable u then ret (generated_name u)
               else raise UnicodeEncodeError
        end = raise UnicodeEncodeError).
      { destruct name as [[|c n]|]; [| eauto |]; destruct (encodable u); eauto. }
      destruct Hname as [[n ->]| ->].
      * unfold bind at 1. unfold ret at 1. cbv beta iota.
        destruct (can_write (dirs w) (pjoin (images_dir self) n)) eqn:C.
        -- unfold bind at 1. rewrite write_file_ok by (auto; reflexivity).
           eexists. eexists. split; [reflexivity|]. simpl.
           split; [reflexivity|]. split; [reflexivity|]. split.
           ++ right. exists u, n, r. auto.
           ++ split; [discriminate|eauto].
        -- unfold bind at 1.
           destruct (write_file_fails (pjoin (images_dir self) n)
                       (Binary (content r)) (requested w u) C) as [e ->].
           cbv beta iota. rewrite download_image_handler.
           eexists. exists (requested w u). split; [reflexivity|].
           destruct (printable (stdout_errors env) u);
             repeat split; auto; try discriminate; try congruence;
             eauto.
      * unfold bind at 1. unfold raise. cbv beta iota.
        rewrite download_image_handler.
        eexists. exists (requested w u). split; [reflexivity|].
        destruct (printable (stdout_errors env) u);
          repeat split; auto; try discriminate; try congruence;
          eauto.
  - rewrite download_image_handler.
    eexists. exists w. split; [reflexivity|]. rewrite app_nil_r.
    destruct (printable (stdout_errors env) src);
      repeat split; auto; try discriminate; try congruence;
      eauto.
Qed.

End MoreImages.



(** X8. A download that goes through under a given name, not empty,
    saves the bytes of the response as that name in the images directory
    and returns [images/] followed by the name: the URL plays no part in
    the name. *)
Theorem download_image_given_name `{L : Lib} (env : Env)
    (self : WebpageToMarkdown) (src u : str) (c : char) (n : str)
    (r : Response) (w : World) :
  urljoin (url self) src = Some u ->
  net env u = Some r -> error_status r = false ->
  can_write (dirs w) (pjoin (images_dir self) (c :: n)) = true ->
  download_image env self src (Some (c :: n)) w
  = (inr (lit "images/" ++ c :: n),
     written (requested w u) (pjoin (images_dir self) (c :: n))
       (Binary (content r))).
Proof.
  intros J N S C. unfold download_image. rewrite J. unfold try_except.
  assert (F : fetch_failure env u = None).
  { unfold fetch_failure. now rewrite N, S. }
  destruct (fetch_succeeds _ _ w F) as (r' & N' & _ & ->).
  assert (r' = r) by congruence. subst r'.
  unfold bind at 1. unfold ret at 1. cbv beta iota.
  unfold bind at 1. rewrite write_file_ok by (auto; reflexivity). reflexivity.
Qed.

Lemma download_image_given_name_witness :
  download_image (L := Example.lib) Example.env Example.converter (lit "/a.png")
    (Some (lit "logo.png")) Example.world_ready
  = (inr (lit "images/logo.png"),
     written (requested Example.world_ready (lit "https://example.com/a.png"))
       [lit "out"; lit "images"; lit "logo.png"] (Binary Example.png)).
Proof.
  exact (download_image_given_name (L := Example.lib) Example.env
           Example.converter (lit "/a.png") (lit "https://example.com/a.png")
           108%N (lit "ogo.png") (mkResponse 200 Example.png) Example.world_ready
           eq_refl eq_refl eq_refl eq_refl).
Defined.

Section Trace.

Context {L : Lib}.
Variable env : Env.
Variable self : WebpageToMarkdown.

Lemma image_urls_eq soup :
  image_urls self soup = flat_map (img_request self) (descendants soup).
Proof. reflexivity. Qed.

Lemma traced_refl {A} w (v : A) : traced self w [] (inr v) w.
Proof.
  exists [], []. repeat split; auto; try now rewrite app_nil_r. constructor.
Qed.

(** A loop that goes on after a first part that returned. *)
Lemma traced_app {A B} w w1 w2 l1 l2 (v : A) (res : exn + B) :
  traced self w l1 (inr v) w1 -> traced self w1 l2 res w2 ->
  traced self w (l1 ++ l2) res w2.
Proof.
  intros (a1 & q1 & D1 & Q1 & F1 & I1 & K1) (a2 & q2 & D2 & Q2 & F2 & I2 & K2).
  exists (a2 ++ a1), (q1 ++ q2). split; [congruence|]. split; [|split; [|split]].
  - now rewrite Q2, Q1, app_assoc.
  - now rewrite F2, F1, app_assoc.
  - apply Forall_app. auto.
  - intros x Hx. rewrite flat_map_app, (K1 v eq_refl), (K2 x Hx). reflexivity.
Qed.

(** A loop that stops in its first part. *)
Lemma traced_stop {A B} w w1 l1 l2 e :
  traced self w l1 (@inl exn A e) w1 -> traced self w (l1 ++ l2) (@inl exn B e) w1.
Proof.
  intros (a1 & q1 & D1 & Q1 & F1 & I1 & K1).
  exists a1, q1. repeat split; auto. discriminate.
Qed.

Lemma process_image_requests name attrs kids w :
  str_eqb name (lit "img") = true ->
  exists res w',
    process_image env self attrs w = (res, w') /\
    traced self w [Tag name attrs kids] res w'.
Proof.
  intros Himg. unfold process_image, traced.
  simpl flat_map. rewrite Himg, app_nil_r.
  destruct (get attrs (lit "src")) as [[|c s]|];
    try (eexists; exists w; split; [reflexivity|]; exists [], [];
         repeat split; auto; try (now rewrite app_nil_r); constructor).
  destruct (download_image_cases env self (c :: s) None w)
    as (res & w' & R & D & Q & F & _ & _).
  unfold bind. rewrite R.
  assert (Hf : exists added, files w' = added ++ files w /\ image_files self added).
  { destruct F as [F|(u & n & r & _ & _ & _ & F)].
    - exists []. split; [exact F|constructor].
    - exists [(canon (pjoin (images_dir self) n), Binary (content r))].
      split; [exact F|]. constructor; [eauto|constructor]. }
  destruct Hf as (added & Hf & Hi).
  destruct res as [e|p]; eexists; exists w'; (split; [reflexivity|]);
    exists added, (asked self (c :: s)); repeat split; auto.
Qed.

Lemma mapM_traced kids :
  Forall (node_traced env self) kids ->
  forall w, exists res w',
    mapM (process_node env self) kids w = (res, w') /\
    traced self w (flat_map (fun k => k :: descendants k) kids) res w'.
Proof.
  induction 1 as [|k kids Hk _ IH]; intros w.
  - eexists. exists w. split; [reflexivity|]. apply traced_refl.
  - destruct (Hk w) as (r1 & w1 & R1 & T1).
    change (flat_map (fun k0 => k0 :: descendants k0) (k :: kids))
      with ((k :: descendants k) ++ flat_map (fun k0 => k0 :: descendants k0) kids).
    simpl mapM. unfold bind at 1. rewrite R1.
    destruct r1 as [e|k'].
    + eexists. exists w1. split; [reflexivity|]. eapply traced_stop; exact T1.
    + destruct (IH w1) as (r2 & w2 & R2 & T2).
      unfold bind at 1. rewrite R2.
      destruct r2 as [e|ks'].
      * eexists. exists w2. split; [reflexivity|].
        eapply traced_app; [exact T1|].
        destruct T2 as (a2 & q2 & D2 & Q2 & F2 & I2 & K2).
        exists a2, q2. repeat split; auto; try discriminate.
      * eexists. exists w2. split; [reflexivity|].
        eapply traced_app; [exact T1|].
        destruct T2 as (a2 & q2 & D2 & Q2 & F2 & I2 & K2).
        exists a2, q2. repeat split; auto. intros v _. exact (K2 ks' eq_refl).
Qed.

Lemma process_node_traced n : node_traced env self n.
Proof.
  induction n as [name attrs kids IH|k t] using node_ind'; intros w.
  - simpl process_node.
    assert (Hattrs : exists res w1,
      (if str_eqb name (lit "img") then process_image env self attrs else ret attrs) w
      = (res, w1) /\ traced self w [Tag name attrs kids] res w1).
    { destruct (str_eqb name (lit "img")) eqn:Himg.
      - now apply process_image_requests.
      - eexists. exists w. split; [reflexivity|].
        exists [], []. repeat split; auto; try (now rewrite app_nil_r);
          [constructor|].
        intros _ _. simpl. now rewrite Himg. }
    destruct Hattrs as (r1 & w1 & R1 & T1).
    change (Tag name attrs kids :: descendants (Tag name attrs kids))
      with ([Tag name attrs kids] ++ flat_map (fun k => k :: descendants k) kids).
    unfold bind at 1. rewrite R1.
    destruct r1 as [e|attrs'].
    + eexists. exists w1. split; [reflexivity|]. eapply traced_stop; exact T1.
    + destruct (mapM_traced kids IH w1) as (r2 & w2 & R2 & T2).
      unfold bind at 1. rewrite R2.
      destruct r2 as [e|ks'].
      * eexists. exists w2. split; [reflexivity|].
        eapply traced_app; [exact T1|].
        destruct T2 as (a2 & q2 & D2 & Q2 & F2 & I2 & K2).
        exists a2, q2. repeat split; auto; try discriminate.
      * eexists. exists w2. split; [reflexivity|].
        eapply traced_app; [exact T1|].
        destruct T2 as (a2 & q2 & D2 & Q2 & F2 & I2 & K2).
        exists a2, q2. repeat split; auto. intros v _. exact (K2 ks' eq_refl).
  - eexists. exists w. split; [reflexivity|].
    exists [], []. repeat split; auto; try (now rewrite app_nil_r). constructor.
Qed.

Lemma process_images_requests soup w :
  exists res w',
    process_images env self soup w = (res, w') /\
    traced self w (descendants soup) res w'.
Proof.
  destruct soup as [name attrs kids|k t].
  - assert (IH : Forall (node_traced env self) kids).
    { apply Forall_forall. intros k _. apply process_node_traced. }
    destruct (mapM_traced kids IH w) as (res & w' & R & T).
    unfold process_images, bind. rewrite R.
    destruct res as [e|ks]; eexists; exists w'; (split; [reflexivity|]);
      destruct T as (a & q & D & Q & F & I & K);
      exists a, q; repeat split; auto; [discriminate|].
    intros v _. exact (K ks eq_refl).
  - eexists. exists w. split; [reflexivity|]. apply traced_refl.
Qed.

(** The world once the loop over the images of a served page has
    ended. *)
Lemma after_images_traced w r :
  exists added reqs,
    image_files self added /\
    dirs (after_images env self w r) = dirs w /\
    requests (after_images env self w r) = requests w ++ url self :: reqs /\
    files (after_images env self w r) = added ++ files w /\
    (images_reported env self (dirs w) (clean_html (page_of r)) = true ->
     reqs = image_urls self (clean_html (page_of r))).
Proof.
  destruct (process_images_requests (clean_html (page_of r)) (requested w (url self)))
    as (res & w1 & R & (added & reqs & D & Q & F & I & K)).
  destruct (process_images_spec env self (clean_html (page_of r))
              (requested w (url self))) as (w1' & R' & _ & _).
  unfold after_images. rewrite R. simpl.
  exists added, reqs. split; [exact I|]. split; [exact D|]. split; [|split].
  - rewrite Q. simpl. now rewrite <- app_assoc.
  - exact F.
  - intros Hr. simpl in R'. rewrite Hr, R in R'. injection R' as -> _.
    apply (K _ eq_refl).
Qed.

(** The requests and the files of a whole conversion. *)
Lemma convert_effects w :
  exists added reqs,
    image_files self added /\
    dirs (snd (convert_to_markdown env self w)) = dirs w /\
    requests (snd (convert_to_markdown env self w)) = requests w ++ reqs /\
    (reqs = [] \/ exists l, reqs = url self :: l) /\
    match convert_to_markdown env self w with
    | (inr p, w') => exists text, files w' = (canon p, Utf8Text text) :: added ++ files w
    | (inl _, w') =>
        files w' = added ++ files w \/
        exists p text, files w' = (canon p, Utf8Text text) :: added ++ files w
    end.
Proof.
  destruct (printable (stdout_errors env) (url self)) eqn:P.
  2:{ rewrite (convert_unprintable env self w P). exists [], [].
      split; [constructor|]. simpl. rewrite app_nil_r.
      split; [reflexivity|]. split; [reflexivity|]. split; [now left|]. now left. }
  destruct (fetch_failure env (url self)) as [e|] eqn:F.
  { rewrite (convert_fetch_failure env self w e P F). exists [], [url self].
    split; [constructor|]. simpl.
    split; [reflexivity|]. split; [reflexivity|]. split; [right; now exists []|].
    now left. }
  destruct (fetch_succeeds _ _ w F) as (r & N & S & _).
  destruct (convert_page_served env self w r P N S) as (_ & _ & A0 & A1).
  destruct (after_images_traced w r) as (added & reqs & I & D & Q & Fl & _).
  exists added, (url self :: reqs). split; [exact I|].
  destruct (images_reported env self (dirs w) (clean_html (page_of r))).
  { destruct (A1 eq_refl) as (_ & A2 & A3 & A4).
    destruct (can_write (dirs w) (output_file self (title_text (page_of r)))).
    - destruct (encodable (markdown_text env self (dirs w) r)).
      + rewrite (A4 eq_refl eq_refl). simpl.
        split; [exact D|]. split; [exact Q|]. split; [eauto|].
        rewrite Fl. destruct (saved_reported env self r); eauto.
      + rewrite (A3 eq_refl eq_refl). simpl.
        split; [exact D|]. split; [exact Q|]. split; [eauto|].
        rewrite Fl. eauto.
    - destruct (A2 eq_refl) as [e ->]. simpl.
      split; [exact D|]. split; [exact Q|]. split; [eauto|]. now left. }
  rewrite (A0 eq_refl). simpl.
  split; [exact D|]. split; [exact Q|]. split; [eauto|]. now left.
Qed.

End Trace.

(** X9. A conversion whose page is served, and that gets through its
    images, requests the page and then, in document order, the absolute
    URL of every [img] tag of the cleaned page whose source is not
    empty: one request for each tag, the same URL again when two tags
    share it, and nothing else. *)
Theorem convert_request_trace `{L : Lib} (env : Env) (self : WebpageToMarkdown)
    (w : World) (r : Response) :
  printable (stdout_errors env) (url self) = true ->
  net env (url self) = Some r -> error_status r = false ->
  images_reported env self (dirs w) (clean_html (page_of r)) = true ->
  requests (snd (convert_to_markdown env self w))
  = requests w ++ url self :: image_urls self (clean_html (page_of r)).
Proof.
  intros P N S I.
  destruct (convert_page_served env self w r P N S) as (_ & _ & _ & A1).
  destruct (after_images_traced env self w r) as (added & reqs & _ & _ & Q & _ & K).
  rewrite (K I) in Q.
  destruct (A1 I) as (_ & A2 & A3 & A4).
  destruct (can_write (dirs w) (output_file self (title_text (page_of r)))).
  - destruct (encodable (markdown_text env self (dirs w) r)).
    + rewrite (A4 eq_refl eq_refl). exact Q.
    + rewrite (A3 eq_refl eq_refl). exact Q.
  - destruct (A2 eq_refl) as [e ->]. exact Q.
Qed.

Lemma convert_request_trace_witness :
  requests (snd (convert_to_markdown (L := Example.lib) Example.env
                   Example.converter Example.world_ready))
  = [Example.page_url; lit "https://example.com/a.png";
     lit "https://example.com/b.png"; lit "https://example.com/c.png"].
Proof.
  exact (convert_request_trace (L := Example.lib) Example.env Example.converter
           Example.world_ready (mkResponse 200 Example.html)
           eq_refl eq_refl eq_refl eq_refl).
Defined.

(** X10. The loop of [process_images] touches two attributes of an [img]
    tag and no other: where it gets past the tag, every attribute but
    [src] and [alt] keeps its value, and an [alt] text that is not empty
    is kept; a missing or empty one becomes the base name of the new
    source. *)
Theorem process_image_other_attributes `{L : Lib} (env : Env)
    (self : WebpageToMarkdown) (attrs : list (str * str)) (w : World) :
  img_reported env self (dirs w) attrs = true ->
  exists attrs' w',
    process_image env self attrs w = (inr attrs', w') /\
    (forall k, str_eqb (lit "src") k = false -> str_eqb (lit "alt") k = false ->
               get attrs' k = get attrs k) /\
    (truthy (get attrs (lit "alt")) = true ->
     get attrs' (lit "alt") = get attrs (lit "alt")) /\
    (truthy (get attrs (lit "src")) = true ->
     truthy (get attrs (lit "alt")) = false ->
     exists p, get attrs' (lit "src") = Some p /\
               get attrs' (lit "alt") = Some (basename p)).
Proof.
  intros Hr.
  destruct (process_image_spec env self attrs w) as (w' & R & _ & _).
  rewrite Hr in R.
  exists (rewrite_img env self (dirs w) attrs), w'. split; [exact R|].
  unfold rewrite_img.
  destruct (get attrs (lit "src")) as [[|c s]|] eqn:G;
    try (repeat split; auto; discriminate).
  set (p := local_path env self (dirs w) (c :: s)).
  assert (Ha : get (set attrs (lit "src") p) (lit "alt") = get attrs (lit "alt"))
    by (apply get_set_other; reflexivity).
  rewrite Ha. split; [|split].
  - intros k Hs Hk. destruct (truthy (get attrs (lit "alt"))).
    + now apply get_set_other.
    + rewrite get_set_other by exact Hk. now apply get_set_other.
  - intros T. now rewrite T.
  - intros _ T. rewrite T. exists p. split.
    + rewrite get_set_other by reflexivity. apply get_set_same.
    + apply get_set_same.
Qed.

Lemma process_image_other_attributes_witness :
  exists attrs' w',
    process_image (L := Example.lib) Example.env Example.converter
      [(lit "src", lit "/b.png"); (lit "width", lit "10")] Example.world_ready
    = (inr attrs', w') /\
    get attrs' (lit "width") = Some (lit "10") /\
    exists p, get attrs' (lit "src") = Some p /\
              get attrs' (lit "alt") = Some (basename p).
Proof.
  destruct (process_image_other_attributes (L := Example.lib) Example.env
              Example.converter [(lit "src", lit "/b.png"); (lit "width", lit "10")]
              Example.world_ready eq_refl) as (attrs' & w' & R & K & _ & A).
  exists attrs', w'. split; [exact R|]. split.
  - exact (K (lit "width") eq_refl eq_refl).
  - exact (A eq_refl eq_refl).
Defined.

(** X11. A conversion creates no directory and removes no file.  What it
    writes is binary files, each at the place of the images directory
    joined with a name, and after them at most one text file; when it
    returns, that text file is there, at the place of the path it
    returns, and it was written last. *)
Theorem convert_frame `{L : Lib} (env : Env) (self : WebpageToMarkdown)
    (w : World) :
  exists added,
    Forall (fun pf => exists n b,
              pf = (canon (pjoin (images_dir self) n), Binary b)) added /\
    dirs (snd (convert_to_markdown env self w)) = dirs w /\
    match convert_to_markdown env self w with
    | (inr p, w') => exists text, files w' = (canon p, Utf8Text text) :: added ++ files w
    | (inl _, w') =>
        files w' = added ++ files w \/
        exists p text, files w' = (canon p, Utf8Text text) :: added ++ files w
    end.
Proof.
  destruct (convert_effects env self w) as (added & reqs & I & D & _ & _ & F).
  exists added. split; [exact I|]. split; [exact D|exact F].
Qed.

(** X12. When the page is served but the Markdown file cannot be opened
    (a directory on its way is missing, or a directory is at its place),
    the conversion raises only after the images were processed: every
    request was made and every downloaded image is on disk. *)
Theorem convert_unwritable_output `{L : Lib} (env : Env)
    (self : WebpageToMarkdown) (w : World) (r : Response) :
  printable (stdout_errors env) (url self) = true ->
  net env (url self) = Some r -> error_status r = false ->
  images_reported env self (dirs w) (clean_html (page_of r)) = true ->
  can_write (dirs w) (output_file self (title_text (page_of r))) = false ->
  exists e w',
    convert_to_markdown env self w = (inl e, w') /\
    requests w' = requests w ++ url self :: image_urls self (clean_html (page_of r)) /\
    forall name attrs kids c s u,
      In (Tag name attrs kids) (descendants (clean_html (page_of r))) ->
      str_eqb name (lit "img") = true ->
      get attrs (lit "src") = Some (c :: s) ->
      urljoin (url self) (c :: s) = Some u ->
      downloaded env self (dirs w) u = true ->
      is_file w' (pjoin (images_dir self) (generated_name u)) = true.
Proof.
  intros P N S I C.
  destruct (convert_page_served env self w r P N S) as (_ & _ & _ & A1).
  destruct (A1 I) as (D & A2 & _ & _).
  destruct (A2 C) as [e He]. exists e, (after_images env self w r).
  split; [exact He|]. split.
  - destruct (after_images_traced env self w r) as (added & reqs & _ & _ & Q & _ & K).
    now rewrite (K I) in Q.
  - intros name attrs kids c s u Hin Himg Hsrc J Dl.
    exact (proj1 (proj2 (D name attrs kids Hin Himg c s Hsrc u J) Dl)).
Qed.

Lemma convert_unwritable_output_witness :
  exists e w',
    convert_to_markdown (L := Example.lib) Example.env Cases.converter_nested
      Example.world_ready = (inl e, w') /\
    requests w'
    = [Example.page_url; lit "https://example.com/a.png";
       lit "https://example.com/b.png"; lit "https://example.com/c.png"] /\
    is_file w' [lit "out"; lit "images"; lit "img_8c11d92f.png"] = true.
Proof.
  destruct (convert_unwritable_output (L := Example.lib) Example.env
              Cases.converter_nested Example.world_ready
              (mkResponse 200 Example.html) eq_refl eq_refl eq_refl eq_refl eq_refl)
    as (e & w' & R & Q & I).
  exists e, w'. split; [exact R|]. split; [exact Q|].
  refine (I (lit "img") [(lit "src", lit "/a.png")] [] 47%N (lit "a.png")
            (lit "https://example.com/a.png") _ eq_refl eq_refl eq_refl eq_refl).
  find_node.
Defined.

(* ================================================================== *)
(** * Further properties: the output file *)

Lemma split_on_absent sep s :
  (forall c, In c s -> char_eqb c sep = false) -> split_on sep s = [s].
Proof.
  induction s as [|x s IH]; intros H; [reflexivity|].
  simpl. rewrite (H x) by now left.
  rewrite IH by (intros c Hc; apply H; now right). reflexivity.
Qed.

Lemma pjoin_name p s :
  no_slash s -> 2 <= List.length s -> pjoin p s = p ++ [s].
Proof.
  intros H Hlen. unfold pjoin, path_parts.
  destruct s as [|c s]; [simpl in Hlen; lia|].
  assert (Hc : char_eqb c 47%N = false) by (apply H; now left).
  assert (Hs : startswith (c :: s) (lit "/") = false).
  { change (startswith (c :: s) (lit "/")) with (char_eqb 47%N c && startswith s []).
    unfold char_eqb in *. now rewrite N.eqb_sym, Hc. }
  rewrite Hs, split_on_absent by exact H.
  destruct s as [|d s]; [simpl in Hlen; lia|].
  simpl. destruct (char_eqb c 46%N); reflexivity.
Qed.

Lemma parent_name p s :
  2 <= List.length s -> parent (p ++ [s]) = p.
Proof.
  intros Hlen. destruct p as [|x [|y p]].
  - simpl. destruct s as [|c [|d s]]; simpl in Hlen; try lia.
    simpl. destruct (char_eqb c 47%N); reflexivity.
  - reflexivity.
  - change (parent ((x :: y :: p) ++ [s])) with (removelast ((x :: y :: p) ++ [s])).
    apply removelast_last.
Qed.

(** The numbers below 10000 are written with at most four characters,
    none of them a slash. *)
Lemma digits_checked :
  forallb
    (fun n =>
       forallb (fun c => negb (char_eqb c 47%N)) (str_of_Z (Z.of_nat n))
       && (List.length (str_of_Z (Z.of_nat n)) <=? 4))
    (seq 0 (Z.to_nat 10000)) = true.
Proof. vm_compute. reflexivity. Qed.

Lemma str_of_Z_digits z :
  (0 <= z < 10000)%Z -> no_slash (str_of_Z z) /\ List.length (str_of_Z z) <= 4.
Proof.
  intros Hz. pose proof digits_checked as H.
  rewrite forallb_forall in H. specialize (H (Z.to_nat z)).
  rewrite Z2Nat.id in H by lia.
  assert (Hin : In (Z.to_nat z) (seq 0 (Z.to_nat 10000))) by (apply in_seq; lia).
  specialize (H Hin). apply andb_true_iff in H as [H1 H2].
  split.
  - intros c Hc. rewrite forallb_forall in H1. apply negb_true_iff. exact (H1 c Hc).
  - now apply Nat.leb_le.
Qed.

Lemma str_of_Z_no_slash z : (0 <= z < 10000)%Z -> no_slash (str_of_Z z).
Proof. intros Hz. apply (str_of_Z_digits z Hz). Qed.

(** A code point takes at most four bytes. *)
Lemma fs_len_bound s : fs_len s <= 4 * List.length s.
Proof.
  induction s as [|c s IH]; simpl; [lia|].
  destruct (c <? 128)%N; [lia|]. destruct (c <? 2048)%N; [lia|].
  destruct (surrogate c); [lia|]. destruct (c <? 65536)%N; lia.
Qed.

Lemma fs_len_app a b : fs_len (a ++ b) = fs_len a + fs_len b.
Proof.
  induction a as [|c a IH]; simpl; [reflexivity|]. rewrite IH. lia.
Qed.

Section Names.

Context {L : Lib}.
Variable self : WebpageToMarkdown.

Lemma safe_title_derived title :
  truthy (filename self) = false ->
  safe_title self title
  = if blank (firstn 50 (replace_unsafe_spec title))
    then lit "webpage_" ++ str_of_Z (hash (url self) mod 10000)
    else firstn 50 (replace_unsafe_spec title).
Proof.
  intros Hn. unfold safe_title, blank.
  destruct (filename self) as [[|c f]|]; try discriminate;
    rewrite sub_unsafe; destruct (strip _); reflexivity.
Qed.

Lemma safe_title_no_slash title :
  truthy (filename self) = false -> no_slash (safe_title self title).
Proof.
  intros Hn. rewrite (safe_title_derived title Hn).
  destruct (blank _).
  - intros c Hc. apply in_app_or in Hc as [Hc|Hc].
    + vm_compute in Hc.
      repeat (destruct Hc as [<-|Hc]; [reflexivity|]). destruct Hc.
    + eapply str_of_Z_no_slash; [|exact Hc]. apply Z.mod_pos_bound. lia.
  - intros c Hc. apply In_firstn, replace_unsafe_spec_safe in Hc.
    destruct (char_eqb c 47%N) eqn:E; [|reflexivity].
    apply N.eqb_eq in E. subst c. discriminate.
Qed.

End Names.

(** X13. Without an explicit file name the Markdown file always lies
    directly in the output directory, whatever the title: the name made
    from the title or from the hash holds no slash.  That name is at
    most 50 characters long and, with its suffix, at most 203 bytes:
    never too long for a file name. *)
Theorem derived_name_in_output_dir `{L : Lib} (self : WebpageToMarkdown)
    (title : str) :
  truthy (filename self) = false ->
  output_file self title = output_dir self ++ [safe_title self title ++ lit ".md"] /\
  parent (output_file self title) = output_dir self /\
  List.length (safe_title self title) <= 50 /\
  fs_len (safe_title self title ++ lit ".md") <= 203.
Proof.
  intros Hn.
  assert (Hlen : 2 <= List.length (safe_title self title ++ lit ".md")).
  { rewrite length_app. simpl. lia. }
  assert (Hs : no_slash (safe_title self title ++ lit ".md")).
  { intros c Hc. apply in_app_or in Hc as [Hc|Hc].
    - exact (safe_title_no_slash self title Hn c Hc).
    - vm_compute in Hc. repeat (destruct Hc as [<-|Hc]; [reflexivity|]). destruct Hc. }
  assert (E : output_file self title
              = output_dir self ++ [safe_title self title ++ lit ".md"]).
  { unfold output_file. now apply pjoin_name. }
  assert (H50 : List.length (safe_title self title) <= 50).
  { rewrite (safe_title_derived self title Hn). destruct (blank _).
    - rewrite length_app.
      assert (0 <= hash (url self) mod 10000 < 10000)%Z
        by (apply Z.mod_pos_bound; lia).
      pose proof (proj2 (str_of_Z_digits _ H)). simpl. lia.
    - rewrite length_firstn. lia. }
  split; [exact E|]. split; [rewrite E; now apply parent_name|].
  split; [exact H50|].
  rewrite fs_len_app. pose proof (fs_len_bound (safe_title self title)).
  change (fs_len (lit ".md")) with 3. lia.
Qed.

Lemma derived_name_in_output_dir_witness :
  output_file (L := Example.lib) Example.converter (lit "a/b: c?")
  = [lit "out"; lit "a_b_ c_.md"] /\
  parent (output_file (L := Example.lib) Example.converter (lit "a/b: c?"))
  = [lit "out"].
Proof.
  destruct (derived_name_in_output_dir (L := Example.lib) Example.converter
              (lit "a/b: c?") eq_refl) as (E & P & _).
  split; [exact E|exact P].
Defined.

(** X14. A page without a title tag, converted without an explicit file
    name, is saved as [webpage.md] in the output directory. *)
Theorem untitled_page_file `{L : Lib} (env : Env) (self : WebpageToMarkdown)
    (w : World) (r : Response) :
  net env (url self) = Some r -> error_status r = false ->
  find (lit "title") (page_of r) = None ->
  truthy (filename self) = false ->
  images_reported env self (dirs w) (clean_html (page_of r)) = true ->
  can_write (dirs w) (output_dir self ++ [lit "webpage.md"]) = true ->
  encodable (markdown_text env self (dirs w) r) = true ->
  saved_reported env self r = true ->
  exists w',
    convert_to_markdown env self w = (inr (output_dir self ++ [lit "webpage.md"]), w') /\
    read_file w' (output_dir self ++ [lit "webpage.md"])
    = Some (Utf8Text (markdown_text env self (dirs w) r)).
Proof.
  intros N S T Hn I C X V.
  assert (Ht : title_text (page_of r) = lit "webpage").
  { unfold title_text. now rewrite T. }
  assert (Hs : safe_title self (lit "webpage") = lit "webpage").
  { unfold safe_title. destruct (filename self) as [[|c f]|]; try discriminate;
      reflexivity. }
  assert (E : output_file self (title_text (page_of r))
              = output_dir self ++ [lit "webpage.md"]).
  { rewrite Ht. unfold output_file. rewrite Hs. reflexivity. }
  pose proof (markdown_text_url env self (dirs w) r (stdout_errors env) X) as P.
  destruct (convert_page_served env self w r P N S) as (Ex & _ & _ & A1).
  destruct (A1 I) as (_ & _ & _ & Hok).
  rewrite E in Hok. eexists. split; [rewrite (Hok C X), V; reflexivity|].
  apply read_file_written.
  replace (dirs (after_images env self w r)) with (dirs w) by (symmetry; apply Ex).
  exact C.
Qed.

Lemma untitled_page_file_witness :
  exists w',
    convert_to_markdown (L := Example.lib) Cases.env_untitled Example.converter
      Example.world_ready = (inr [lit "out"; lit "webpage.md"], w') /\
    read_file w' [lit "out"; lit "webpage.md"]
    = Some (Utf8Text (markdown_text (L := Example.lib) Cases.env_untitled
                        Example.converter (dirs Example.world_ready)
                        (mkResponse 200 (lit "plain text")))).
Proof.
  exact (untitled_page_file (L := Example.lib) Cases.env_untitled Example.converter
           Example.world_ready (mkResponse 200 (lit "plain text"))
           eq_refl eq_refl eq_refl eq_refl eq_refl eq_refl eq_refl eq_refl).
Defined.

(* ================================================================== *)
(** * Further properties: the constructor, [main] and the batch loop *)

Lemma join_snoc sep l c :
  l <> [] -> join sep (l ++ [c]) = join sep l ++ sep ++ c.
Proof.
  induction l as [|x l IH]; [contradiction|]. intros _.
  destruct l as [|y l]; [reflexivity|].
  change (join sep ((x :: y :: l) ++ [c])) with (x ++ sep ++ join sep ((y :: l) ++ [c])).
  rewrite IH by discriminate.
  change (join sep (x :: y :: l)) with (x ++ sep ++ join sep (y :: l)).
  now rewrite <- !app_assoc.
Qed.

(** The name of a path starts with the name of the path without its
    last part. *)
Lemma path_str_snoc l c :
  l <> [] -> exists mid, path_str (l ++ [c]) = path_str l ++ mid ++ c.
Proof.
  destruct l as [|x l]; [contradiction|]. intros _.
  change (path_str ((x :: l) ++ [c]))
    with (if str_eqb x (lit "/") then x ++ join (lit "/") (l ++ [c])
          else join (lit "/") ((x :: l) ++ [c])).
  change (path_str (x :: l))
    with (if str_eqb x (lit "/") then x ++ join (lit "/") l
          else join (lit "/") (x :: l)).
  destruct (str_eqb x (lit "/")).
  - destruct l as [|y l].
    + exists []. change (x ++ c = (x ++ []) ++ c). now rewrite app_nil_r.
    + exists (lit "/"). rewrite join_snoc by discriminate.
      now rewrite app_assoc.
  - exists (lit "/"). now rewrite join_snoc by discriminate.
Qed.

Lemma path_parts_proper s : proper (path_parts s).
Proof.
  intros c Hc. apply filter_In in Hc. destruct Hc as [_ Hc].
  intros ->. discriminate.
Qed.

Lemma Path_of_proper s : proper (Path_of s).
Proof.
  intros c Hc. unfold Path_of in Hc. apply in_app_or in Hc. destruct Hc as [Hc|Hc].
  - destruct (startswith s (lit "/")); [|destruct Hc].
    destruct Hc as [<-|[]]. discriminate.
  - exact (path_parts_proper s c Hc).
Qed.

Lemma In_removelast_In (A : Type) (l : list A) (x : A) : In x (removelast l) -> In x l.
Proof.
  induction l as [|a l IH]; [auto|]. simpl. destruct l as [|b l]; [intros []|].
  intros [->|H]; [now left|right; auto].
Qed.

Lemma parent_proper p : proper p -> proper (parent p).
Proof.
  intros H c Hc. apply H. destruct p as [|x [|y p]]; try exact Hc.
  - simpl in Hc. destruct (str_eqb x (lit "/")); [exact Hc|destruct Hc].
  - now apply In_removelast_In.
Qed.

Lemma path_str_not_empty p : proper p -> path_str p <> [].
Proof.
  intros H. destruct p as [|x p]; [discriminate|]. simpl.
  assert (Hx : x <> []) by (apply H; now left).
  destruct (str_eqb x (lit "/")) eqn:E.
  - destruct x; [contradiction|discriminate].
  - destruct p as [|y p]; simpl; [exact Hx|].
    destruct x; [contradiction|discriminate].
Qed.

Lemma name_error_prefix a b : a <> [] -> name_error (a ++ b) = None -> name_error a = None.
Proof.
  intros Ha. unfold name_error, fsencodable, char_in.
  rewrite forallb_app, existsb_app, fs_len_app.
  destruct (forallb _ a); [|discriminate]. simpl.
  destruct (forallb _ b); [|discriminate]. simpl.
  destruct (existsb _ a); [discriminate|]. simpl.
  destruct (existsb _ b); [discriminate|].
  destruct a as [|x a]; [contradiction|]. simpl app.
  destruct (4095 <? fs_len (x :: a) + fs_len b) eqn:E; [discriminate|]. intros _.
  destruct (4095 <? fs_len (x :: a)) eqn:E'; [|reflexivity].
  apply Nat.ltb_lt in E'. apply Nat.ltb_ge in E. lia.
Qed.

(** A walk that gets to its end has passed the directory its path lies
    in. *)
Lemma walk_snoc_inv ds q l c q' :
  l <> [] -> walk ds q (l ++ [c]) = Target q' ->
  exists q0, walk ds q l = Target q0 /\ exists_dir ds q0 = true.
Proof.
  revert q. induction l as [|x l IH]; intros q Hne; [contradiction|].
  simpl. destruct (255 <? fs_len x); [discriminate|].
  destruct l as [|y l].
  - simpl. destruct (exists_dir ds (step q x)) eqn:E; [|discriminate]. eauto.
  - change ((y :: l) ++ [c]) with (y :: l ++ [c]). cbv iota.
    destruct (exists_dir ds (step q x)); [|discriminate].
    intros W. apply (IH (step q x)); [discriminate|exact W].
Qed.

(** Where a path resolves, the directory it lies in is there. *)
Lemma is_dir_parent w p q :
  proper p -> resolve (dirs w) p = Some q -> is_dir w (parent p) = true.
Proof.
  intros Hp0 R. destruct p as [|x [|y p]].
  - reflexivity.
  - simpl. destruct (str_eqb x (lit "/")) eqn:E; [|reflexivity].
    apply str_eqb_eq in E. subst x. reflexivity.
  - assert (Hp : exists l c, x :: y :: p = l ++ [c] /\ l <> []
                             /\ parent (x :: y :: p) = l).
    { exists (removelast (x :: y :: p)), (last (x :: y :: p) []). split; [|split].
      - apply app_removelast_last. discriminate.
      - simpl. destruct p; discriminate.
      - reflexivity. }
    destruct Hp as (l & c & E & Hne & ->). rewrite E in R.
    unfold resolve, resolve_raw in R.
    destruct (name_error (path_str (l ++ [c]))) eqn:N; [discriminate|].
    destruct (walk (dirs w) [] (l ++ [c])) as [q'| |q'] eqn:W; try discriminate.
    destruct (walk_snoc_inv _ _ _ _ _ Hne W) as (q0 & W0 & E0).
    destruct (path_str_snoc l c Hne) as [mid Hs]. rewrite Hs in N.
    apply name_error_prefix in N.
    2:{ apply path_str_not_empty. intros d Hd. apply Hp0. rewrite E.
        apply in_or_app. now left. }
    unfold is_dir, resolve, resolve_raw. now rewrite N, W0.
Qed.

Lemma mkdir_exist_ok_raises p w e w' : mkdir_exist_ok p w = (inl e, w') -> w' = w.
Proof.
  destruct (mkdir_exist_ok_cases p w) as [[_ E]|[[_ E]|(_ & _ & e' & E)]];
    rewrite E; congruence.
Qed.

Lemma mkdir_exist_ok_returns p w w' :
  mkdir_exist_ok p w = (inr tt, w') -> exists q, resolve (dirs w) p = Some q.
Proof.
  unfold mkdir_exist_ok.
  destruct (resolve (dirs w) p) as [q|]; [eauto|discriminate].
Qed.

Lemma init_world (u out : str) (fname : option str) (w : World) :
  files (snd (init u out fname w)) = files w /\
  requests (snd (init u out fname w)) = requests w /\
  forall self w1, init u out fname w = (inr self, w1) ->
    self = mkConverter u (Path_of out) (pjoin (Path_of out) (lit "images")) fname
             (mkHTML2Text false false false 0 true true).
Proof.
  unfold init, bind.
  pose proof (mkdir_exist_ok_frame (Path_of out) w) as (F1 & Q1 & _).
  destruct (mkdir_exist_ok (Path_of out) w) as [[e|[]] wa]; simpl in *.
  - split; [exact F1|]. split; [exact Q1|]. discriminate.
  - pose proof (mkdir_exist_ok_frame (pjoin (Path_of out) (lit "images")) wa)
      as (F2 & Q2 & _).
    destruct (mkdir_exist_ok (pjoin (Path_of out) (lit "images")) wa)
      as [[e|[]] wb]; simpl in *.
    + split; [congruence|]. split; [congruence|]. discriminate.
    + split; [congruence|]. split; [congruence|]. now intros self w1 [= <- _].
Qed.

(** X15. Building a converter twice on the same output directory is
    building it once: the second [__init__] finds both directories and
    leaves the world as it is. *)
Theorem init_twice (u out : str) (fname : option str)
    (w w1 : World) (self : WebpageToMarkdown) (u' : str) (fname' : option str) :
  init u out fname w = (inr self, w1) ->
  init u' out fname' w1
  = (inr (mkConverter u' (output_dir self) (images_dir self) fname' (h self)), w1).
Proof.
  intros H. destruct (init_dirs _ _ _ _ _ _ H) as (-> & D1 & D2 & _).
  unfold init, bind.
  rewrite (mkdir_exist_ok_there _ _ D1), (mkdir_exist_ok_there _ _ D2). reflexivity.
Qed.

Lemma init_twice_witness :
  init (lit "https://example.com/other") (lit "out")
    (Some (lit "notes")) Example.world_ready
  = (inr (mkConverter (lit "https://example.com/other") [lit "out"]
            [lit "out"; lit "images"] (Some (lit "notes"))
            (mkHTML2Text false false false 0 true true)),
     Example.world_ready).
Proof.
  exact (init_twice Example.page_url (lit "out") None
           Example.world Example.world_ready Example.converter
           (lit "https://example.com/other") (Some (lit "notes")) eq_refl).
Defined.

(** X16. [__init__] makes no request and writes no file, keeps every
    directory, and adds at most two: the place the output directory
    leads to, and the place of its images subdirectory.  It does not
    create the directory the output directory lies in: when that one is
    missing it raises and leaves the world as it was. *)
Theorem init_frame (u out : str) (fname : option str) (w : World) :
  let w' := snd (init u out fname w) in
  files w' = files w /\ requests w' = requests w /\
  (forall p, is_dir w p = true -> is_dir w' p = true) /\
  (exists added,
     dirs w' = added ++ dirs w /\
     incl added [canon (pjoin (Path_of out) (lit "images")); canon (Path_of out)]) /\
  (is_dir w (parent (Path_of out)) = false ->
   exists e, init u out fname w = (inl e, w)).
Proof.
  unfold init, bind. cbv zeta.
  pose proof (mkdir_exist_ok_frame (Path_of out) w) as (F1 & Q1 & A1 & K1).
  destruct (mkdir_exist_ok (Path_of out) w) as [[e|[]] wa] eqn:M1; simpl in *.
  - pose proof (mkdir_exist_ok_raises _ _ _ _ M1) as ->.
    split; [reflexivity|]. split; [reflexivity|]. split; [auto|]. split.
    + exists []. split; [reflexivity|intros x []].
    + intros _. now exists e.
  - pose proof (mkdir_exist_ok_frame (pjoin (Path_of out) (lit "images")) wa)
      as (F2 & Q2 & A2 & K2).
    assert (Hfail : is_dir w (parent (Path_of out)) = false -> False).
    { intros P. destruct (mkdir_exist_ok_returns _ _ _ M1) as [q R].
      rewrite (is_dir_parent _ _ _ (Path_of_proper out) R) in P. discriminate. }
    assert (Hadd : exists added,
              dirs (snd (mkdir_exist_ok (pjoin (Path_of out) (lit "images")) wa))
              = added ++ dirs w /\
              incl added [canon (pjoin (Path_of out) (lit "images"));
                          canon (Path_of out)]).
    { destruct A1 as [A1|A1], A2 as [A2|A2]; rewrite A2, A1.
      - exists []. split; [reflexivity|intros x []].
      - exists [canon (pjoin (Path_of out) (lit "images"))].
        split; [reflexivity|]. intros x [<-|[]]. now left.
      - exists [canon (Path_of out)].
        split; [reflexivity|]. intros x [<-|[]]. right. now left.
      - exists [canon (pjoin (Path_of out) (lit "images")); canon (Path_of out)].
        split; [reflexivity|]. intros x Hx. exact Hx. }
    destruct (mkdir_exist_ok (pjoin (Path_of out) (lit "images")) wa)
      as [[e|[]] wb]; simpl in *;
      (split; [congruence|]; split; [congruence|]; split; [auto|]; split;
       [exact Hadd|intros P; destruct (Hfail P)]).
Qed.

Lemma init_frame_witness :
  (exists e,
     init Example.page_url (lit "archive/out") None Example.world
     = (inl e, Example.world)) /\
  init Example.page_url (lit "a/../b") None Cases.world_a
  = (inr (mkConverter Example.page_url [lit "a"; lit ".."; lit "b"]
            [lit "a"; lit ".."; lit "b"; lit "images"] None
            (mkHTML2Text false false false 0 true true)),
     mkWorld [[lit "b"; lit "images"]; [lit "b"]; [lit "a"]] [] []).
Proof.
  split; [|reflexivity].
  exact (proj2 (proj2 (proj2 (proj2
           (init_frame Example.page_url (lit "archive/out") None
              Example.world)))) eq_refl).
Defined.

Lemma startswith_app p s : startswith (p ++ s) p = true.
Proof.
  induction p as [|c p IH]; [now destruct s|].
  simpl. unfold char_eqb. now rewrite N.eqb_refl.
Qed.

Lemma normalize_url_scheme u :
  startswith (normalize_url u) (lit "http://")
  || startswith (normalize_url u) (lit "https://") = true.
Proof.
  unfold normalize_url.
  destruct (startswith u (lit "http://") || startswith u (lit "https://")) eqn:E;
    [exact E|].
  rewrite (startswith_app (lit "https://") u). apply orb_true_r.
Qed.

Section Main.

Context {L : Lib}.
Variable env : Env.
Variable args : Args.
Variable w : World.

(** [main], step by step. *)
Lemma main_cases :
  (exists e, init (normalize_url (arg_url args)) (arg_output args)
               (arg_filename args) w = (inl e, snd (main env args w)) /\
             fst (main env args w) = 1%Z) \/
  (exists self w1,
     init (normalize_url (arg_url args)) (arg_output args) (arg_filename args) w
     = (inr self, w1) /\
     main env args w
     = match convert_to_markdown env (main_converter args) w1 with
       | (inr _, w') => (0%Z, w')
       | (inl _, w') => (1%Z, w')
       end).
Proof.
  unfold main. fold (normalize_url (arg_url args)).
  destruct (init_world (normalize_url (arg_url args)) (arg_output args)
              (arg_filename args) w) as (_ & _ & Hc).
  destruct (init (normalize_url (arg_url args)) (arg_output args)
              (arg_filename args) w) as [[e|self] w1] eqn:I.
  - left. exists e.
    erewrite try_inl by (apply bind_inl; exact I).
    erewrite bind_inr by (apply print_exn; reflexivity). auto.
  - right. exists self, w1. split; [reflexivity|].
    assert (Hm : (if arg_no_images args
                  then set_ignore_images
                         (mkConverter (normalize_url (arg_url args))
                            (Path_of (arg_output args))
                            (pjoin (Path_of (arg_output args)) (lit "images"))
                            (arg_filename args)
                            (mkHTML2Text false false false 0 true true)) true
                  else mkConverter (normalize_url (arg_url args))
                         (Path_of (arg_output args))
                         (pjoin (Path_of (arg_output args)) (lit "images"))
                         (arg_filename args)
                         (mkHTML2Text false false false 0 true true))
                 = main_converter args).
    { unfold main_converter. destruct (arg_no_images args); reflexivity. }
    unfold try_except. erewrite bind_inr by exact I. rewrite (Hc self w1 eq_refl).
    rewrite Hm.
    destruct (convert_to_markdown env (main_converter args) w1) as [[e|p] w'];
      [|reflexivity].
    erewrite bind_inr by (apply print_exn; reflexivity). reflexivity.
Qed.

End Main.

(** X17. Whatever the argument, the first request [main] makes, if it
    makes one, goes to the URL of the command line when that starts with
    [http://] or [https://], and to [https://] followed by it otherwise:
    [main] never requests a page without such a scheme. *)
Theorem main_first_request `{L : Lib} (env : Env) (args : Args) (w : World) :
  exists l,
    requests (snd (main env args w)) = requests w ++ l /\
    (l = [] \/ exists l', l = normalize_url (arg_url args) :: l') /\
    startswith (normalize_url (arg_url args)) (lit "http://")
    || startswith (normalize_url (arg_url args)) (lit "https://") = true /\
    (normalize_url (arg_url args) = arg_url args \/
     normalize_url (arg_url args) = lit "https://" ++ arg_url args).
Proof.
  assert (Hn : normalize_url (arg_url args) = arg_url args \/
               normalize_url (arg_url args) = lit "https://" ++ arg_url args).
  { unfold normalize_url. destruct (_ || _); auto. }
  destruct (init_world (normalize_url (arg_url args)) (arg_output args)
              (arg_filename args) w) as (_ & Q & _).
  destruct (main_cases env args w) as [(e & I & _)|(self & w1 & I & M)].
  - exists []. rewrite I in Q. simpl in Q. rewrite Q, app_nil_r.
    split; [reflexivity|]. split; [now left|]. split; [apply normalize_url_scheme|exact Hn].
  - rewrite I in Q. simpl in Q.
    destruct (convert_effects env (main_converter args) w1)
      as (added & reqs & _ & _ & R & Hr & _).
    exists reqs. split.
    + rewrite M.
      destruct (convert_to_markdown env (main_converter args) w1) as [[e|p] w'];
        simpl in *; rewrite R, Q; reflexivity.
    + split; [exact Hr|]. split; [apply normalize_url_scheme|exact Hn].
Qed.

(** X18. Once [parse_args] has accepted the command line: when [main]
    ends with status 0, the last thing written is a text file, the
    Markdown file; when the page cannot be fetched the status is 1 and
    no file was written, though the directories may have been
    created. *)
Theorem main_status `{L : Lib} (env : Env) (args : Args) (w : World) :
  (fst (main env args w) = 0%Z ->
   exists p text rest, files (snd (main env args w)) = (p, Utf8Text text) :: rest) /\
  (fetch_failure env (normalize_url (arg_url args)) <> None ->
   fst (main env args w) = 1%Z /\ files (snd (main env args w)) = files w).
Proof.
  destruct (init_world (normalize_url (arg_url args)) (arg_output args)
              (arg_filename args) w) as (F & _ & _).
  destruct (main_cases env args w) as [(e & I & S)|(self & w1 & I & M)].
  - rewrite I in F. simpl in F. rewrite S.
    split; [discriminate|]. auto.
  - rewrite I in F. simpl in F. rewrite M.
    destruct (convert_effects env (main_converter args) w1)
      as (added & reqs & _ & _ & _ & _ & R).
    destruct (convert_to_markdown env (main_converter args) w1) as [[e|p] w'] eqn:C;
      simpl.
    + split; [discriminate|].
      intros Hf. split; [reflexivity|].
      destruct (fetch_failure env (normalize_url (arg_url args))) as [e'|] eqn:E;
        [|contradiction].
      destruct (printable (stdout_errors env) (normalize_url (arg_url args))) eqn:P.
      * rewrite (convert_fetch_failure env (main_converter args) w1 e' P E) in C.
        injection C as _ <-. exact F.
      * rewrite (convert_unprintable env (main_converter args) w1 P) in C.
        injection C as _ <-. exact F.
    + split.
      * intros _. destruct R as (text & R). eauto.
      * intros Hf. exfalso.
        destruct (fetch_failure env (normalize_url (arg_url args))) as [e'|] eqn:E;
          [|contradiction].
        destruct (printable (stdout_errors env) (normalize_url (arg_url args))) eqn:P.
        -- rewrite (convert_fetch_failure env (main_converter args) w1 e' P E) in C.
           discriminate.
        -- rewrite (convert_unprintable env (main_converter args) w1 P) in C.
           discriminate.
Qed.

Lemma main_status_witness :
  fst (main (L := Example.lib) Example.env404 (Example.args false) Example.world)
  = 1%Z /\
  files (snd (main (L := Example.lib) Example.env404 (Example.args false)
                Example.world)) = [] /\
  exists p text rest,
    files (snd (main (L := Example.lib) Example.env (Example.args false)
                  Example.world)) = (p, Utf8Text text) :: rest.
Proof.
  split; [|split].
  - apply (proj2 (main_status (L := Example.lib) Example.env404
                    (Example.args false) Example.world)).
    discriminate.
  - apply (proj2 (main_status (L := Example.lib) Example.env404
                    (Example.args false) Example.world)).
    discriminate.
  - exact (proj1 (main_status (L := Example.lib) Example.env
                    (Example.args false) Example.world) eq_refl).
Defined.

(* ------------------------------------------------------------------ *)

(** X19. The batch loop stops at the first conversion that raises: once
    a list of pairs has failed, whatever pairs follow it are never
    reached, and the exception and the world are those of the failure. *)
Theorem batch_stops_at_failure `{L : Lib} (env : Env)
    (pairs rest : list (str * str)) (w w' : World) (e : exn) :
  batch env pairs w = (inl e, w') ->
  batch env (pairs ++ rest) w = (inl e, w').
Proof.
  revert w. induction pairs as [|p pairs IH]; intros w; [discriminate|].
  simpl. unfold bind.
  destruct (convert_pair env p w) as [[e1|path] w1]; [auto|]. apply IH.
Qed.

Lemma batch_stops_at_failure_witness :
  batch (L := Example.lib) Example.env404
    ([(Example.page_url, lit "out")] ++ [(lit "https://example.com/next", lit "next")])
    Example.world
  = (inl (HTTPError 404), requested Example.world_ready Example.page_url).
Proof.
  exact (batch_stops_at_failure (L := Example.lib) Example.env404
           [(Example.page_url, lit "out")]
           [(lit "https://example.com/next", lit "next")]
           Example.world (requested Example.world_ready Example.page_url)
           (HTTPError 404) eq_refl).
Defined.

(** X20. In the batch loop a pair (URL, name) whose page is served, and
    whose conversion goes through, is saved as [name.md] inside the
    directory [name], whatever the title of the page. *)
Theorem convert_pair_output `{L : Lib} (env : Env) (u output : str)
    (w w1 : World) (self : WebpageToMarkdown) (r : Response) :
  init u output None w = (inr self, w1) ->
  net env u = Some r -> error_status r = false ->
  output <> [] ->
  images_reported env (pair_converter u output) (dirs w1) (clean_html (page_of r))
  = true ->
  can_write (dirs w1) (pjoin (Path_of output) (output ++ lit ".md")) = true ->
  encodable (markdown_text env (pair_converter u output) (dirs w1) r) = true ->
  saved_reported env (pair_converter u output) r = true ->
  exists w',
    convert_pair env (u, output) w
    = (inr (pjoin (Path_of output) (output ++ lit ".md")), w') /\
    is_dir w' (Path_of output) = true /\
    read_file w' (pjoin (Path_of output) (output ++ lit ".md"))
    = Some (Utf8Text (markdown_text env (pair_converter u output) (dirs w1) r)).
Proof.
  intros I N S Hne Hi C X V.
  destruct (init_dirs _ _ _ _ _ _ I) as (Hself & D1 & D2 & _).
  assert (I2 : init u output (Some output) w1 = (inr (pair_converter u output), w1)).
  { unfold init, bind.
    rewrite (mkdir_exist_ok_there _ _ D1), (mkdir_exist_ok_there _ _ D2). reflexivity. }
  unfold convert_pair. erewrite bind_inr by exact I. erewrite bind_inr by exact I2.
  set (c := pair_converter u output) in *.
  assert (Hs : forall t, output_file c t = pjoin (Path_of output) (output ++ lit ".md")).
  { intros t. unfold output_file, safe_title. simpl.
    destruct output; [contradiction|reflexivity]. }
  pose proof (markdown_text_url env c (dirs w1) r (stdout_errors env) X) as P.
  destruct (convert_page_served env c w1 r P N S) as (Ex & _ & _ & A1).
  destruct (A1 Hi) as (_ & _ & _ & Hok).
  rewrite Hs in Hok. rewrite (Hok C X), V.
  assert (Hd : dirs (after_images env c w1 r) = dirs w1) by apply Ex.
  eexists. split; [reflexivity|]. split.
  - unfold is_dir in *. simpl. now rewrite Hd.
  - apply read_file_written. now rewrite Hd.
Qed.

Lemma convert_pair_output_witness :
  exists w',
    convert_pair (L := Example.lib) Example.env (Example.page_url, lit "out")
      Example.world
    = (inr [lit "out"; lit "out.md"], w') /\
    is_dir w' [lit "out"] = true /\
    read_file w' [lit "out"; lit "out.md"]
    = Some (Utf8Text (markdown_text (L := Example.lib) Example.env
                        (pair_converter Example.page_url (lit "out"))
                        (dirs Example.world_ready) (mkResponse 200 Example.html))).
Proof.
  apply (convert_pair_output (L := Example.lib) Example.env Example.page_url
           (lit "out") Example.world Example.world_ready Example.converter
           (mkResponse 200 Example.html) eq_refl eq_refl eq_refl); [discriminate|..];
    reflexivity.
Defined.

(* ================================================================== *)
(** * Further properties: [url2md_test.py] *)

Lemma mapM_ext_in {A B} (f g : A -> M B) l :
  (forall x, In x l -> forall w, f x w = g x w) ->
  forall w, mapM f l w = mapM g l w.
Proof.
  intros H. apply mapM_ext. apply Forall_forall. exact H.
Qed.

Section TestVersion.

Context {L : Lib}.
Variable env : Env.
Variable self : WebpageToMarkdown.

Lemma test_process_image_plain attrs w :
  plain_img attrs = true ->
  Url2mdTest.process_image env self attrs w = process_image env self attrs w.
Proof.
  unfold plain_img, Url2mdTest.process_image, process_image, Url2mdTest.candidate_src.
  destruct (get attrs (lit "src")) as [[|c s]|]; simpl; try reflexivity;
    destruct (get attrs (lit "data-src")) as [[|c s]|]; simpl; try discriminate;
    destruct (get attrs (lit "data-actualsrc")) as [[|c s]|]; simpl;
    try discriminate; reflexivity.
Qed.

Lemma test_process_node_plain n :
  all_plain (n :: descendants n) ->
  forall w, Url2mdTest.process_node env self n w = process_node env self n w.
Proof.
  induction n as [name attrs kids IH|k t] using node_ind'; intros Hp w;
    [|reflexivity].
  simpl. unfold bind.
  assert (Ha : (if str_eqb name (lit "img") then Url2mdTest.process_image env self attrs
                else ret attrs) w
               = (if str_eqb name (lit "img") then process_image env self attrs
                  else ret attrs) w).
  { destruct (str_eqb name (lit "img")) eqn:E; [|reflexivity].
    apply test_process_image_plain. apply (Hp name attrs kids); [now left|exact E]. }
  rewrite Ha.
  destruct ((if str_eqb name (lit "img") then process_image env self attrs
             else ret attrs) w) as [[e|attrs'] w1]; [reflexivity|].
  rewrite (mapM_ext_in (Url2mdTest.process_node env self) (process_node env self) kids);
    [reflexivity|].
  intros k Hk. rewrite Forall_forall in IH. apply (IH k Hk).
  intros name' attrs2 kids' Hin Himg. apply (Hp name' attrs2 kids'); [|exact Himg].
  right. apply in_descendants_Tag. exists k. split; [exact Hk|].
  destruct Hin as [<-|Hin]; auto.
Qed.

Lemma test_process_images_plain soup w :
  all_plain (descendants soup) ->
  Url2mdTest.process_images env self soup w = process_images env self soup w.
Proof.
  intros Hp. destruct soup as [name attrs kids|k t]; [|reflexivity].
  unfold Url2mdTest.process_images, process_images, bind.
  rewrite (mapM_ext_in (Url2mdTest.process_node env self) (process_node env self) kids);
    [reflexivity|].
  intros k Hk. apply test_process_node_plain.
  intros name' attrs' kids' Hin Himg. apply (Hp name' attrs' kids'); [|exact Himg].
  apply in_descendants_Tag. exists k. split; [exact Hk|].
  destruct Hin as [<-|Hin]; auto.
Qed.

End TestVersion.

(** X21. The converter of [url2md_test.py] and the one of
    [Scripts/url2md.py] do the same on every page in which each [img] tag
    has a source that is not empty, or has nothing in [data-src] and
    [data-actualsrc] either: the same result and the same world. *)
Theorem test_version_agrees `{L : Lib} (env : Env) (self : WebpageToMarkdown)
    (w : World) :
  (forall r name attrs kids,
      net env (url self) = Some r ->
      In (Tag name attrs kids) (descendants (clean_html (page_of r))) ->
      str_eqb name (lit "img") = true -> plain_img attrs = true) ->
  Url2mdTest.convert_to_markdown env self w = convert_to_markdown env self w.
Proof.
  intros H. unfold Url2mdTest.convert_to_markdown, convert_to_markdown, try_except, bind.
  destruct (print (stdout_errors env) (Msg.fetching ++ url self) w) as [[e|[]] w0];
    [reflexivity|].
  unfold session_get.
  destruct (net env (url self)) as [r|] eqn:N; [|reflexivity].
  destruct (raise_for_status r _) as [[e|[]] w1]; [reflexivity|].
  destruct (print (stdout_errors env) Msg.downloading w1) as [[e|[]] w2];
    [reflexivity|].
  fold (page_of r).
  rewrite test_process_images_plain; [reflexivity|].
  intros name attrs kids Hin Himg. exact (H r name attrs kids eq_refl Hin Himg).
Qed.

Lemma test_version_agrees_witness :
  Url2mdTest.convert_to_markdown (L := Example.lib) Example.env Example.converter
    Example.world_ready
  = convert_to_markdown (L := Example.lib) Example.env Example.converter
      Example.world_ready.
Proof.
  apply (test_version_agrees (L := Example.lib) Example.env Example.converter
           Example.world_ready).
  intros r name attrs kids N Hin _.
  injection N as <-. vm_compute in Hin.
  repeat (destruct Hin as [Hin|Hin];
          [first [discriminate Hin | injection Hin as <- <- <-; reflexivity]|]).
  destruct Hin.
Defined.

(** X22. Where the two versions part: on an [img] tag without a source
    but with a lazy-load attribute, [data-src] first and
    [data-actualsrc] after it, the loop of [url2md_test.py] downloads
    that image and gives the tag a [src] with the result, leaving the
    lazy-load attributes in place; the loop of [Scripts/url2md.py] does
    nothing.  (The download is taken to end without an exception: it
    raises only when the image fails and the message about it cannot be
    printed.) *)
Theorem test_version_lazy_image `{L : Lib} (env : Env) (self : WebpageToMarkdown)
    (attrs : list (str * str)) (c : char) (s : str) (w : World) :
  truthy (get attrs (lit "src")) = false ->
  Url2mdTest.candidate_src attrs = Some (c :: s) ->
  image_reported env self (dirs w) (c :: s) = true ->
  (get attrs (lit "data-src") = Some (c :: s) \/
   truthy (get attrs (lit "data-src")) = false /\
   get attrs (lit "data-actualsrc") = Some (c :: s)) /\
  process_image env self attrs w = (inr attrs, w) /\
  exists attrs' w',
    Url2mdTest.process_image env self attrs w = (inr attrs', w') /\
    get attrs' (lit "src") = Some (local_path env self (dirs w) (c :: s)) /\
    get attrs' (lit "data-src") = get attrs (lit "data-src") /\
    get attrs' (lit "data-actualsrc") = get attrs (lit "data-actualsrc") /\
    requests w' = requests w ++ asked self (c :: s).
Proof.
  intros Hs Hc Hr. split; [|split].
  - unfold Url2mdTest.candidate_src in Hc.
    destruct (get attrs (lit "src")) as [[|c0 s0]|]; try discriminate;
      destruct (get attrs (lit "data-src")) as [[|c1 s1]|]; auto.
  - unfold process_image. now destruct (get attrs (lit "src")) as [[|c0 s0]|].
  - unfold Url2mdTest.process_image. rewrite Hc.
    destruct (download_image_spec env self (c :: s) w) as (w' & R & _ & _).
    rewrite Hr in R.
    destruct (download_image_cases env self (c :: s) None w) as (p & w'' & R' & _ & Q & _).
    rewrite R in R'. injection R' as <- <-.
    set (p := local_path env self (dirs w) (c :: s)) in *.
    unfold bind. rewrite R. eexists. exists w'. split; [reflexivity|].
    assert (K : forall k, str_eqb (lit "src") k = false -> str_eqb (lit "alt") k = false ->
                get (if truthy (get (set attrs (lit "src") p) (lit "alt"))
                     then set attrs (lit "src") p
                     else set (set attrs (lit "src") p) (lit "alt") (basename p)) k
                = get attrs k).
    { intros k H1 H2.
      destruct (truthy (get (set attrs (lit "src") p) (lit "alt"))).
      - now apply get_set_other.
      - rewrite get_set_other by exact H2. now apply get_set_other. }
    split; [|split; [|split]].
    + destruct (truthy (get (set attrs (lit "src") p) (lit "alt")));
        [apply get_set_same|].
      rewrite get_set_other by reflexivity. apply get_set_same.
    + apply K; reflexivity.
    + apply K; reflexivity.
    + exact Q.
Qed.

Lemma test_version_lazy_image_witness :
  exists attrs' w',
    Url2mdTest.process_image (L := Example.lib) Example.env Example.converter
      [(lit "data-src", lit "/a.png")] Example.world_ready = (inr attrs', w') /\
    get attrs' (lit "src") = Some (lit "images/img_8c11d92f.png") /\
    get attrs' (lit "data-src") = Some (lit "/a.png") /\
    requests w' = [lit "https://example.com/a.png"].
Proof.
  destruct (test_version_lazy_image (L := Example.lib) Example.env Example.converter
              [(lit "data-src", lit "/a.png")] 47%N (lit "a.png") Example.world_ready
              eq_refl eq_refl eq_refl)
    as (_ & _ & attrs' & w' & R & S & D & _ & Q).
  exists attrs', w'. split; [exact R|]. split; [exact S|]. split; [exact D|exact Q].
Defined.

(* ================================================================== *)
(** * Further properties: [Scripts/mdEdit.py] *)

Lemma universal_newlines_other c s :
  c <> 13%N ->
  MdEdit.universal_newlines (c :: s) = c :: MdEdit.universal_newlines s.
Proof.
  intros H. destruct c as [|p]; [reflexivity|].
  do 4 (try destruct p as [p|p|]); try reflexivity; congruence.
Qed.

Lemma universal_newlines_cr s :
  MdEdit.universal_newlines (13%N :: s)
  = NL :: match s with
          | 10%N :: s' => MdEdit.universal_newlines s'
          | _ => MdEdit.universal_newlines s
          end.
Proof. reflexivity. Qed.

(** No carriage return is left in a text read in universal newlines
    mode. *)
Lemma universal_newlines_no_cr s : ~ In 13%N (MdEdit.universal_newlines s).
Proof.
  assert (H : forall n s, List.length s <= n -> ~ In 13%N (MdEdit.universal_newlines s)).
  { clear s. induction n as [|n IH]; intros [|c s] Hlen; simpl in Hlen; try lia;
      try (intros []).
    destruct (N.eq_dec c 13) as [->|Hc].
    - rewrite universal_newlines_cr. intros [E|Hin]; [discriminate|].
      destruct s as [|d s]; [destruct Hin|].
      destruct (N.eq_dec d 10) as [->|Hd].
      + apply (IH s); [simpl in Hlen; lia|exact Hin].
      + apply (IH (d :: s)); [lia|].
        destruct d as [|p]; [exact Hin|].
        do 4 (try destruct p as [p|p|]); try exact Hin; congruence.
    - rewrite universal_newlines_other by exact Hc.
      intros [E|Hin]; [congruence|]. apply (IH s); [lia|exact Hin]. }
  exact (H (List.length s) s (le_n _)).
Qed.

(** A text without carriage returns is read as it is. *)
Lemma universal_newlines_id s :
  ~ In 13%N s -> MdEdit.universal_newlines s = s.
Proof.
  induction s as [|c s IH]; intros H; [reflexivity|].
  rewrite universal_newlines_other by (intros ->; apply H; now left).
  f_equal. apply IH. intros Hin. apply H. now right.
Qed.

Lemma count_no_match r s :
  (forall n, Re.match_here (Re.atoms r) (skipn n s) = None) ->
  Re.count r s = 0.
Proof.
  unfold Re.count. induction s as [|c s IH]; intros H;
    pose proof (H 0) as H0; simpl in H0; simpl; rewrite H0; [reflexivity|].
  apply IH. intros n. exact (H (S n)).
Qed.

(** The rule of [main] needs a carriage return to match. *)
Lemma main_rule_no_match s n :
  ~ In 13%N s ->
  Re.match_here [Re.one 13%N; Re.one 10%N; Re.one 35%N] (skipn n s) = None.
Proof.
  intros H. destruct (Re.match_here _ _) as [ls|] eqn:E; [|reflexivity].
  exfalso. apply match_here_sound in E.
  apply matched_one in E as (ls' & s' & _ & E0 & _).
  apply H. apply In_skipn with (n := n). unfold str, char in *. rewrite E0. now left.
Qed.

Lemma apply_rules_main stdout s :
  ~ In 13%N s -> MdEdit.apply_rules stdout MdEdit.replacements s = inr s.
Proof.
  intros H. unfold MdEdit.replacements, MdEdit.apply_rules, MdEdit.subn.
  cbn [MdEdit.compiled MdEdit.template MdEdit.template_ok forallb Re.groups andb].
  rewrite sub_no_match by (intros n; now apply main_rule_no_match).
  rewrite count_no_match by (intros n; now apply main_rule_no_match).
  reflexivity.
Qed.

Lemma apply_rules_app stdout a b s :
  MdEdit.apply_rules stdout (a ++ b) s
  = match MdEdit.apply_rules stdout a s with
    | inr t => MdEdit.apply_rules stdout b t
    | inl e => inl e
    end.
Proof.
  revert s. induction a as [|r a IH]; intros s; [reflexivity|].
  simpl. destruct (MdEdit.subn r s) as [e|[t n]]; [reflexivity|].
  destruct ((0 <? n) && negb (printable stdout (MdEdit.replaced r n)));
    [reflexivity|apply IH].
Qed.

Lemma apply_rules_bad stdout rules s :
  Exists (fun r => MdEdit.template_ok (MdEdit.compiled r) (MdEdit.template r) = false)
    rules ->
  exists e, MdEdit.apply_rules stdout rules s = inl e.
Proof.
  intros H. revert s. induction H as [r rules Hr|r rules _ IH]; intros s; simpl.
  - unfold MdEdit.subn. rewrite Hr. eauto.
  - destruct (MdEdit.subn r s) as [e|[t n]]; [eauto|].
    destruct ((0 <? n) && negb (printable stdout (MdEdit.replaced r n)));
      [eauto|apply IH].
Qed.

(** The whole match is group 0 of every pattern. *)
Example subn_whole_match :
  MdEdit.subn Cases.rule_whole (lit "axb") = inr (lit "a[x]b", 1).
Proof. reflexivity. Qed.

Lemma resolve_raw_place ds s q :
  resolve_raw ds s (MdEdit.raw_parts s) = Some q -> q = MdEdit.place s.
Proof.
  unfold resolve_raw. destruct (name_error s); [discriminate|].
  destruct (walk ds [] (MdEdit.raw_parts s)) as [q'| |q'] eqn:W; try discriminate.
  intros [= <-]. exact (walk_target _ _ _ _ W).
Qed.

Lemma can_open_resolve w s :
  MdEdit.can_open w s = true ->
  resolve_raw (dirs w) s (MdEdit.raw_parts s) = Some (MdEdit.place s) /\
  exists_dir (dirs w) (MdEdit.place s) = false /\ MdEdit.wants_dir s = false.
Proof.
  unfold MdEdit.can_open.
  destruct (resolve_raw (dirs w) s (MdEdit.raw_parts s)) as [q|] eqn:R; [|discriminate].
  rewrite (resolve_raw_place _ _ _ R). intros H.
  apply negb_true_iff, orb_false_iff in H. auto.
Qed.

Lemma write_at_ok w s t :
  MdEdit.can_open w s = true -> encodable t = true ->
  write_at s (MdEdit.raw_parts s) (MdEdit.wants_dir s) (Utf8Text t) w
  = (inr tt, MdEdit.saved w s (Utf8Text t)).
Proof.
  intros C E. destruct (can_open_resolve _ _ C) as (R & D & Wd).
  unfold write_at. now rewrite R, D, Wd, E.
Qed.

Lemma write_at_unencodable w s t :
  MdEdit.can_open w s = true -> encodable t = false ->
  write_at s (MdEdit.raw_parts s) (MdEdit.wants_dir s) (Utf8Text t) w
  = (inl UnicodeEncodeError, MdEdit.saved w s (Utf8Text [])).
Proof.
  intros C E. destruct (can_open_resolve _ _ C) as (R & D & Wd).
  unfold write_at. now rewrite R, D, Wd, E.
Qed.


Section MdEditFiles.

Context {L : Lib}.
Variable decode_strict : bytes -> option str.
Variable linesep : str.
Variable stdout : errors.

Lemma read_text_inr w p s :
  MdEdit.read_text decode_strict linesep w p = inr s ->
  MdEdit.exists_ w p = true /\ ~ In 13%N s.
Proof.
  unfold MdEdit.read_text, MdEdit.exists_.
  destruct (resolve_raw (dirs w) p (MdEdit.raw_parts p)) as [q|]; [|discriminate].
  destruct (exists_dir (dirs w) q); [discriminate|].
  destruct (lookup_file (files w) q) as [[b|t]|]; [| |discriminate];
    (destruct (MdEdit.wants_dir p); [discriminate|]).
  - destruct (decode_strict b); [|discriminate].
    intros [= <-]. split; [reflexivity|apply universal_newlines_no_cr].
  - intros [= <-]. split; [reflexivity|apply universal_newlines_no_cr].
Qed.

(** The input file is not there: a message, and nothing else. *)
Lemma replace_in_md_missing input output rules w :
  MdEdit.exists_ w input = false ->
  MdEdit.replace_in_md decode_strict linesep stdout input output rules w
  = (if printable stdout input then inr tt else inl UnicodeEncodeError, w).
Proof.
  intros E. unfold MdEdit.replace_in_md, print. rewrite E. simpl negb. cbv iota.
  rewrite printable_app, (encodable_printable stdout MdEdit.Msg.missing_1 eq_refl).
  rewrite printable_app, (encodable_printable stdout MdEdit.Msg.missing_2 eq_refl).
  simpl. rewrite andb_true_r. now destruct (printable stdout input).
Qed.

(** The input file is there and cannot be read. *)
Lemma replace_in_md_unread input output rules w e :
  MdEdit.exists_ w input = true ->
  MdEdit.read_text decode_strict linesep w input = inl e ->
  MdEdit.replace_in_md decode_strict linesep stdout input output rules w = (inr tt, w).
Proof.
  intros E R. unfold MdEdit.replace_in_md. rewrite E. simpl negb. cbv iota.
  erewrite try_inl by (apply bind_inl; rewrite R; reflexivity).
  now apply print_exn.
Qed.

(** The input file is read, and its name cannot be printed. *)
Lemma replace_in_md_unprinted input output rules w content :
  MdEdit.read_text decode_strict linesep w input = inr content ->
  printable stdout input = false ->
  MdEdit.replace_in_md decode_strict linesep stdout input output rules w = (inr tt, w).
Proof.
  intros R P. unfold MdEdit.replace_in_md.
  rewrite (proj1 (read_text_inr _ _ _ R)). simpl negb. cbv iota.
  erewrite try_inl.
  2:{ erewrite bind_inr by (rewrite R; reflexivity).
      apply bind_inl. apply print_fails.
      rewrite printable_after by reflexivity. exact P. }
  now apply print_exn.
Qed.

(** The input file is read and its name printed: the rules, then the
    write. *)
Lemma replace_in_md_run input output rules w content :
  MdEdit.read_text decode_strict linesep w input = inr content ->
  printable stdout input = true ->
  MdEdit.replace_in_md decode_strict linesep stdout input output rules w
  = (inr tt,
     match MdEdit.apply_rules stdout rules content with
     | inl _ => w
     | inr modified =>
         snd (write_at output (MdEdit.raw_parts output) (MdEdit.wants_dir output)
                (Utf8Text modified) w)
     end).
Proof.
  intros R P. unfold MdEdit.replace_in_md.
  rewrite (proj1 (read_text_inr _ _ _ R)). simpl negb. cbv iota.
  unfold try_except.
  erewrite bind_inr by (rewrite R; reflexivity).
  erewrite bind_inr
    by (apply print_ok; rewrite printable_after by reflexivity; exact P).
  destruct (MdEdit.apply_rules stdout rules content) as [e|modified].
  - erewrite bind_inl by reflexivity. now apply print_exn.
  - erewrite bind_inr by reflexivity.
    destruct (write_at output (MdEdit.raw_parts output) (MdEdit.wants_dir output)
                (Utf8Text modified) w) as [[e|[]] w'] eqn:W.
    + erewrite bind_inl by exact W. now apply print_exn.
    + erewrite bind_inr by exact W. cbn [snd].
      destruct (printable stdout (MdEdit.Msg.written ++ output)) eqn:Q.
      * now rewrite print_ok by exact Q.
      * rewrite print_fails by exact Q. now apply print_exn.
Qed.

(** A successful run. *)
Lemma replace_in_md_ok input output rules w content modified :
  MdEdit.read_text decode_strict linesep w input = inr content ->
  printable stdout input = true ->
  MdEdit.apply_rules stdout rules content = inr modified ->
  encodable modified = true ->
  MdEdit.can_open w output = true ->
  MdEdit.replace_in_md decode_strict linesep stdout input output rules w
  = (inr tt, MdEdit.saved w output (Utf8Text modified)).
Proof.
  intros R P A E C. rewrite (replace_in_md_run _ _ _ _ _ R P), A.
  now rewrite write_at_ok.
Qed.

End MdEditFiles.


(** X24. The rule of [main] never applies.  A text is read in universal
    newlines mode, so it holds no carriage return, and the pattern asks
    for one: with the rule list of [main], [replace_in_md] does what it
    does with no rule at all, whatever the files are. *)
Theorem main_rule_never_applies `{L : Lib} (decode_strict : bytes -> option str)
    (linesep : str) (stdout : errors) (input output : str) (w : World) :
  MdEdit.replace_in_md decode_strict linesep stdout input output MdEdit.replacements w
  = MdEdit.replace_in_md decode_strict linesep stdout input output [] w
  /\ MdEdit.main decode_strict linesep stdout w
    = MdEdit.replace_in_md decode_strict linesep stdout
        MdEdit.input_md_file MdEdit.output_md_file [] w.
Proof.
  assert (H : forall input output,
    MdEdit.replace_in_md decode_strict linesep stdout input output
      MdEdit.replacements w
    = MdEdit.replace_in_md decode_strict linesep stdout input output [] w).
  { clear input output. intros input output.
    destruct (MdEdit.exists_ w input) eqn:E.
    - destruct (MdEdit.read_text decode_strict linesep w input) as [e|content] eqn:R.
      + now rewrite !(replace_in_md_unread _ _ _ _ _ _ _ _ E R).
      + destruct (printable stdout input) eqn:P.
        * rewrite !(replace_in_md_run _ _ _ _ _ _ _ _ R P).
          now rewrite (apply_rules_main stdout content
                         (proj2 (read_text_inr _ _ _ _ _ R))).
        * now rewrite !(replace_in_md_unprinted _ _ _ _ _ _ _ _ R P).
    - now rewrite !(replace_in_md_missing _ _ _ _ _ _ _ E). }
  split; [apply H|]. unfold MdEdit.main. apply H.
Qed.

(** X25. A run that goes well: the input file is read and its name
    printed, no rule is rejected and every rule that applied could say
    so, the result can be encoded and the output file can be opened.
    The output file then holds the text the rules gave, and with the
    rule of [main] that is the text that was read. *)
Theorem replace_in_md_writes `{L : Lib} (decode_strict : bytes -> option str)
    (linesep : str) (stdout : errors) (input output : str)
    (rules : list MdEdit.rule) (w : World) (content modified : str) :
  MdEdit.read_text decode_strict linesep w input = inr content ->
  printable stdout input = true ->
  MdEdit.apply_rules stdout rules content = inr modified ->
  encodable modified = true ->
  MdEdit.can_open w output = true ->
  MdEdit.replace_in_md decode_strict linesep stdout input output rules w
  = (inr tt, MdEdit.saved w output (Utf8Text modified))
  /\ (encodable content = true ->
      MdEdit.replace_in_md decode_strict linesep stdout input output
        MdEdit.replacements w
      = (inr tt, MdEdit.saved w output (Utf8Text content))).
Proof.
  intros R P A E C. split.
  - exact (replace_in_md_ok decode_strict linesep stdout input output rules w
             content modified R P A E C).
  - intros E'. destruct (read_text_inr _ _ _ _ _ R) as [_ Hcr].
    apply (replace_in_md_ok decode_strict linesep stdout input output
             MdEdit.replacements w content content R P); [|exact E'|exact C].
    now apply apply_rules_main.
Qed.

Lemma replace_in_md_writes_witness :
  MdEdit.replace_in_md (L := Example.lib) Cases.decode_ascii [NL] Strict
    (lit "a.md") (lit "a_edit.md") [Cases.rule_x_z] Cases.world_md
  = (inr tt, MdEdit.saved Cases.world_md (lit "a_edit.md")
               (Utf8Text (lit "z" ++ [NL] ++ lit "# y" ++ [NL])))
  /\
  MdEdit.replace_in_md (L := Example.lib) Cases.decode_ascii [NL] Strict
    (lit "a.md") (lit "a_edit.md") MdEdit.replacements Cases.world_md
  = (inr tt, MdEdit.saved Cases.world_md (lit "a_edit.md")
               (Utf8Text (lit "x" ++ [NL] ++ lit "# y" ++ [NL]))).
Proof.
  destruct (replace_in_md_writes (L := Example.lib) Cases.decode_ascii [NL] Strict
              (lit "a.md") (lit "a_edit.md") [Cases.rule_x_z] Cases.world_md
              (lit "x" ++ [NL] ++ lit "# y" ++ [NL])
              (lit "z" ++ [NL] ++ lit "# y" ++ [NL])
              eq_refl eq_refl eq_refl eq_refl eq_refl) as [W1 W2].
  split; [exact W1|exact (W2 eq_refl)].
Defined.

(** X26. One replacement that [re] rejects, because it names a group
    the pattern does not have, anywhere in the list, and nothing is
    written: the rules before it were applied in memory only, and the
    error is printed, not raised. *)
Theorem replace_in_md_bad_rule `{L : Lib} (decode_strict : bytes -> option str)
    (linesep : str) (stdout : errors) (input output : str)
    (rules : list MdEdit.rule) (w : World) :
  Exists (fun r => MdEdit.template_ok (MdEdit.compiled r) (MdEdit.template r) = false)
    rules ->
  snd (MdEdit.replace_in_md decode_strict linesep stdout input output rules w) = w /\
  (MdEdit.exists_ w input = true ->
   MdEdit.replace_in_md decode_strict linesep stdout input output rules w
   = (inr tt, w)).
Proof.
  intros H. destruct (MdEdit.exists_ w input) eqn:E.
  - assert (G : MdEdit.replace_in_md decode_strict linesep stdout input output rules w
                = (inr tt, w)).
    { destruct (MdEdit.read_text decode_strict linesep w input) as [e|content] eqn:R.
      - exact (replace_in_md_unread _ _ _ _ _ _ _ _ E R).
      - destruct (printable stdout input) eqn:P.
        + rewrite (replace_in_md_run _ _ _ _ _ _ _ _ R P).
          now destruct (apply_rules_bad stdout rules content H) as [e ->].
        + exact (replace_in_md_unprinted _ _ _ _ _ _ _ _ R P). }
    rewrite G. auto.
  - rewrite (replace_in_md_missing _ _ _ _ _ _ _ E). split; [reflexivity|discriminate].
Qed.

Lemma replace_in_md_bad_rule_witness :
  MdEdit.replace_in_md (L := Example.lib) Cases.decode_ascii [NL] Strict
    (lit "a.md") (lit "a_edit.md") [Cases.rule_x_z; Cases.rule_bad_group]
    Cases.world_md
  = (inr tt, Cases.world_md).
Proof.
  apply (replace_in_md_bad_rule (L := Example.lib) Cases.decode_ascii [NL] Strict
           (lit "a.md") (lit "a_edit.md") [Cases.rule_x_z; Cases.rule_bad_group]
           Cases.world_md).
  - apply Exists_cons_tl, Exists_cons_hd. reflexivity.
  - reflexivity.
Defined.

(** X27. Two ways a text that UTF-8 does not encode ends a run whose
    input file was read.  A rule that applied and whose message cannot
    be printed stops the run before the output file is opened: nothing
    is written.  When every message was printed and the result cannot
    be encoded, the output file loses its content: it is opened for
    writing, which empties it, before the text is encoded.  Either way
    the error is swallowed. *)
Theorem replace_in_md_unencodable `{L : Lib} (decode_strict : bytes -> option str)
    (linesep : str) (stdout : errors) (input output : str)
    (rules : list MdEdit.rule) (w : World) (content : str) :
  MdEdit.read_text decode_strict linesep w input = inr content ->
  printable stdout input = true ->
  (forall before r rest middle t count,
      rules = before ++ r :: rest ->
      MdEdit.apply_rules stdout before content = inr middle ->
      MdEdit.subn r middle = inr (t, count) ->
      0 < count ->
      printable stdout (MdEdit.replaced r count) = false ->
      MdEdit.replace_in_md decode_strict linesep stdout input output rules w
      = (inr tt, w)) /\
  (forall modified,
      MdEdit.apply_rules stdout rules content = inr modified ->
      encodable modified = false ->
      MdEdit.can_open w output = true ->
      MdEdit.replace_in_md decode_strict linesep stdout input output rules w
      = (inr tt, MdEdit.saved w output (Utf8Text []))).
Proof.
  intros R P. rewrite (replace_in_md_run _ _ _ _ _ _ _ _ R P). split.
  - intros before r rest middle t count -> A S C Q.
    rewrite apply_rules_app, A. simpl. rewrite S.
    apply Nat.ltb_lt in C. now rewrite C, Q.
  - intros modified A E C. rewrite A. now rewrite write_at_unencodable.
Qed.

Lemma replace_in_md_unencodable_witness :
  MdEdit.replace_in_md (L := Example.lib) Cases.decode_ascii [NL] Strict
    (lit "a.md") (lit "a.md") [Cases.rule_surrogate] Cases.world_md
  = (inr tt, Cases.world_md)
  /\
  MdEdit.replace_in_md (L := Example.lib) Cases.decode_ascii [NL] SurrogateEscape
    (lit "a.md") (lit "a.md") [Cases.rule_escaped] Cases.world_md
  = (inr tt, MdEdit.saved Cases.world_md (lit "a.md") (Utf8Text [])).
Proof.
  split.
  - exact (proj1 (replace_in_md_unencodable (L := Example.lib) Cases.decode_ascii
                    [NL] Strict (lit "a.md") (lit "a.md") [Cases.rule_surrogate]
                    Cases.world_md (lit "x" ++ [NL] ++ lit "# y" ++ [NL])
                    eq_refl eq_refl)
             [] Cases.rule_surrogate [] (lit "x" ++ [NL] ++ lit "# y" ++ [NL])
             ([55296%N] ++ [NL] ++ lit "# y" ++ [NL]) 1
             eq_refl eq_refl eq_refl (le_n 1) eq_refl).
  - exact (proj2 (replace_in_md_unencodable (L := Example.lib) Cases.decode_ascii
                    [NL] SurrogateEscape (lit "a.md") (lit "a.md")
                    [Cases.rule_escaped]
                    Cases.world_md (lit "x" ++ [NL] ++ lit "# y" ++ [NL])
                    eq_refl eq_refl)
             ([56448%N] ++ [NL] ++ lit "# y" ++ [NL]) eq_refl eq_refl eq_refl).
Defined.

(** X28. The rules are applied in the order of the list, each to the
    text the one before it left: running two lists of rules in a row is
    running the first list and then the second on its result. *)
Theorem replace_in_md_rule_order `{L : Lib} (decode_strict : bytes -> option str)
    (linesep : str) (stdout : errors) (input output : str)
    (a b : list MdEdit.rule) (w : World) (content middle modified : str) :
  MdEdit.read_text decode_strict linesep w input = inr content ->
  printable stdout input = true ->
  MdEdit.apply_rules stdout a content = inr middle ->
  MdEdit.apply_rules stdout b middle = inr modified ->
  encodable modified = true ->
  MdEdit.can_open w output = true ->
  MdEdit.replace_in_md decode_strict linesep stdout input output (a ++ b) w
  = (inr tt, MdEdit.saved w output (Utf8Text modified)).
Proof.
  intros R P A B E C.
  apply (replace_in_md_ok decode_strict linesep stdout input output
           (a ++ b) w content modified R P); [|exact E|exact C].
  now rewrite apply_rules_app, A.
Qed.

Lemma replace_in_md_rule_order_witness :
  MdEdit.replace_in_md (L := Example.lib) Cases.decode_ascii [NL] Strict
    (lit "a.md") (lit "a_edit.md") ([Cases.rule_x_z] ++ [Cases.rule_z_xx])
    Cases.world_md
  = (inr tt, MdEdit.saved Cases.world_md (lit "a_edit.md")
               (Utf8Text (lit "xx" ++ [NL] ++ lit "# y" ++ [NL]))).
Proof.
  exact (replace_in_md_rule_order (L := Example.lib) Cases.decode_ascii [NL] Strict
           (lit "a.md") (lit "a_edit.md") [Cases.rule_x_z] [Cases.rule_z_xx]
           Cases.world_md
           (lit "x" ++ [NL] ++ lit "# y" ++ [NL])
           (lit "z" ++ [NL] ++ lit "# y" ++ [NL])
           (lit "xx" ++ [NL] ++ lit "# y" ++ [NL])
           eq_refl eq_refl eq_refl eq_refl eq_refl eq_refl).
Defined.

Lemma to_disk_read linesep s :
  linesep = [NL] \/ linesep = [13%N; NL] ->
  ~ In 13%N s ->
  MdEdit.universal_newlines (MdEdit.to_disk linesep s) = s.
Proof.
  intros Hl. induction s as [|c s IH]; intros H; [reflexivity|].
  assert (Hc : c <> 13%N) by (intros ->; apply H; now left).
  assert (Hs : ~ In 13%N s) by (intros Hin; apply H; now right).
  unfold MdEdit.to_disk. cbn [flat_map]. fold (MdEdit.to_disk linesep s).
  destruct (char_eqb c NL) eqn:E.
  - apply N.eqb_eq in E. subst c. destruct Hl as [-> | ->].
    + change ([NL] ++ MdEdit.to_disk [NL] s) with (NL :: MdEdit.to_disk [NL] s).
      rewrite universal_newlines_other by discriminate. now rewrite IH.
    + change ([13%N; NL] ++ MdEdit.to_disk [13%N; NL] s)
        with (13%N :: NL :: MdEdit.to_disk [13%N; NL] s).
      rewrite universal_newlines_cr. now rewrite IH.
  - change ([c] ++ MdEdit.to_disk linesep s) with (c :: MdEdit.to_disk linesep s).
    rewrite universal_newlines_other by exact Hc. now rewrite IH.
Qed.

(** X29. What [replace_in_md] has written reads back as it was written,
    on a system whose line separator is a newline or a carriage return
    and a newline, as long as the text holds no carriage return of its
    own. *)
Theorem replace_in_md_read_back `{L : Lib} (decode_strict : bytes -> option str)
    (linesep : str) (stdout : errors) (input output : str)
    (rules : list MdEdit.rule) (w : World) (content modified : str) :
  linesep = [NL] \/ linesep = [13%N; NL] ->
  MdEdit.read_text decode_strict linesep w input = inr content ->
  printable stdout input = true ->
  MdEdit.apply_rules stdout rules content = inr modified ->
  encodable modified = true ->
  ~ In 13%N modified ->
  MdEdit.can_open w output = true ->
  MdEdit.read_text decode_strict linesep
    (snd (MdEdit.replace_in_md decode_strict linesep stdout input output rules w))
    output
  = inr modified.
Proof.
  intros Hl R P A E Hcr C.
  rewrite (replace_in_md_ok decode_strict linesep stdout input output rules w
             content modified R P A E C).
  destruct (can_open_resolve _ _ C) as (Rs & D & Wd).
  unfold MdEdit.read_text. simpl. rewrite Rs, D. simpl.
  rewrite path_eqb_refl, Wd. now rewrite to_disk_read.
Qed.

Lemma replace_in_md_read_back_witness :
  MdEdit.read_text Cases.decode_ascii [13%N; NL]
    (snd (MdEdit.replace_in_md (L := Example.lib) Cases.decode_ascii [13%N; NL]
            Strict (lit "a.md") (lit "a_edit.md") [Cases.rule_x_z] Cases.world_md))
    (lit "a_edit.md")
  = inr (lit "z" ++ [NL] ++ lit "# y" ++ [NL]).
Proof.
  apply (replace_in_md_read_back (L := Example.lib) Cases.decode_ascii [13%N; NL]
           Strict (lit "a.md") (lit "a_edit.md") [Cases.rule_x_z] Cases.world_md
           (lit "x" ++ [NL] ++ lit "# y" ++ [NL])
           (lit "z" ++ [NL] ++ lit "# y" ++ [NL])
           (or_intror eq_refl) eq_refl eq_refl eq_refl eq_refl).
  - vm_compute. intuition discriminate.
  - reflexivity.
Defined.
